(** * Idea2Paper: recall fusion, pattern selection and the refinement loop

    A shallow embedding of the Python sources under
    [Paper-KG-Pipeline/scripts]:

    - [build_edges.py]        ([EdgeBuilder._build_idea_belongs_to_domain_edges])
    - [recall_system.py]      ([RecallSystem]: token Jaccard, Path 1, fusion)
    - [simple_recall_demo.py] (the simplified recall: character Jaccard, Path 1, fusion)
    - [idea2story_pipeline.py] ([PatternSelector], [MultiAgentCritic],
      [RefinementEngine], [RAGVerifier], [Idea2StoryPipeline.run])

    Conventions of the embedding.

    - Python [float] values are idealised as canonical rationals [Qc]; the
      comparisons the code performs ([>], [>=], [<=]) are the exact ones.
      The [belongs_to] weights, which are checked against a tolerance,
      are the rationals the doubles hold: the quotient of the two counts
      rounded to 53 significant bits.
    - A Python [str] is a [string]; one [ascii] stands for one character
      (a code point below 256), so [lower], [split] and slices are those
      of such texts.  The literals of the source, which are only
      concatenated and compared, are kept as their UTF-8 bytes.
    - A Python [dict] whose insertion order is observable is an association
      list with unique keys; a Python [set] is a [gset].
    - Calls to the language model ([call_llm] and the parsing around it) are
      an oracle threaded through an explicit world state. *)

From Stdlib Require Import Ascii String QArith Qcanon Qround Qpower Lqa.
From stdpp Require Import gmap strings list numbers sorting.

Open Scope Qc_scope.

(** ** Python built-ins used by the sources *)

Module Py.

Definition text := string.

(** [bool(s)] for a string. *)
Definition truthy (s : text) : bool :=
  match s with EmptyString => false | String _ _ => true end.

(** [str.lower] on the characters below 256: [A]-[Z] and the Latin-1
    capitals (192-222 except the multiplication sign 215) move up by 32. *)
Definition lower_ascii (c : ascii) : ascii :=
  let n := nat_of_ascii c in
  if ((65 <=? n)%nat && (n <=? 90)%nat)
     || ((192 <=? n)%nat && (n <=? 222)%nat && negb (n =? 215)%nat)
  then ascii_of_nat (n + 32) else c.

Fixpoint lower (s : text) : text :=
  match s with
  | EmptyString => EmptyString
  | String c s' => String (lower_ascii c) (lower s')
  end.

(** [str.isspace] on the characters below 256: TAB, LF, VT, FF, CR,
    FS, GS, RS, US, SPACE, NEL (133) and NBSP (160). *)
Definition isspace (c : ascii) : bool :=
  let n := nat_of_ascii c in
  ((9 <=? n)%nat && (n <=? 13)%nat) || ((28 <=? n)%nat && (n <=? 32)%nat)
  || (n =? 133)%nat || (n =? 160)%nat.

(** [str.split()] without argument: the maximal runs of non-space
    characters, in order.  [cur] is the run being read, reversed. *)
Fixpoint split_aux (cur : list ascii) (s : text) : list text :=
  let flush := match cur with [] => [] | _ => [string_of_list_ascii (rev cur)] end in
  match s with
  | EmptyString => flush
  | String c s' =>
      if isspace c then flush ++ split_aux [] s' else split_aux (c :: cur) s'
  end.

Definition split (s : text) : list text := split_aux [] s.

(** [s.replace(" ", "")]. *)
Fixpoint remove_spaces (s : text) : text :=
  match s with
  | EmptyString => EmptyString
  | String c s' =>
      if Ascii.eqb c " "%char then remove_spaces s' else String c (remove_spaces s')
  end.

(** [s[:n]]. *)
Definition str_take (n : nat) (s : text) : text := String.substring 0 n s.

(** [sub in s]. *)
Definition contains (sub s : text) : bool :=
  match String.index 0 sub s with Some _ => true | None => false end.

(** [sep.join(l)]. *)
Definition join (sep : text) (l : list text) : text := String.concat sep l.

(** [l[a:b]] for [0 <= a]. *)
Definition slice {A} (a b : nat) (l : list A) : list A := take (b - a) (drop a l).

(** [l.sort(key=key)]: the stable ascending sort (insertion sort; an
    element goes before the first one whose key is not smaller). *)
Fixpoint insert_asc {A} (key : A → Z) (x : A) (l : list A) : list A :=
  match l with
  | [] => [x]
  | y :: l' => if (key x <=? key y)%Z then x :: y :: l' else y :: insert_asc key x l'
  end.

Definition sort_asc {A} (key : A → Z) (l : list A) : list A :=
  foldr (insert_asc key) [] l.

(** [l.sort(key=key, reverse=True)] with an integer key: stable descending. *)
Fixpoint insert_desc {A} (key : A → Z) (x : A) (l : list A) : list A :=
  match l with
  | [] => [x]
  | y :: l' => if (key y <=? key x)%Z then x :: y :: l' else y :: insert_desc key x l'
  end.

Definition sort_desc {A} (key : A → Z) (l : list A) : list A :=
  foldr (insert_desc key) [] l.

(** The same with a float key ([sorted(..., key=..., reverse=True)]). *)
Fixpoint insert_descQ {A} (key : A → Qc) (x : A) (l : list A) : list A :=
  match l with
  | [] => [x]
  | y :: l' =>
      if bool_decide (key y ≤ key x) then x :: y :: l' else y :: insert_descQ key x l'
  end.

Definition sort_descQ {A} (key : A → Qc) (l : list A) : list A :=
  foldr (insert_descQ key) [] l.

(** Non-increasing order of a float key: what a descending sort yields. *)
Definition desc_by {A} (key : A → Qc) (a b : A) : Prop := key b ≤ key a.

(** [sum(l)] on floats: a left fold from [0]. *)
Definition sum (l : list Qc) : Qc := foldl Qcplus 0 l.

(** [min(l)] / [max(a, b)] on floats. *)
Definition max2 (a b : Qc) : Qc := if bool_decide (a < b) then b else a.

Fixpoint min_list (x : Qc) (l : list Qc) : Qc :=
  match l with
  | [] => x
  | y :: l' => min_list (if bool_decide (y < x) then y else x) l'
  end.

(** [l.index(v)]: position of the first element equal to [v]. *)
Fixpoint index_of (v : Qc) (l : list Qc) : option nat :=
  match l with
  | [] => None
  | y :: l' => if bool_decide (y = v) then Some 0%nat else S <$> index_of v l'
  end.

(** *** Insertion-ordered dictionaries *)

Definition dict (V : Type) := list (string * V).

(** [d.get(k)]. *)
Fixpoint dict_get {V} (k : string) (d : dict V) : option V :=
  match d with
  | [] => None
  | (k', v) :: d' => if String.eqb k k' then Some v else dict_get k d'
  end.

(** [d[k] = f(d[k])] for a [defaultdict] with default [dflt]: an existing
    key keeps its place, a new key is appended. *)
Fixpoint dict_update {V} (dflt : V) (f : V → V) (k : string) (d : dict V) : dict V :=
  match d with
  | [] => [(k, f dflt)]
  | (k', v) :: d' =>
      if String.eqb k k' then (k', f v) :: d' else (k', v) :: dict_update dflt f k d'
  end.

(** [d[k] += x] on a [defaultdict(float)]. *)
Definition dict_add (k : string) (x : Qc) (d : dict Qc) : dict Qc :=
  dict_update 0 (λ v, v + x) k d.

(** [d[k] += 1] on a [defaultdict(int)]. *)
Definition dict_incr (k : string) (d : dict nat) : dict nat :=
  dict_update 0%nat S k d.

(** [{key(x): x for x in l}]: a later element overrides an earlier one
    with the same key. *)
Definition index_by {A} (key : A → string) (l : list A) : gmap string A :=
  foldl (λ m x, <[key x := x]> m) ∅ l.

(** *** Doubles

    A double, away from overflow and underflow, is a rational with 53
    significant bits; a division returns the double nearest to the
    exact quotient, ties going to the even significand. *)

(** The integer nearest to a rational, ties to the even one. *)
Definition round_half_even (x : Q) : Z :=
  let f := Qfloor x in
  match (x - inject_Z f ?= 1 # 2)%Q with
  | Lt => f
  | Gt => (f + 1)%Z
  | Eq => if Z.even f then f else (f + 1)%Z
  end.

(** The exponent [e] of a positive rational: [2^e <= x < 2^(e + 1)]. *)
Definition binade (x : Q) : Z :=
  let e := (Z.log2 (Qnum x) - Z.log2 (Zpos (Qden x)))%Z in
  if Qle_bool (2 ^ e) x then e else (e - 1)%Z.

(** A positive rational rounded to 53 significant bits. *)
Definition round_positive (x : Q) : Q :=
  let e := binade x in
  (inject_Z (round_half_even (x * 2 ^ (52 - e))) * 2 ^ (e - 52))%Q.

(** The double nearest to a rational. *)
Definition round_double (x : Qc) : Qc :=
  if bool_decide (0 < x) then Q2Qc (round_positive x)
  else if bool_decide (x < 0) then - Q2Qc (round_positive (- x))
  else 0.

(** [a / b] on two ints, [b] not zero. *)
Definition float_div (a b : nat) : Qc :=
  round_double (Qc_of_Z (Z.of_nat a) / Qc_of_Z (Z.of_nat b)).

(** [2 ** -53], the largest relative error of a rounding. *)
Definition UNIT_ROUNDOFF : Qc := Q2Qc (1 # 9007199254740992).

End Py.

(** ** The knowledge graph: node records and the directed graph *)

Module Graph.
Import Py.

(** An Idea node of [nodes_idea.json]. *)
Record Idea := {
  idea_id : string;
  description : text;
  source_paper_ids : list string;   (* [idea.get('source_paper_ids', [])] *)
  idea_pattern_ids : list string;   (* [idea.get('pattern_ids', [])] *)
}.

(** A Paper node of [nodes_paper.json]. *)
Record Paper := {
  paper_id : string;
  title : text;
  domains : list string;            (* [paper.get('domains', [])] *)
  paper_pattern_ids : list string;  (* [paper.get('pattern_ids', [])] *)
  core_idea : text;                 (* [paper.get('idea', {}).get('core_idea', '')] *)
  abstract : text;                  (* [paper.get('abstract', '')] *)
  ratings : list Qc;                (* [[r.get('rating', 5) for r in reviews]] *)
  method_story : text;              (* [paper.get('skeleton', {}).get('method_story', '')] *)
}.

(** A Domain node of [nodes_domain.json]. *)
Record Domain := {
  domain_id : string;
  name : text;
}.

(** The attribute dictionary of an edge; a field is [None] when the key
    is absent. *)
Record EdgeData := {
  relation : option string;
  quality : option Qc;
  weight : option Qc;
  paper_count : option nat;
  total_papers : option nat;
  effectiveness : option Qc;
  confidence : option Qc;
}.

Definition no_attrs : EdgeData :=
  {| relation := None; quality := None; weight := None; paper_count := None;
     total_papers := None; effectiveness := None; confidence := None |}.

(** [datadict.update(attr)]. *)
Definition update_attrs (new old : EdgeData) : EdgeData :=
  {| relation := from_option Some (relation old) (relation new);
     quality := from_option Some (quality old) (quality new);
     weight := from_option Some (weight old) (weight new);
     paper_count := from_option Some (paper_count old) (paper_count new);
     total_papers := from_option Some (total_papers old) (total_papers new);
     effectiveness := from_option Some (effectiveness old) (effectiveness new);
     confidence := from_option Some (confidence old) (confidence new) |}.

(** A [networkx.DiGraph]: the node set and the successor adjacency
    dictionary, in insertion order (the predecessor dictionary is not
    read by the code modelled here). *)
Record DiGraph := {
  nodes : gset string;
  succ : dict (dict EdgeData);
}.

Definition empty_graph : DiGraph := {| nodes := ∅; succ := [] |}.

Definition has_node (G : DiGraph) (n : string) : bool := bool_decide (n ∈ nodes G).

(** [[(v, G[n][v]) for v in G.successors(n)]] for a node of the graph
    (every use is guarded by [has_node]). *)
Definition successors (G : DiGraph) (n : string) : dict EdgeData :=
  default [] (dict_get n (succ G)).

(** [G.add_edge(u, v, **attrs)]. *)
Definition add_edge (u v : string) (attrs : EdgeData) (G : DiGraph) : DiGraph :=
  {| nodes := {[u]} ∪ ({[v]} ∪ nodes G);
     succ := dict_update [] (dict_update no_attrs (update_attrs attrs) v) u (succ G) |}.

End Graph.

(** ** [build_edges.py]: the [belongs_to] edges *)

Module BuildEdges.
Import Py Graph.

(** The part of [EdgeBuilder] that [_build_idea_belongs_to_domain_edges]
    reads: the node lists and the two indices of [_build_indices]. *)
Record EdgeBuilder := {
  ideas : list Idea;
  papers : list Paper;
  domain_list : list Domain;
}.

Definition paper_id_to_paper (b : EdgeBuilder) : gmap string Paper :=
  index_by paper_id (papers b).

(** [{d['name']: d['domain_id'] for d in self.domains}]. *)
Definition domain_name_to_id (b : EdgeBuilder) : gmap string string :=
  foldl (λ m d, <[name d := domain_id d]> m) ∅ (domain_list b).

(** The inner loop over [paper.get('domains', [])]. *)
Definition count_domains (b : EdgeBuilder) (domain_counts : dict nat) (p : Paper) : dict nat :=
  foldl (λ counts domain_name,
           match domain_name_to_id b !! domain_name with
           | Some did => if truthy did then dict_incr did counts else counts
           | None => counts
           end)
        domain_counts (domains p).

(** The loop over [source_paper_ids] filling [domain_counts]. *)
Definition domain_counts (b : EdgeBuilder) (ids : list string) : dict nat :=
  foldl (λ counts pid,
           match paper_id_to_paper b !! pid with
           | Some p => count_domains b counts p
           | None => counts
           end)
        [] ids.

(** One [belongs_to] edge as passed to [add_edge]; its weight is the
    double [count / total_papers]. *)
Definition belongs_to_edge (i : Idea) (total : nat) (entry : string * nat)
  : string * string * EdgeData :=
  let '(did, count) := entry in
  (idea_id i, did,
   {| relation := Some "belongs_to"%string;
      quality := None;
      weight := Some (float_div count total);
      paper_count := Some count;
      total_papers := Some total;
      effectiveness := None;
      confidence := None |}).

(** The body of the loop for one Idea: the [add_edge] calls it makes,
    in order. *)
Definition belongs_to_edges (b : EdgeBuilder) (i : Idea) : list (string * string * EdgeData) :=
  match source_paper_ids i with
  | [] => []
  | ids =>
      let counts := domain_counts b ids in
      let total := length ids in
      belongs_to_edge i total <$> counts
  end.

(** The weights carried by the edges built for one Idea. *)
Definition belongs_to_weights (b : EdgeBuilder) (i : Idea) : list Qc :=
  omap (λ e, weight e.2) (belongs_to_edges b i).

Definition _build_idea_belongs_to_domain_edges (b : EdgeBuilder) (G : DiGraph) : DiGraph :=
  foldl (λ G i, foldl (λ G e, add_edge e.1.1 e.1.2 e.2 G) G (belongs_to_edges b i))
        G (ideas b).

End BuildEdges.

(** ** [recall_system.py]: similarity, Path 1 and the fusion of the paths *)

Module Recall.
Import Py Graph.

(** A Pattern node; [cluster_size] is [None] when the key is absent
    (the call sites use different defaults). *)
Record SkeletonExample := { ex_method_story : text }.
Record Trick := { trick_name : text }.
Record PatternInfo := {
  pattern_name : text;                         (* [.get('name', '')] *)
  cluster_size : option Z;
  summary : text;                              (* [.get('summary', '')] *)
  skeleton_examples : list SkeletonExample;    (* [.get('skeleton_examples', [])] *)
  top_tricks : list Trick;                     (* [.get('top_tricks', [])] *)
}.

(** The empty dictionary [{}] that [pattern_id_to_pattern.get(pid, {})]
    falls back to. *)
Definition empty_info : PatternInfo :=
  {| pattern_name := ""; cluster_size := None; summary := "";
     skeleton_examples := []; top_tricks := [] |}.

Record Pattern := { pattern_id : string; info : PatternInfo }.

(** [RecallConfig] / the module constants of [simple_recall_demo.py]. *)
Record RecallConfig := {
  PATH1_TOP_K_IDEAS : nat;
  PATH1_WEIGHT : Qc;
  PATH2_WEIGHT : Qc;
  PATH3_WEIGHT : Qc;
  FINAL_TOP_K : nat;
}.

Definition default_config : RecallConfig :=
  {| PATH1_TOP_K_IDEAS := 10;
     PATH1_WEIGHT := Q2Qc (4 # 10); PATH2_WEIGHT := Q2Qc (3 # 10);
     PATH3_WEIGHT := Q2Qc (3 # 10); FINAL_TOP_K := 10 |}.

Definition demo_config : RecallConfig :=
  {| PATH1_TOP_K_IDEAS := 10;
     PATH1_WEIGHT := Q2Qc (4 # 10); PATH2_WEIGHT := Q2Qc (2 # 10);
     PATH3_WEIGHT := Q2Qc (4 # 10); FINAL_TOP_K := 10 |}.

(** What [RecallSystem.__init__] loads. *)
Record RecallSystem := {
  ideas : list Idea;
  patterns : list Pattern;
  G : DiGraph;
}.

Definition idea_id_to_idea (sys : RecallSystem) : gmap string Idea :=
  index_by idea_id (ideas sys).
Definition pattern_id_to_pattern (sys : RecallSystem) : gmap string Pattern :=
  index_by pattern_id (patterns sys).

(** [set(text.lower().split())]. *)
Definition token_set (t : text) : gset string := list_to_set (split (lower t)).

(** [len(a) / len(b)] on two sets. *)
Definition ratio (a b : nat) : Qc := Qc_of_Z (Z.of_nat a) / Qc_of_Z (Z.of_nat b).

(** [RecallSystem._compute_text_similarity]; [RAGVerifier._compute_similarity]
    has the same body. *)
Definition _compute_text_similarity (text1 text2 : text) : Qc :=
  let tokens1 := token_set text1 in
  let tokens2 := token_set text2 in
  if bool_decide (tokens1 = ∅) || bool_decide (tokens2 = ∅) then 0
  else ratio (size (tokens1 ∩ tokens2)) (size (tokens1 ∪ tokens2)).

(** Step 1 and 2 of Path 1: the kept Ideas with their similarity. *)
Definition top_ideas (K : nat) (sim : text → text → Qc) (ideas : list Idea)
    (user_idea : text) : list (string * Qc) :=
  let similarities :=
    filter (λ p, 0 < p.2) ((λ i, (idea_id i, sim user_idea (description i))) <$> ideas) in
  take K (sort_descQ snd similarities).

(** The loop over the successors of one paper. *)
Definition path1_paper (G : DiGraph) (similarity : Qc) (scores : dict Qc) (pid : string)
    : dict Qc :=
  if has_node G pid then
    foldl (λ scores se,
             if bool_decide (relation se.2 = Some "uses_pattern"%string)
             then dict_add se.1 (similarity * default (Q2Qc (1 # 2)) (quality se.2)) scores
             else scores)
          scores (successors G pid)
  else scores.

(** The loop body for one kept Idea; [self.idea_id_to_idea[idea_id]]
    cannot fail, the ids come from [self.ideas]. *)
Definition path1_idea (sys : RecallSystem) (scores : dict Qc) (entry : string * Qc) : dict Qc :=
  match idea_id_to_idea sys !! entry.1 with
  | Some idea => foldl (path1_paper (G sys) entry.2) scores (source_paper_ids idea)
  | None => scores
  end.

Definition _recall_path1_similar_ideas (cfg : RecallConfig) (sys : RecallSystem)
    (user_idea : text) : dict Qc :=
  foldl (path1_idea sys) []
        (top_ideas (PATH1_TOP_K_IDEAS cfg) _compute_text_similarity (ideas sys) user_idea).

(** The fusion step, shared by [RecallSystem.recall] and the demo's
    [main].  [order] is the order in which the loop
    [for pattern_id in all_patterns] visits the set. *)
Definition final_score (cfg : RecallConfig) (path1 path2 path3 : dict Qc) (pid : string) : Qc :=
  let score1 := default 0 (dict_get pid path1) * PATH1_WEIGHT cfg in
  let score2 := default 0 (dict_get pid path2) * PATH2_WEIGHT cfg in
  let score3 := default 0 (dict_get pid path3) * PATH3_WEIGHT cfg in
  score1 + score2 + score3.

Definition all_patterns (path1 path2 path3 : dict Qc) : gset string :=
  list_to_set path1.*1 ∪ list_to_set path2.*1 ∪ list_to_set path3.*1.

Definition fuse_in (order : list string) (cfg : RecallConfig) (path1 path2 path3 : dict Qc)
    : list (string * Qc) :=
  let final_scores := (λ pid, (pid, final_score cfg path1 path2 path3 pid)) <$> order in
  let ranked := sort_descQ snd final_scores in
  take (FINAL_TOP_K cfg) ranked.

(** The iteration order of a Python set is not specified; the embedding
    fixes the one of [elements]. *)
Definition fuse (cfg : RecallConfig) (path1 path2 path3 : dict Qc) : list (string * Qc) :=
  fuse_in (elements (all_patterns path1 path2 path3)) cfg path1 path2 path3.

(** [RecallSystem.recall] from the fusion step on: the three path
    dictionaries are fused, ranked, cut and paired with the pattern
    records. *)
Definition recall_results (cfg : RecallConfig) (sys : RecallSystem)
    (path1_scores path2_scores path3_scores : dict Qc) : list (string * PatternInfo * Qc) :=
  (λ ps, (ps.1, from_option info empty_info (pattern_id_to_pattern sys !! ps.1), ps.2))
    <$> fuse cfg path1_scores path2_scores path3_scores.

(** *** [simple_recall_demo.py] *)

(** [set(text.lower().replace(" ", ""))]: the set of characters. *)
Definition char_set (t : text) : gset ascii :=
  list_to_set (list_ascii_of_string (remove_spaces (lower t))).

Definition compute_similarity (text1 text2 : text) : Qc :=
  if negb (truthy text1) || negb (truthy text2) then 0
  else
    let tokens1 := char_set text1 in
    let tokens2 := char_set text2 in
    if bool_decide (tokens1 = ∅) || bool_decide (tokens2 = ∅) then 0
    else ratio (size (tokens1 ∩ tokens2)) (size (tokens1 ∪ tokens2)).

(** Path 1 of the demo: the pattern ids stored on the Idea node. *)
Definition demo_path1_idea (ideas : list Idea) (scores : dict Qc) (entry : string * Qc)
    : dict Qc :=
  match index_by idea_id ideas !! entry.1 with
  | Some idea => foldl (λ scores pid, dict_add pid entry.2 scores) scores (idea_pattern_ids idea)
  | None => scores
  end.

Definition demo_path1 (cfg : RecallConfig) (ideas : list Idea) (user_idea : text) : dict Qc :=
  foldl (demo_path1_idea ideas) []
        (top_ideas (PATH1_TOP_K_IDEAS cfg) compute_similarity ideas user_idea).

End Recall.

(** ** [idea2story_pipeline.py]: configuration and data *)

Module Pipeline.
Import Py Graph Recall.

(** [PipelineConfig]. *)
Record PipelineConfig := {
  INNOVATIVE_CLUSTER_SIZE_THRESHOLD : Z;
  PASS_SCORE : Qc;
  MAX_REFINE_ITERATIONS : nat;
  COLLISION_THRESHOLD : Qc;
  TAIL_INJECTION_RANK_RANGE : nat * nat;
  HEAD_INJECTION_RANK_RANGE : nat * nat;
  HEAD_INJECTION_CLUSTER_THRESHOLD : Z;
}.

Definition default_pipeline_config : PipelineConfig :=
  {| INNOVATIVE_CLUSTER_SIZE_THRESHOLD := 10;
     PASS_SCORE := Qc_of_Z 7;
     MAX_REFINE_ITERATIONS := 3;
     COLLISION_THRESHOLD := Q2Qc (75 # 100);
     TAIL_INJECTION_RANK_RANGE := (4, 9)%nat;
     HEAD_INJECTION_RANK_RANGE := (0, 2)%nat;
     HEAD_INJECTION_CLUSTER_THRESHOLD := 15 |}.

(** One entry of [recalled_patterns]: [(pattern_id, pattern_info, score)]. *)
Definition Recalled : Type := string * PatternInfo * Qc.

(** [pinfo.get('cluster_size', dflt)]. *)
Definition cluster_size_or (dflt : Z) (pinfo : PatternInfo) : Z :=
  default dflt (cluster_size pinfo).

(** [d[k] = v] on an insertion-ordered dictionary. *)
Definition dict_set {V} (k : string) (v : V) (d : dict V) : dict V :=
  dict_update v (λ _, v) k d.

(** *** Phase 1: [PatternSelector] *)

Definition _select_conservative (recalled_patterns : list Recalled)
    : option (string * PatternInfo) :=
  match recalled_patterns with
  | [] => None
  | (pid, pinfo, _) :: _ => Some (pid, pinfo)
  end.

Definition _select_innovative (cfg : PipelineConfig) (recalled_patterns : list Recalled)
    (exclude : list string) : option (string * PatternInfo) :=
  let candidates :=
    filter (λ c : Recalled,
              (c.1.1 ∉ exclude) ∧
              (cluster_size_or 999 c.1.2 < INNOVATIVE_CLUSTER_SIZE_THRESHOLD cfg)%Z)
           recalled_patterns in
  let candidates :=
    match candidates with
    | [] =>
        sort_asc (λ c : Recalled, cluster_size_or 999 c.1.2)
                 (filter (λ c : Recalled, c.1.1 ∉ exclude) recalled_patterns)
    | _ :: _ => candidates
    end in
  match candidates with
  | c :: _ => Some (c.1.1, c.1.2)
  | [] => None
  end.

(** [exclude] holds [None] for a slot that was not filled. *)
Definition _select_cross_domain (recalled_patterns : list Recalled)
    (exclude : list (option string)) : option (string * PatternInfo) :=
  let candidates :=
    filter (λ c : Recalled, Some c.1.1 ∉ exclude) recalled_patterns in
  match candidates with
  | c :: _ => Some (c.1.1, c.1.2)
  | [] => None
  end.

Definition select (cfg : PipelineConfig) (recalled_patterns : list Recalled)
    : dict (string * PatternInfo) :=
  let selected := [] in
  let conservative := _select_conservative recalled_patterns in
  let selected :=
    match conservative with
    | Some c => dict_set "conservative" c selected
    | None => selected
    end in
  let innovative :=
    _select_innovative cfg recalled_patterns
      (match conservative with Some c => [c.1] | None => [] end) in
  let selected :=
    match innovative with
    | Some c => dict_set "innovative" c selected
    | None => selected
    end in
  let cross_domain :=
    _select_cross_domain recalled_patterns [fst <$> conservative; fst <$> innovative] in
  match cross_domain with
  | Some c => dict_set "cross_domain" c selected
  | None => selected
  end.

(** *** Phase 3.5: [RefinementEngine] *)

Definition GENERIC_TRICKS : list text :=
  ["消融实验"; "多数据集验证"; "对比实验"; "Case Study"; "案例分析";
   "可视化"; "Attention 可视化"; "参数敏感性分析"; "鲁棒性测试";
   "现有方法局限性"; "逻辑递进"; "叙事结构"; "性能提升"; "实验验证"]%string.

(** A candidate of an injection strategy: [(pattern_id, pattern_info, cluster_size)]. *)
Definition Candidate : Type := string * PatternInfo * Z.

Definition as_candidate (dflt : Z) (r : Recalled) : Candidate :=
  (r.1.1, r.1.2, cluster_size_or dflt r.1.2).

(** [[... for i in range(start, min(end + 1, len(l)))]]. *)
Definition rank_window (range : nat * nat) (l : list Recalled) : list Recalled :=
  slice range.1 (Nat.min (range.2 + 1) (length l)) l.

(** The technique names kept by both strategies: among the first five
    [top_tricks], the first two whose name contains no generic term. *)
Definition tech_tricks (pinfo : PatternInfo) : list text :=
  take 2 (filter (λ n, ¬ Exists (λ gt, contains gt n = true) GENERIC_TRICKS)
                 (trick_name <$> take 5 (top_tricks pinfo))).

(** The candidate that [_inject_tail_tricks] selects, if any. *)
Definition tail_select (cfg : PipelineConfig) (recalled_patterns : list Recalled)
    (used_patterns : gset string) : option Candidate :=
  let candidates :=
    filter (λ c : Candidate,
              (c.1.1 ∉ used_patterns) ∧ (c.2 < INNOVATIVE_CLUSTER_SIZE_THRESHOLD cfg)%Z)
           (as_candidate 999 <$> rank_window (TAIL_INJECTION_RANK_RANGE cfg) recalled_patterns) in
  let candidates :=
    match candidates with
    | [] =>
        sort_asc snd (filter (λ c : Candidate, c.1.1 ∉ used_patterns)
                             (as_candidate 999 <$> recalled_patterns))
    | _ :: _ => candidates
    end in
  head (sort_asc snd candidates).

(** The instructions built from the selected pattern. *)
Definition tail_instructions (pinfo : PatternInfo) : list text :=
  let method_insights :=
    omap (λ ex, if truthy (ex_method_story ex)
                then Some (str_take 150 (ex_method_story ex)) else None)
         (take 2 (skeleton_examples pinfo)) in
  let tricks := tech_tricks pinfo in
  let injection_instructions :=
    ((λ insight, "【方法论重构】参考 " +:+ pattern_name pinfo +:+ " 的核心技术路线：" +:+ insight)
       <$> take 1 method_insights)
    ++ (match tricks with
        | [] => []
        | _ :: _ => ["【核心技术】融合 " +:+ pattern_name pinfo +:+ " 的关键技术点："
                     +:+ join " + " tricks]
        end) in
  match injection_instructions with
  | [] => ["融合 " +:+ pattern_name pinfo +:+ " 的核心思路，重构现有方法论"]
  | _ :: _ => injection_instructions
  end.

(** [_inject_tail_tricks]: the returned instructions and the updated
    [self.used_patterns]. *)
Definition _inject_tail_tricks (cfg : PipelineConfig) (recalled_patterns : list Recalled)
    (used_patterns : gset string) : list text * gset string :=
  match tail_select cfg recalled_patterns used_patterns with
  | None =>
      (["引入对比学习负采样优化策略"; "设计多尺度特征融合机制"; "添加自适应动态权重分配"]%string,
       used_patterns)
  | Some (pid, pinfo, _) => (tail_instructions pinfo, {[pid]} ∪ used_patterns)
  end.

(** The candidate that [_inject_head_tricks] selects, if any. *)
Definition head_select (cfg : PipelineConfig) (recalled_patterns : list Recalled)
    (used_patterns : gset string) : option Candidate :=
  let unused_desc (l : list Recalled) : list Candidate :=
    sort_desc snd (filter (λ c : Candidate, c.1.1 ∉ used_patterns) (as_candidate 0 <$> l)) in
  let candidates :=
    filter (λ c : Candidate,
              (c.1.1 ∉ used_patterns) ∧ (HEAD_INJECTION_CLUSTER_THRESHOLD cfg < c.2)%Z)
           (as_candidate 0 <$> rank_window (HEAD_INJECTION_RANK_RANGE cfg) recalled_patterns) in
  let candidates :=
    match candidates with
    | [] => unused_desc (slice 0 3 recalled_patterns)
    | _ :: _ => candidates
    end in
  let candidates :=
    match candidates with
    | [] => unused_desc (slice 3 6 recalled_patterns)
    | _ :: _ => candidates
    end in
  head candidates.

Definition STABILITY_KEYWORDS : list text :=
  ["稳定"; "鲁棒"; "一致"; "对抗"; "正则"; "混合"]%string.

Definition head_instructions (pinfo : PatternInfo) : list text :=
  let tricks := tech_tricks pinfo in
  let keyed :=
    take 2 (omap (λ ex,
                    let method_story := ex_method_story ex in
                    if truthy method_story
                       && bool_decide (Exists (λ kw, contains kw (lower method_story) = true)
                                              STABILITY_KEYWORDS)
                    then Some (str_take 150 method_story) else None)
                 (take 3 (skeleton_examples pinfo))) in
  let stability_methods :=
    match keyed with
    | [] => omap (λ ex, if truthy (ex_method_story ex)
                        then Some (str_take 150 (ex_method_story ex)) else None)
                 (take 2 (skeleton_examples pinfo))
    | _ :: _ => keyed
    end in
  let injection_instructions :=
    ((λ method, "【稳定性方法论】参考 " +:+ pattern_name pinfo +:+ " 的鲁棒性设计：" +:+ method)
       <$> take 1 stability_methods)
    ++ (match tricks with
        | [] => []
        | _ :: _ => ["【稳定性技术】融合 " +:+ pattern_name pinfo +:+ " 的成熟技术："
                     +:+ join " + " tricks]
        end) in
  match injection_instructions with
  | [] => ["融合 " +:+ pattern_name pinfo +:+ " 的成熟方法，增强技术稳定性"]
  | _ :: _ => injection_instructions
  end.

Definition _inject_head_tricks (cfg : PipelineConfig) (recalled_patterns : list Recalled)
    (used_patterns : gset string) : list text * gset string :=
  match head_select cfg recalled_patterns used_patterns with
  | None => ([], used_patterns)
  | Some (pid, pinfo, _) => (head_instructions pinfo, {[pid]} ∪ used_patterns)
  end.

Definition _inject_explanation_tricks : list text :=
  ["增加 Attention 权重可视化分析"; "设计代表性样本的 Case Study";
   "添加消融实验说明各组件贡献"]%string.

Definition _inject_domain_tricks : list text :=
  ["增加领域特定的数据预处理步骤"; "设计领域相关的特征提取方法";
   "调整评估指标以适配目标领域"]%string.

(** [RefinementEngine.refine]; the second component is [self.used_patterns]
    after the call. *)
Definition refine (cfg : PipelineConfig) (recalled_patterns : list Recalled)
    (main_issue : string) (used_patterns : gset string) : list text * gset string :=
  if String.eqb main_issue "novelty" then
    _inject_tail_tricks cfg recalled_patterns used_patterns
  else if String.eqb main_issue "stability" then
    _inject_head_tricks cfg recalled_patterns used_patterns
  else if String.eqb main_issue "interpretability" then
    (_inject_explanation_tricks, used_patterns)
  else if String.eqb main_issue "domain_mismatch" then
    (_inject_domain_tricks, used_patterns)
  else ([], used_patterns).

(** The pattern id an injection call selects, if it selects one. *)
Definition injected_pattern (cfg : PipelineConfig) (recalled_patterns : list Recalled)
    (main_issue : string) (used_patterns : gset string) : option string :=
  if String.eqb main_issue "novelty" then
    (λ c : Candidate, c.1.1) <$> tail_select cfg recalled_patterns used_patterns
  else if String.eqb main_issue "stability" then
    (λ c : Candidate, c.1.1) <$> head_select cfg recalled_patterns used_patterns
  else None.

(** *** Stories, reviews and the verification result *)

(** A JSON value found where the code expects text. *)
Inductive FieldValue :=
| FText (s : text)
| FDict (d : dict text)       (* a dictionary of strings *)
| FOther (repr : text) (is_true : bool).
                              (* any other value but [None], with its [str()]
                                 and its truth value *)

(** [bool(v)]. *)
Definition field_truthy (v : FieldValue) : bool :=
  match v with
  | FText t => truthy t
  | FDict d => negb (bool_decide (d = []))
  | FOther _ is_true => is_true
  end.

(** A story dictionary.  A field is [None] when the key is absent; a
    key that is present holds Python's [None] (the inner [None], which
    the merge of [generate] stores for a key its previous story lacks)
    or a value.  [innovation_claims] holds a list whenever it is
    present, as it does in every story [generate] returns.
    [extra_keys] are the keys the pipeline never reads. *)
Record Story := {
  story_title : option (option text);
  story_abstract : option (option text);
  problem_definition : option (option text);
  method_skeleton : option (option FieldValue);
  innovation_claims : option (list text);
  experiments_plan : option (option text);
  extra_keys : list string;
}.

(** [d.get(key)]: Python's [None] for an absent key. *)
Definition get_or_none {A} (entry : option (option A)) : option A :=
  match entry with Some v => v | None => None end.

(** [key in d] for a field of a record standing for a dictionary. *)
Definition has_key {A} (o : option A) : bool :=
  match o with Some _ => true | None => false end.

(** [bool(story)]: a dictionary is true when it has a key. *)
Definition story_truthy (s : Story) : bool :=
  has_key (story_title s) || has_key (story_abstract s)
  || has_key (problem_definition s) || has_key (method_skeleton s)
  || has_key (innovation_claims s) || has_key (experiments_plan s)
  || negb (bool_decide (extra_keys s = [])).

Record Reviewer := { reviewer_name : text; reviewer_role : text; focus : text }.

(** [MultiAgentCritic.__init__]. *)
Definition REVIEWERS : list Reviewer :=
  [ {| reviewer_name := "Reviewer A"; reviewer_role := "Methodology"; focus := "技术合理性" |};
    {| reviewer_name := "Reviewer B"; reviewer_role := "Novelty"; focus := "创新性" |};
    {| reviewer_name := "Reviewer C"; reviewer_role := "Storyteller"; focus := "叙事完整性" |} ].

Record Review := { reviewer : text; role : text; score : Qc; feedback : text }.

Record CriticResult := {
  pass : bool;
  avg_score : Qc;
  reviews : list Review;
  main_issue : string;
  suggestions : list text;
}.

Record SimilarPaper := {
  sp_paper_id : string;
  sp_title : text;
  similarity : Qc;
  sp_method : text;
}.

Record VerificationResult := {
  verification_pass : bool;
  collision_detected : bool;
  similar_papers : list SimilarPaper;
  max_similarity : Qc;
}.

(** *** Phase 3: the deterministic part of [MultiAgentCritic] *)

(** [_diagnose_issue]; [None] stands for the exception [min] and
    indexing raise on an empty list. *)
Definition _diagnose_issue (reviews : list Review) (scores : list Qc)
    : option (string * list text) :=
  match scores with
  | [] => None
  | s :: rest =>
      min_idx ← index_of (min_list s rest) scores;
      worst_review ← reviews !! min_idx;
      Some (if String.eqb (role worst_review) "Novelty" then
              ("novelty", ["注入冷门 Trick 提升新颖性"; "寻找长尾 Pattern"])
            else if String.eqb (role worst_review) "Methodology" then
              ("stability", ["注入成熟稳健的 Trick"; "增加鲁棒性验证"])
            else if String.eqb (role worst_review) "Storyteller" then
              ("interpretability", ["增加可视化分析"; "补充 Case Study"])
            else
              ("domain_mismatch", ["调整领域适配方法"; "增加预处理步骤"]))%string
  end.

(** The part of [review] after the three reviews are in. *)
Definition assemble_review (cfg : PipelineConfig) (reviews : list Review)
    : option CriticResult :=
  let scores := score <$> reviews in
  let avg_score := sum scores / Qc_of_Z (Z.of_nat (length scores)) in
  let passed := bool_decide (PASS_SCORE cfg ≤ avg_score) in
  diagnosis ← _diagnose_issue reviews scores;
  Some {| pass := passed; avg_score := avg_score; reviews := reviews;
          main_issue := diagnosis.1; suggestions := diagnosis.2 |}.

(** *** Phase 4: [RAGVerifier] *)

(** [RAGVerifier._compute_similarity]: the token Jaccard of
    [recall_system.py], repeated verbatim in the pipeline. *)
Definition _compute_similarity (text1 text2 : text) : Qc :=
  let tokens1 := token_set text1 in
  let tokens2 := token_set text2 in
  if bool_decide (tokens1 = ∅) || bool_decide (tokens2 = ∅) then 0
  else ratio (size (tokens1 ∩ tokens2)) (size (tokens1 ∪ tokens2)).

(** The text [verify] compares: [story.get('method_skeleton', '')],
    flattened when it is not a string. *)
Definition skeleton_text (story : Story) : text :=
  match method_skeleton story with
  | None => ""
  | Some None => "None"
  | Some (Some (FText t)) => t
  | Some (Some (FDict d)) => join " " (filter (λ v, truthy v = true) d.*2)
  | Some (Some (FOther repr _)) => repr
  end.

(** One step of the loop over [self.papers[:50]]. *)
Definition verify_step (method : text) (acc : list SimilarPaper * Qc) (paper : Paper)
    : list SimilarPaper * Qc :=
  let paper_method := method_story paper in
  if negb (truthy paper_method) then acc
  else
    let sim := _compute_similarity method paper_method in
    if bool_decide (Q2Qc (3 # 10) < sim) then
      (acc.1 ++ [ {| sp_paper_id := paper_id paper; sp_title := title paper;
                     similarity := sim; sp_method := str_take 100 paper_method |} ],
       max2 acc.2 sim)
    else acc.

Definition verify_scan (method : text) (papers : list Paper) : list SimilarPaper * Qc :=
  foldl (verify_step method) ([], 0) (take 50 papers).

Definition verify (cfg : PipelineConfig) (papers : list Paper) (story : Story)
    : VerificationResult :=
  let scan := verify_scan (skeleton_text story) papers in
  let top_similar := take 3 (sort_descQ similarity scan.1) in
  let collision := bool_decide (COLLISION_THRESHOLD cfg < scan.2) in
  {| verification_pass := negb collision;
     collision_detected := collision;
     similar_papers := top_similar;
     max_similarity := scan.2 |}.

Definition generate_pivot_constraints (similar : list SimilarPaper) : list text :=
  match similar with
  | [] => []
  | most_similar :: _ =>
      ["禁止使用与《" +:+ sp_title most_similar +:+ "》相同的核心技术";
       "将应用场景迁移到新领域（如法律、金融、医疗等）";
       "增加额外的约束条件（如无监督、少样本等设定）"]%string
  end.

End Pipeline.

(** ** [Idea2StoryPipeline]: generation, critique and the refinement loop *)

Module Orchestrator.
Import Py Graph Recall Pipeline.

(** The two prompts [StoryGenerator.generate] can build. *)
Inductive GenMode :=
| FreshGeneration            (* [_build_generation_prompt] *)
| IncrementalRefinement.     (* [_build_refinement_prompt], the editor mode *)

(** The arguments of one [generate] call. *)
Record GenRequest := {
  g_pattern_id : string;
  g_pattern_info : PatternInfo;
  g_constraints : option (list text);
  g_injected_tricks : list text;
  previous_story : option Story;
  review_feedback : option CriticResult;
  new_tricks_only : option (list text);
}.

(** [if previous_story and review_feedback]: a critic result always has
    its five keys, so it is true whenever it is given. *)
Definition generation_mode (req : GenRequest) : GenMode :=
  match previous_story req, review_feedback req with
  | Some s, Some _ => if story_truthy s then IncrementalRefinement else FreshGeneration
  | _, _ => FreshGeneration
  end.

(** What the pipeline does that an observer can see: the calls to the
    collaborators and the two messages of interest on standard output. *)
Inductive Event :=
| CallGenerate (mode : GenMode) (req : GenRequest)
| CallCritic (story : Story)
| CallRefine (main_issue : string)
| CallVerify (story : Story)
| PrintPatternSwitch (pattern_id : string)
| PrintBudgetExhausted.

Definition is_critic_call (e : Event) : bool :=
  match e with CallCritic _ => true | _ => false end.

Definition is_fresh_generation (e : Event) : bool :=
  match e with CallGenerate FreshGeneration _ => true | _ => false end.

(** One entry of [refinement_history]. *)
Record RefinementRecord := {
  iteration : nat;
  issue : string;
  injected : list text;
}.

(** The values stored in the dictionary [run] returns. *)
Inductive Value :=
| VBool (b : bool)
| VInt (n : nat)
| VStory (s : Story)
| VSelected (d : dict string)
| VReviews (l : list CriticResult)
| VRefinements (l : list RefinementRecord)
| VVerification (v : VerificationResult).

(** The local variables of [run] that the loop updates. *)
Record LoopState := {
  iterations : nat;
  cur_pattern : string * PatternInfo;
  injected_tricks : list text;
  review_history : list CriticResult;
  refinement_history : list RefinementRecord;
  current_story : Story;
}.

(** [next((r['score'] for r in reviews if r['role'] == 'Novelty'), 0)]. *)
Definition novelty_score (rs : list Review) : Qc :=
  default 0 (score <$> head (filter (λ r, role r = "Novelty"%string) rs)).

(** The stall test of the loop, for the critic result just appended to
    [review_history]. *)
Definition stalled (iterations : nat) (review_history : list CriticResult)
    (critic_result : CriticResult) : bool :=
  let curr_novelty_score := novelty_score (reviews critic_result) in
  let prev_novelty_score :=
    if bool_decide (2 ≤ length review_history)%nat
    then from_option (λ r, novelty_score (reviews r)) 0
           (review_history !! (length review_history - 2)%nat)
    else 0 in
  bool_decide (2 ≤ iterations)%nat
  && bool_decide (curr_novelty_score ≤ prev_novelty_score + Q2Qc (1 # 2)).

(** [all_unused], sorted by cluster size, and its first element. *)
Definition least_clustered_unused (recalled_patterns : list Recalled)
    (used_patterns : gset string) : option (string * PatternInfo) :=
  head (sort_asc (λ x : string * PatternInfo, cluster_size_or 999 x.2)
          ((λ r : Recalled, (r.1.1, r.1.2))
             <$> filter (λ r : Recalled, r.1.1 ∉ used_patterns) recalled_patterns)).

(** The accumulation of the new tricks, without duplicates. *)
Definition accumulate (injected_tricks new_tricks : list text) : list text :=
  foldl (λ acc trick, if bool_decide (trick ∈ acc) then acc else acc ++ [trick])
        injected_tricks new_tricks.

(** The heuristic of the loop that decides between regeneration and
    incremental edit, evaluated after the accumulation. *)
Definition is_pattern_switch (iterations : nat) (main_issue : string)
    (injected_tricks new_tricks : list text) : bool :=
  bool_decide (2 ≤ iterations)%nat && String.eqb main_issue "novelty"
  && (bool_decide (injected_tricks = []) && negb (bool_decide (new_tricks = []))).

(** [story[key] = previous_story.get(key)] for a key whose value in
    [story] is false: absent, [None] or empty. *)
Definition restore {A} (is_true : A → bool) (current previous : option (option A))
    : option (option A) :=
  match current with
  | Some (Some v) => if is_true v then current else Some (get_or_none previous)
  | _ => Some (get_or_none previous)
  end.

(** The claims the merge takes for placeholders of the answer format. *)
Definition PLACEHOLDER_CLAIMS : list text :=
  ["novelty"; "specific_contributions"; "innovative_points"]%string.

(** The two steps of the merge on [innovation_claims]: the loop over
    the keys, then the check that restores
    [previous_story.get('innovation_claims', [])]. *)
Definition restore_claims (current previous : option (list text)) : option (list text) :=
  let after_loop :=
    match current with
    | Some (claim :: claims) => Some (claim :: claims)
    | _ => previous
    end in
  match after_loop with
  | Some (claim :: claims) =>
      if existsb (λ c, bool_decide (c ∈ PLACEHOLDER_CLAIMS)) (claim :: claims)
      then Some (default [] previous) else Some (claim :: claims)
  | _ => Some (default [] previous)
  end.

(** The merge of [generate] in the editor mode: the fields of the new
    story that are false are taken from the previous story, a
    [method_skeleton] that is a dictionary is flattened, and unusable
    [innovation_claims] are restored. *)
Definition merge_story (previous_story story : Story) : Story :=
  {| story_title := restore truthy (story_title story) (story_title previous_story);
     story_abstract := restore truthy (story_abstract story) (story_abstract previous_story);
     problem_definition :=
       restore truthy (problem_definition story) (problem_definition previous_story);
     method_skeleton :=
       match restore field_truthy (method_skeleton story) (method_skeleton previous_story) with
       | Some (Some (FDict d)) =>
           Some (Some (FText (join "；" (filter (λ v, truthy v = true) d.*2))))
       | merged => merged
       end;
     innovation_claims :=
       restore_claims (innovation_claims story) (innovation_claims previous_story);
     experiments_plan :=
       restore truthy (experiments_plan story) (experiments_plan previous_story);
     extra_keys := extra_keys story |}.

Section WithOracle.

(** The language model: an oracle over a world state.  [llm_story]
    stands for prompt construction, [call_llm] and
    [_parse_story_response]; [llm_review] for the prompt, [call_llm] and
    the score and feedback extraction of [_single_review]. *)
Context {W : Type}.
Variable llm_story : GenMode → GenRequest → W → Story * W.
Variable llm_review : Story → Reviewer → W → (Qc * text) * W.

(** The mutable state of a session. *)
Record Session := {
  world : W;
  trace : list Event;
  used_patterns : gset string;      (* [self.refinement_engine.used_patterns] *)
}.

(** State and exceptions: [None] is a raised exception. *)
Definition M (A : Type) : Type := Session → option A * Session.

Definition ret {A} (x : A) : M A := λ st, (Some x, st).

Definition bind {A B} (m : M A) (k : A → M B) : M B :=
  λ st, match m st with
        | (Some x, st') => k x st'
        | (None, st') => (None, st')
        end.

Definition lift {A} (o : option A) : M A := λ st, (o, st).

Definition emit (e : Event) : M unit :=
  λ st, (Some tt, {| world := world st; trace := trace st ++ [e];
                     used_patterns := used_patterns st |}).

Definition get_used : M (gset string) := λ st, (Some (used_patterns st), st).

Definition ask {A} (f : W → A * W) : M A :=
  λ st, let '(x, w) := f (world st) in
        (Some x, {| world := w; trace := trace st; used_patterns := used_patterns st |}).

Notation "'do' x <- m ; k" := (bind m (λ x, k))
  (at level 10, x pattern, m at level 100, k at level 200).

(** [StoryGenerator.generate]: the parsed answer, merged with the
    previous story when there is one. *)
Definition generate (req : GenRequest) : M Story :=
  let mode := generation_mode req in
  do _ <- emit (CallGenerate mode req);
  do story <- ask (llm_story mode req);
  ret (match previous_story req with
       | Some previous => if story_truthy previous then merge_story previous story else story
       | None => story
       end).

(** [MultiAgentCritic._single_review]. *)
Definition _single_review (story : Story) (r : Reviewer) : M Review :=
  do sf <- ask (llm_review story r);
  ret {| reviewer := reviewer_name r; role := reviewer_role r;
         score := sf.1; feedback := sf.2 |}.

(** The loop of [review] over the reviewers. *)
Fixpoint collect_reviews (story : Story) (rs : list Reviewer) : M (list Review) :=
  match rs with
  | [] => ret []
  | r :: rs' =>
      do review_result <- _single_review story r;
      do rest <- collect_reviews story rs';
      ret (review_result :: rest)
  end.

(** [MultiAgentCritic.review]. *)
Definition review (cfg : PipelineConfig) (story : Story) : M CriticResult :=
  do _ <- emit (CallCritic story);
  do reviews <- collect_reviews story REVIEWERS;
  lift (assemble_review cfg reviews).

(** [self.refinement_engine.refine(main_issue, suggestions)]. *)
Definition engine_refine (cfg : PipelineConfig) (recalled_patterns : list Recalled)
    (main_issue : string) : M (list text) :=
  do _ <- emit (CallRefine main_issue);
  λ st, let '(tricks, used) := refine cfg recalled_patterns main_issue (used_patterns st) in
        (Some tricks, {| world := world st; trace := trace st; used_patterns := used |}).

(** The stall check of the loop: the pattern and the trick list after it. *)
Definition stall_check (recalled_patterns : list Recalled) (iterations : nat)
    (review_history : list CriticResult) (critic_result : CriticResult)
    (cur : string * PatternInfo) (injected_tricks : list text)
    : M ((string * PatternInfo) * list text) :=
  if bool_decide (1 ≤ iterations)%nat && String.eqb (main_issue critic_result) "novelty"
     && stalled iterations review_history critic_result
  then
    do used <- get_used;
    match least_clustered_unused recalled_patterns used with
    | Some alt_pattern =>
        do _ <- emit (PrintPatternSwitch alt_pattern.1);
        ret (alt_pattern, [])
    | None => ret (cur, injected_tricks)
    end
  else ret (cur, injected_tricks).

(** The [while iterations < MAX_REFINE_ITERATIONS] loop.  [remaining]
    is [MAX_REFINE_ITERATIONS - iterations]: the loop is entered with
    [iterations = 0] and adds one per round. *)
Fixpoint refine_loop (cfg : PipelineConfig) (recalled_patterns : list Recalled)
    (remaining : nat) (ls : LoopState) : M LoopState :=
  match remaining with
  | O => ret ls
  | S remaining' =>
      let iterations := S (iterations ls) in
      do critic_result <- review cfg (current_story ls);
      let review_history := review_history ls ++ [critic_result] in
      if pass critic_result then
        ret {| iterations := iterations; cur_pattern := cur_pattern ls;
               injected_tricks := injected_tricks ls;
               review_history := review_history;
               refinement_history := refinement_history ls;
               current_story := current_story ls |}
      else
        let main_issue := main_issue critic_result in
        do switched <- stall_check recalled_patterns iterations review_history
                         critic_result (cur_pattern ls) (injected_tricks ls);
        let '(pattern, injected_tricks) := switched in
        do new_tricks <- engine_refine cfg recalled_patterns main_issue;
        let injected_tricks := accumulate injected_tricks new_tricks in
        let refinement_history :=
          refinement_history ls
          ++ [ {| iteration := iterations; issue := main_issue; injected := new_tricks |} ] in
        do story <-
          (if is_pattern_switch iterations main_issue injected_tricks new_tricks then
             generate {| g_pattern_id := pattern.1; g_pattern_info := pattern.2;
                         g_constraints := None; g_injected_tricks := injected_tricks;
                         previous_story := None; review_feedback := None;
                         new_tricks_only := None |}
           else
             generate {| g_pattern_id := pattern.1; g_pattern_info := pattern.2;
                         g_constraints := None; g_injected_tricks := injected_tricks;
                         previous_story := Some (current_story ls);
                         review_feedback := Some critic_result;
                         new_tricks_only := Some new_tricks |});
        refine_loop cfg recalled_patterns remaining'
          {| iterations := iterations; cur_pattern := pattern;
             injected_tricks := injected_tricks;
             review_history := review_history;
             refinement_history := refinement_history;
             current_story := story |}
  end.

(** The test after the loop; [review_history[-1]] raises on an empty
    history, which the [and] reaches only when the budget is [0]. *)
Definition budget_check (cfg : PipelineConfig) (ls : LoopState) : M unit :=
  if bool_decide (MAX_REFINE_ITERATIONS cfg ≤ iterations ls)%nat then
    do last_review <- lift (last (review_history ls));
    if negb (pass last_review) then emit PrintBudgetExhausted else ret tt
  else ret tt.

Definition run_verify (cfg : PipelineConfig) (papers : list Paper) (story : Story)
    : M VerificationResult :=
  do _ <- emit (CallVerify story);
  ret (verify cfg papers story).

(** Phase 4 of [run]: verification and the single pivot. *)
Definition verify_and_pivot (cfg : PipelineConfig) (papers : list Paper)
    (selected_patterns : dict (string * PatternInfo)) (ls : LoopState)
    : M (Story * VerificationResult) :=
  do verification_result <- run_verify cfg papers (current_story ls);
  if collision_detected verification_result then
    let constraints := generate_pivot_constraints (similar_papers verification_result) in
    let pattern :=
      match dict_get "innovative" selected_patterns with
      | Some p => p
      | None => default (cur_pattern ls) (dict_get "cross_domain" selected_patterns)
      end in
    do story <- generate {| g_pattern_id := pattern.1; g_pattern_info := pattern.2;
                            g_constraints := Some constraints;
                            g_injected_tricks := injected_tricks ls;
                            previous_story := None; review_feedback := None;
                            new_tricks_only := None |};
    do verification_result <- run_verify cfg papers story;
    ret (story, verification_result)
  else ret (current_story ls, verification_result).

(** The closing report of [run] prints
    [current_story.get('abstract', '')[:100]]: an abstract that is
    [None] cannot be sliced, and the [TypeError] leaves [run] without a
    result. *)
Definition final_report (story : Story) : M unit :=
  match story_abstract story with
  | Some None => lift None
  | _ => ret tt
  end.

(** [Idea2StoryPipeline.run]. *)
Definition run (cfg : PipelineConfig) (recalled_patterns : list Recalled)
    (papers : list Paper) : M (dict Value) :=
  let selected_patterns := select cfg recalled_patterns in
  match selected_patterns with
  | [] => ret [("success"%string, VBool false)]
  | first :: _ =>
      let pattern_type :=
        if has_key (dict_get "conservative" selected_patterns)
        then "conservative"%string else first.1 in
      do pattern <- lift (dict_get pattern_type selected_patterns);
      do story <- generate {| g_pattern_id := pattern.1; g_pattern_info := pattern.2;
                              g_constraints := None; g_injected_tricks := [];
                              previous_story := None; review_feedback := None;
                              new_tricks_only := None |};
      do ls <- refine_loop cfg recalled_patterns (MAX_REFINE_ITERATIONS cfg)
                 {| iterations := 0; cur_pattern := pattern; injected_tricks := [];
                    review_history := []; refinement_history := [];
                    current_story := story |};
      do _ <- budget_check cfg ls;
      do final <- verify_and_pivot cfg papers selected_patterns ls;
      do _ <- final_report final.1;
      ret [("success", VBool (verification_pass final.2));
           ("final_story", VStory final.1);
           ("iterations", VInt (iterations ls));
           ("selected_patterns", VSelected ((λ kv, (kv.1, kv.2.1)) <$> selected_patterns));
           ("review_history", VReviews (review_history ls));
           ("refinement_history", VRefinements (refinement_history ls));
           ("verification_result", VVerification final.2)]%string
  end.

End WithOracle.

Arguments Session : clear implicits.
Arguments M : clear implicits.

(** The session [Idea2StoryPipeline.__init__] starts from. *)
Definition new_session {W} (w : W) : Session W :=
  {| world := w; trace := []; used_patterns := ∅ |}.

(** The number of critic invocations recorded in a trace. *)
Definition critic_calls (tr : list Event) : nat :=
  length (filter (λ e, is_critic_call e = true) tr).

End Orchestrator.

(** ** Specification-level definitions

    The quantities the specification speaks about, written after its
    words; the theorems below compare them with the code's results. *)

Module Spec.
Import Py Graph Recall Pipeline Orchestrator.

(** The contributions Path 1 is specified to make: for each kept Idea,
    each of its source papers present in the graph and each
    [uses_pattern] edge of that paper, the pattern with
    (idea similarity x the quality carried on the edge). *)
Definition path1_contributions (sys : RecallSystem) (kept : list (string * Qc))
    : list (string * Qc) :=
  entry ← kept;
  idea ← option_list (idea_id_to_idea sys !! entry.1);
  pid ← source_paper_ids idea;
  se ← (if has_node (G sys) pid then successors (G sys) pid else []);
  if bool_decide (relation se.2 = Some "uses_pattern"%string)
  then [(se.1, entry.2 * default (Q2Qc (1 # 2)) (quality se.2))]
  else [].

(** The score a list of contributions gives a pattern: nothing when no
    contribution names it, their sum otherwise. *)
Definition contribution_score (contribs : list (string * Qc)) (p : string) : option Qc :=
  match filter (λ c, c.1 = p) contribs with
  | [] => None
  | cs => Some (sum cs.*2)
  end.

(** Path 1 as specified, for a similarity function [sim]. *)
Definition path1_spec (sim : text → text → Qc) (cfg : RecallConfig) (sys : RecallSystem)
    (user_idea : text) (p : string) : option Qc :=
  contribution_score
    (path1_contributions sys (top_ideas (PATH1_TOP_K_IDEAS cfg) sim (ideas sys) user_idea)) p.

(** What the demo's Path 1 credits instead: each pattern id stored on
    a kept Idea, with the idea similarity alone. *)
Definition demo_contributions (ideas : list Idea) (kept : list (string * Qc))
    : list (string * Qc) :=
  entry ← kept;
  idea ← option_list (index_by idea_id ideas !! entry.1);
  pid ← idea_pattern_ids idea;
  [(pid, entry.2)].

(** The Domain ids the domain names of a source paper resolve to, in
    order and with repetitions; none for a paper id that is not in the
    index. *)
Definition resolved_ids (b : BuildEdges.EdgeBuilder) (pid : string) : list string :=
  match BuildEdges.paper_id_to_paper b !! pid with
  | None => []
  | Some p =>
      omap (λ domain_name,
              match BuildEdges.domain_name_to_id b !! domain_name with
              | Some did => if truthy did then Some did else None
              | None => None
              end)
           (domains p)
  end.

(** The paper-domain incidences of an Idea's source papers. *)
Definition incidences (b : BuildEdges.EdgeBuilder) (ids : list string) : nat :=
  length (ids ≫= resolved_ids b).

(** The similarities of the draft method with the papers [verify]
    samples: the first 50, those with a method narrative. *)
Definition sampled_similarities (method : text) (papers : list Paper) : list Qc :=
  (λ p, _compute_similarity method (method_story p))
    <$> filter (λ p, truthy (method_story p) = true) (take 50 papers).

(** The entry [verify] records for a paper. *)
Definition record_of (method : text) (p : Paper) : SimilarPaper :=
  {| sp_paper_id := paper_id p; sp_title := title p;
     similarity := _compute_similarity method (method_story p);
     sp_method := str_take 100 (method_story p) |}.

(** The sampled papers whose similarity strictly exceeds 0.3, as recorded
    entries, in corpus order. *)
Definition recorded (method : text) (papers : list Paper) : list SimilarPaper :=
  record_of method
    <$> filter (λ p, truthy (method_story p) = true
                     ∧ Q2Qc (3 # 10) < _compute_similarity method (method_story p))
               (take 50 papers).

(** The maximum of a list of similarities, from [0.0]. *)
Definition max_from_zero (l : list Qc) : Qc := foldl max2 0 l.

(** A session of the refinement engine: the calls [refine(issue)] made
    in order from the exclusion set [used]; the result is the list of
    pattern ids chosen for injection, in order, and the final set. *)
Fixpoint injection_session (cfg : PipelineConfig) (recalled_patterns : list Recalled)
    (issues : list string) (used : gset string) : list string * gset string :=
  match issues with
  | [] => ([], used)
  | main_issue :: rest =>
      let chosen := injected_pattern cfg recalled_patterns main_issue used in
      let used' := (refine cfg recalled_patterns main_issue used).2 in
      let out := injection_session cfg recalled_patterns rest used' in
      (option_list chosen ++ out.1, out.2)
  end.

(** *** Observations on a session computation *)

(** [m] only appends to the trace, and what it appends satisfies [Q]. *)
Definition emits {W A} (m : M W A) (Q : list Event → Prop) : Prop :=
  ∀ st, ∃ tr, trace (m st).2 = trace st ++ tr ∧ Q tr.

(** Every value [m] returns satisfies [R]. *)
Definition returns {W A} (m : M W A) (R : A → Prop) : Prop :=
  ∀ st x, (m st).1 = Some x → R x.

(** [m] raises no exception. *)
Definition succeeds {W A} (m : M W A) : Prop :=
  ∀ st, is_Some (m st).1.



(** At most [n] critic invocations. *)
Definition calls_at_most (n : nat) (tr : list Event) : Prop :=
  (critic_calls tr ≤ n)%nat.


(** An event without the stories it carries: for a generation request
    the prompt mode, the pattern and whether the call has the editor
    form. *)
Inductive EventKind :=
| KGenerate (mode : GenMode) (pattern_id : string) (editor : bool)
| KCritic
| KRefine (main_issue : string)
| KVerify
| KSwitch (pattern_id : string)
| KBudgetExhausted.

Definition kind_of (e : Event) : EventKind :=
  match e with
  | CallGenerate mode req =>
      KGenerate mode (g_pattern_id req)
                (has_key (previous_story req) && has_key (review_feedback req))
  | CallCritic _ => KCritic
  | CallRefine main_issue => KRefine main_issue
  | CallVerify _ => KVerify
  | PrintPatternSwitch pid => KSwitch pid
  | PrintBudgetExhausted => KBudgetExhausted
  end.


Definition result_iterations (d : dict Value) : option nat :=
  match dict_get "iterations" d with Some (VInt n) => Some n | _ => None end.





End Spec.

(** ** Concrete inputs

    Small graphs, candidate lists and scripted oracles on which the
    definitions above are evaluated. *)

Module Examples.
Import Py Graph Recall Pipeline Orchestrator.
Open Scope string_scope.

(** One Idea "graph neural network" realised by one paper that uses
    [pattern_1] with quality 0.8; the Idea node also lists [pattern_2]. *)
Definition gnn_idea : Idea :=
  {| idea_id := "idea_0"; description := "graph neural network";
     source_paper_ids := ["paper_0"]; idea_pattern_ids := ["pattern_1"; "pattern_2"] |}.

Definition uses_pattern_edge (q : Qc) : EdgeData :=
  {| relation := Some "uses_pattern"; quality := Some q; weight := None;
     paper_count := None; total_papers := None; effectiveness := None;
     confidence := None |}.

Definition gnn_graph : DiGraph :=
  add_edge "paper_0" "pattern_1" (uses_pattern_edge (Q2Qc (4 # 5))) empty_graph.

Definition gnn_sys : RecallSystem :=
  {| ideas := [gnn_idea]; patterns := []; G := gnn_graph |}.

Definition gnn_query : text := "graph neural network for text".

(** An Idea whose single source paper lies in two Domains. *)
Definition two_domain_paper : Paper :=
  {| paper_id := "paper_0"; title := "A paper"; domains := ["NLP"; "Machine Learning"];
     paper_pattern_ids := []; core_idea := ""; abstract := ""; ratings := [];
     method_story := "" |}.

Definition two_domain_builder : BuildEdges.EdgeBuilder :=
  {| BuildEdges.ideas := [gnn_idea];
     BuildEdges.papers := [two_domain_paper];
     BuildEdges.domain_list :=
       [ {| domain_id := "domain_0"; name := "NLP" |};
         {| domain_id := "domain_1"; name := "Machine Learning" |} ] |}.

(** The same Idea when its paper lies in one Domain only. *)
Definition one_domain_builder : BuildEdges.EdgeBuilder :=
  {| BuildEdges.ideas := [gnn_idea];
     BuildEdges.papers := [two_domain_paper];
     BuildEdges.domain_list := [ {| domain_id := "domain_0"; name := "NLP" |} ] |}.

(** The same Idea when its paper names one Domain twice. *)
Definition repeated_domain_builder : BuildEdges.EdgeBuilder :=
  {| BuildEdges.ideas := [gnn_idea];
     BuildEdges.papers :=
       [ {| paper_id := "paper_0"; title := "A paper"; domains := ["NLP"; "NLP"];
            paper_pattern_ids := []; core_idea := ""; abstract := ""; ratings := [];
            method_story := "" |} ];
     BuildEdges.domain_list := [ {| domain_id := "domain_0"; name := "NLP" |} ] |}.

(** An Idea with three source papers, each in a Domain of its own. *)
Definition three_paper_idea : Idea :=
  {| idea_id := "idea_1"; description := "contrastive learning";
     source_paper_ids := ["paper_a"; "paper_b"; "paper_c"]; idea_pattern_ids := [] |}.

Definition paper_in (pid : string) (domain : text) : Paper :=
  {| paper_id := pid; title := "A paper"; domains := [domain]; paper_pattern_ids := [];
     core_idea := ""; abstract := ""; ratings := []; method_story := "" |}.

Definition three_domain_builder : BuildEdges.EdgeBuilder :=
  {| BuildEdges.ideas := [three_paper_idea];
     BuildEdges.papers :=
       [paper_in "paper_a" "NLP"; paper_in "paper_b" "Vision"; paper_in "paper_c" "Speech"];
     BuildEdges.domain_list :=
       [ {| domain_id := "domain_0"; name := "NLP" |};
         {| domain_id := "domain_1"; name := "Vision" |};
         {| domain_id := "domain_2"; name := "Speech" |} ] |}.

(** A story with the given method description and nothing else. *)
Definition story_with_method (m : text) : Story :=
  {| story_title := Some (Some "A title"); story_abstract := None;
     problem_definition := None; method_skeleton := Some (Some (FText m));
     innovation_claims := None; experiments_plan := None; extra_keys := [] |}.

(** A corpus paper with the given method narrative. *)
Definition paper_with_method (pid : string) (m : text) : Paper :=
  {| paper_id := pid; title := "Paper " +:+ pid; domains := []; paper_pattern_ids := [];
     core_idea := ""; abstract := ""; ratings := []; method_story := m |}.

Definition contrastive_corpus : list Paper :=
  [paper_with_method "paper_0" "contrastive learning"].

(** A paper that shares one token of eight with the draft
    "alpha beta gamma delta epsilon". *)
Definition low_overlap_corpus : list Paper :=
  [paper_with_method "paper_0" "alpha zeta eta theta"].

(** The oracle of a scripted session: the world counts the calls made;
    every generation returns [story] and every reviewer answers with the
    score [scores] gives its role. *)
Definition scripted_story (story : Story) (mode : GenMode) (req : GenRequest) (w : nat)
    : Story * nat :=
  (story, S w).

Definition scripted_review (scores : string → Qc) (story : Story) (r : Reviewer) (w : nat)
    : (Qc * text) * nat :=
  ((scores (reviewer_role r), "feedback"), S w).

(** The scenario scores: Methodology 8.0, Novelty 4.0, Storyteller 9.0. *)
Definition scores_8_4_9 (role : string) : Qc :=
  if String.eqb role "Methodology" then Qc_of_Z 8
  else if String.eqb role "Novelty" then Qc_of_Z 4
  else Qc_of_Z 9.

(** Reviewers who keep finding the draft not novel: Novelty 4.0, the
    other two 6.0, at every round. *)
Definition scores_novelty_low (role : string) : Qc :=
  if String.eqb role "Novelty" then Qc_of_Z 4 else Qc_of_Z 6.

Definition pattern_info_of (n : text) (size : Z) : PatternInfo :=
  {| pattern_name := n; cluster_size := Some size; summary := "";
     skeleton_examples := [ {| ex_method_story := "robust mixing of views" |} ];
     top_tricks := [ {| trick_name := "curriculum schedule" |};
                     {| trick_name := "Case Study" |} ] |}.

(** Three recalled patterns with cluster sizes 30, 5 and 12. *)
Definition three_patterns : list Recalled :=
  [ ("pattern_1", pattern_info_of "P1" 30, Qc_of_Z 3);
    ("pattern_2", pattern_info_of "P2" 5, Qc_of_Z 2);
    ("pattern_3", pattern_info_of "P3" 12, Qc_of_Z 1) ].

Definition draft : Story := story_with_method "alpha beta".

(** A session in which the critique never passes and the novelty score
    never moves, on an empty corpus.  The answers carry no abstract, so
    the merge of the first edit stores [None] for it. *)
Definition stalled_run : option (dict Value) * Session nat :=
  run (scripted_story draft) (scripted_review scores_novelty_low)
      default_pipeline_config three_patterns [] (new_session 0%nat).

(** A story with its six fields, as the answer format asks for. *)
Definition complete_draft : Story :=
  {| story_title := Some (Some "A title");
     story_abstract := Some (Some "We study alpha and beta.");
     problem_definition := Some (Some "Alpha is slow.");
     method_skeleton := Some (Some (FText "alpha beta"));
     innovation_claims := Some ["a new framework"; "an efficient algorithm"];
     experiments_plan := Some (Some "Compare with the baselines.");
     extra_keys := [] |}.

(** The same stalled session when every answer is a complete story. *)
Definition exhausted_run : option (dict Value) * Session nat :=
  run (scripted_story complete_draft) (scripted_review scores_novelty_low)
      default_pipeline_config three_patterns [] (new_session 0%nat).

(** The same session with a budget of zero rounds. *)
Definition zero_budget_config : PipelineConfig :=
  {| INNOVATIVE_CLUSTER_SIZE_THRESHOLD := 10;
     PASS_SCORE := Qc_of_Z 7;
     MAX_REFINE_ITERATIONS := 0;
     COLLISION_THRESHOLD := Q2Qc (75 # 100);
     TAIL_INJECTION_RANK_RANGE := (4, 9)%nat;
     HEAD_INJECTION_RANK_RANGE := (0, 2)%nat;
     HEAD_INJECTION_CLUSTER_THRESHOLD := 15 |}.

Definition zero_budget_run : option (dict Value) * Session nat :=
  run (scripted_story draft) (scripted_review scores_novelty_low)
      zero_budget_config three_patterns [] (new_session 0%nat).

(** One critique with the scenario scores. *)
Definition boundary_review : option CriticResult * Session nat :=
  review (scripted_review scores_8_4_9) default_pipeline_config draft (new_session 0%nat).

End Examples.

(** ** Further observations on a run *)

Module Observations.
Import Py Graph Recall Pipeline Orchestrator Spec.

(** More readers of the dictionary [run] returns. *)
Definition result_reviews (d : dict Value) : list CriticResult :=
  match dict_get "review_history" d with Some (VReviews l) => l | _ => [] end.

Definition result_refinements (d : dict Value) : list RefinementRecord :=
  match dict_get "refinement_history" d with Some (VRefinements l) => l | _ => [] end.

(** The kinds of call counted in a trace. *)
Definition is_generate_call (e : Event) : bool :=
  match e with CallGenerate _ _ => true | _ => false end.

Definition is_refine_call (e : Event) : bool :=
  match e with CallRefine _ => true | _ => false end.

Definition is_verify_call (e : Event) : bool :=
  match e with CallVerify _ => true | _ => false end.

Definition count (p : Event → bool) (tr : list Event) : nat :=
  length (filter (λ e, p e = true) tr).

(** [m] changes the exclusion set of the refinement engine only within
    [I]: from a set satisfying [I] it leaves one satisfying [I]. *)
Definition maintains {W A} (m : M W A) (I : gset string → Prop) : Prop :=
  ∀ st, I (used_patterns st) → I (used_patterns (m st).2).

End Observations.

(** ** [recall_system.py] and [simple_recall_demo.py]: Path 3 *)

Module RecallPaths.
Import Py Graph Recall.

(** [RecallConfig.PATH3_TOP_K_PAPERS], [TOP_K_PAPERS] in the demo. *)
Definition PATH3_TOP_K_PAPERS : nat := 20.

(** [np.mean(l)] of a non-empty list. *)
Definition mean (l : list Qc) : Qc := sum l / Qc_of_Z (Z.of_nat (length l)).

(** The quality both recall variants derive from the review ratings:
    [(np.mean(scores) - 1) / 9], and [0.5] for a paper without review. *)
Definition rating_quality (paper : Paper) : Qc :=
  match ratings paper with
  | [] => Q2Qc (1 # 2)
  | _ :: _ => (mean (ratings paper) - 1) / Qc_of_Z 9
  end.

(** The text a paper is compared through: [core_idea] in
    [recall_system.py]; the demo falls back to the head of the abstract,
    [core_idea or paper.get('abstract', '')[:100]]. *)
Definition demo_paper_idea (paper : Paper) : text :=
  if truthy (core_idea paper) then core_idea paper else str_take 100 (abstract paper).

(** One entry of [similarities]:
    [(paper_id, sim, quality, combined_weight)]. *)
Definition SimilarEntry : Type := string * Qc * Qc * Qc.

(** Step 1 of Path 3: the loop over the papers. *)
Definition path3_similarities (sim : text → text → Qc) (paper_idea : Paper → text)
    (G : DiGraph) (papers : list Paper) (user_idea : text) : list SimilarEntry :=
  omap (λ paper,
          if negb (truthy (paper_idea paper)) then None
          else
            let sim := sim user_idea (paper_idea paper) in
            if bool_decide (Q2Qc (1 # 10) < sim) && has_node G (paper_id paper) then
              let quality := rating_quality paper in
              let combined_weight := sim * quality in
              Some (paper_id paper, sim, quality, combined_weight)
            else None)
       papers.

(** Step 2: [similarities.sort(key=lambda x: x[3], reverse=True)] and the cut. *)
Definition top_papers (K : nat) (similarities : list SimilarEntry) : list SimilarEntry :=
  take K (sort_descQ (λ x : SimilarEntry, x.2) similarities).

(** Step 3, for one kept paper: the loop over its successors. *)
Definition path3_paper (G : DiGraph) (scores : dict Qc) (entry : SimilarEntry) : dict Qc :=
  let paper_id := entry.1.1.1 in
  let combined_weight := entry.2 in
  if has_node G paper_id then
    foldl (λ scores se,
             if bool_decide (relation se.2 = Some "uses_pattern"%string)
             then dict_add se.1 (combined_weight * default (Q2Qc (1 # 2)) (quality se.2)) scores
             else scores)
          scores (successors G paper_id)
  else scores.

Definition path3 (sim : text → text → Qc) (paper_idea : Paper → text)
    (G : DiGraph) (papers : list Paper) (user_idea : text) : dict Qc :=
  foldl (path3_paper G) []
        (top_papers PATH3_TOP_K_PAPERS (path3_similarities sim paper_idea G papers user_idea)).

(** [RecallSystem._recall_path3_similar_papers], for [self.papers]. *)
Definition _recall_path3_similar_papers (sys : RecallSystem) (papers : list Paper)
    (user_idea : text) : dict Qc :=
  path3 _compute_text_similarity core_idea (G sys) papers user_idea.

(** Path 3 of [simple_recall_demo.py] and of the pipeline's [main]. *)
Definition demo_path3 (G : DiGraph) (papers : list Paper) (user_idea : text) : dict Qc :=
  path3 compute_similarity demo_paper_idea G papers user_idea.

(** The contributions Path 3 is documented to make: for each kept paper
    and each [uses_pattern] edge leaving it, the pattern with
    (paper similarity x paper quality x pattern quality). *)
Definition path3_contributions (G : DiGraph) (kept : list SimilarEntry)
    : list (string * Qc) :=
  entry ← kept;
  se ← (if has_node G entry.1.1.1 then successors G entry.1.1.1 else []);
  if bool_decide (relation se.2 = Some "uses_pattern"%string)
  then [(se.1, entry.1.1.2 * entry.1.2 * default (Q2Qc (1 # 2)) (quality se.2))]
  else [].

End RecallPaths.

(** ** [build_edges.py]: paper quality and the weighted recall edges *)

Module EdgeWeights.
Import Py Graph Recall BuildEdges RecallPaths.

(** [\w] of a [str] pattern on the characters below 256: digits,
    letters, the underscore, and the Latin-1 letters and numerals. *)
Definition is_word_char (c : ascii) : bool :=
  let n := nat_of_ascii c in
  ((48 <=? n)%nat && (n <=? 57)%nat) || ((65 <=? n)%nat && (n <=? 90)%nat)
  || (n =? 95)%nat || ((97 <=? n)%nat && (n <=? 122)%nat)
  || (n =? 170)%nat || (n =? 178)%nat || (n =? 179)%nat || (n =? 181)%nat
  || (n =? 185)%nat || (n =? 186)%nat || ((188 <=? n)%nat && (n <=? 190)%nat)
  || ((192 <=? n)%nat && (n <=? 214)%nat) || ((216 <=? n)%nat && (n <=? 246)%nat)
  || ((248 <=? n)%nat && (n <=? 255)%nat).

(** [re.findall(r'\b\w+\b', s)]: the maximal runs of word characters,
    in order.  [cur] is the run being read, reversed. *)
Fixpoint findall_words_aux (cur : list ascii) (s : text) : list text :=
  let flush := match cur with [] => [] | _ => [string_of_list_ascii (rev cur)] end in
  match s with
  | EmptyString => flush
  | String c s' =>
      if is_word_char c then findall_words_aux (c :: cur) s'
      else flush ++ findall_words_aux [] s'
  end.

Definition findall_words (s : text) : list text := findall_words_aux [] s.

(** The local [tokenize] of [_compute_text_similarity]. *)
Definition tokenize (t : text) : gset string := list_to_set (findall_words (lower t)).

(** [EdgeBuilder._compute_text_similarity]. *)
Definition _compute_text_similarity (text1 text2 : text) : Qc :=
  let tokens1 := tokenize text1 in
  let tokens2 := tokenize text2 in
  if bool_decide (tokens1 = ∅) || bool_decide (tokens2 = ∅) then 0
  else
    let intersection := size (tokens1 ∩ tokens2) in
    let union := size (tokens1 ∪ tokens2) in
    if bool_decide (0 < union)%nat then ratio intersection union else 0.

(** [min(a, b)] on floats. *)
Definition min2 (a b : Qc) : Qc := if bool_decide (b < a) then b else a.

Section WithParser.

(** [float(s)] for the score strings of the reviews: [None] when it
    raises [ValueError].  The parsed value is a finite number. *)
Variable float_of : text → option Qc.

(** [s.strip()] on the characters below 256. *)
Fixpoint lstrip (s : text) : text :=
  match s with
  | EmptyString => EmptyString
  | String c s' => if isspace c then lstrip s' else s
  end.

Definition strip (s : text) : text :=
  string_of_list_ascii (rev (list_ascii_of_string
    (lstrip (string_of_list_ascii (rev (list_ascii_of_string (lstrip s))))))).

(** [s.split('/')[0]]: the text before the first slash. *)
Fixpoint before_slash (s : text) : text :=
  match s with
  | EmptyString => EmptyString
  | String c s' => if Ascii.eqb c "/"%char then EmptyString else String c (before_slash s')
  end.

(** The body of the [try] for one review: the score it appends, if any. *)
Definition parse_score (score_str : text) : option Qc :=
  float_of (strip (if contains "/" score_str then before_slash score_str else score_str)).

(** [EdgeBuilder._get_paper_quality], for the [overall_score] strings
    of the paper's reviews. *)
Definition _get_paper_quality (overall_scores : list text) : Qc :=
  match overall_scores with
  | [] => Q2Qc (1 # 2)
  | _ :: _ =>
      match omap parse_score overall_scores with
      | [] => Q2Qc (1 # 2)
      | scores =>
          let avg_score := mean scores in
          let normalized_score := (avg_score - 1) / Qc_of_Z 9 in
          min2 (max2 normalized_score 0) 1
      end
  end.

End WithParser.

Section WithQuality.

(** The quality [_get_paper_quality] gives each paper. *)
Variable paper_quality : Paper → Qc.

(** *** [_build_pattern_works_well_in_domain_edges] *)

(** One value of [domain_stats]. *)
Record DomainStats := { stat_papers : list string; stat_qualities : list Qc }.

Definition no_stats : DomainStats := {| stat_papers := []; stat_qualities := [] |}.

Definition record_paper (pid : string) (q : Qc) (s : DomainStats) : DomainStats :=
  {| stat_papers := stat_papers s ++ [pid]; stat_qualities := stat_qualities s ++ [q] |}.

(** The loop over the papers that fills [domain_stats] for one pattern. *)
Definition domain_stats (b : EdgeBuilder) (pattern_id : string) : dict DomainStats :=
  foldl (λ stats paper,
           if bool_decide (pattern_id ∈ paper_pattern_ids paper) then
             let quality := paper_quality paper in
             foldl (λ stats domain_name,
                      match domain_name_to_id b !! domain_name with
                      | Some did =>
                          if truthy did
                          then dict_update no_stats (record_paper (paper_id paper) quality)
                                           did stats
                          else stats
                      | None => stats
                      end)
                   stats (domains paper)
           else stats)
        [] (papers b).

(** The attributes of a [works_well_in] edge. *)
Record WorksWellIn := {
  ww_pattern : string;
  ww_domain : string;
  frequency : nat;
  ww_effectiveness : Qc;
  ww_confidence : Qc;
  avg_quality : Qc;
  baseline : Qc;
}.

Definition domain_id_to_domain (b : EdgeBuilder) : gmap string Domain :=
  index_by domain_id (domain_list b).

(** The body of the loop over [domain_stats.items()]: the edge added
    for one Domain, if any. *)
Definition works_well_in_edge (b : EdgeBuilder) (pattern_id : string)
    (entry : string * DomainStats) : option WorksWellIn :=
  let '(did, stats) := entry in
  if bool_decide (stat_papers stats = []) then None
  else
    let avg_quality := mean (stat_qualities stats) in
    match domain_id_to_domain b !! did with
    | None => None
    | Some domain =>
        let domain_papers := filter (λ p, name domain ∈ domains p) (papers b) in
        let domain_baseline :=
          match domain_papers with
          | [] => Q2Qc (7 # 10)
          | _ :: _ => mean (paper_quality <$> domain_papers)
          end in
        let effectiveness := avg_quality - domain_baseline in
        let frequency := length (stat_papers stats) in
        let confidence := min2 (Qc_of_Z (Z.of_nat frequency) / Qc_of_Z 20) 1 in
        Some {| ww_pattern := pattern_id; ww_domain := did; frequency := frequency;
                ww_effectiveness := effectiveness; ww_confidence := confidence;
                avg_quality := avg_quality; baseline := domain_baseline |}
    end.

(** The edges added for one pattern, in order. *)
Definition works_well_in_edges (b : EdgeBuilder) (pattern_id : string) : list WorksWellIn :=
  omap (works_well_in_edge b pattern_id) (domain_stats b pattern_id).

(** *** [_build_idea_similar_to_paper_edges] *)

(** One item of [similarities], which becomes one [similar_to_paper] edge. *)
Record SimilarToPaper := {
  st_idea : string;
  st_paper : string;
  st_similarity : Qc;
  st_quality : Qc;
  combined_weight : Qc;
}.

(** The loop over the papers for one Idea. *)
Definition similar_to_paper_items (b : EdgeBuilder) (idea : Idea) : list SimilarToPaper :=
  omap (λ paper,
          if negb (truthy (core_idea paper)) then None
          else
            let similarity := _compute_text_similarity (description idea) (core_idea paper) in
            if bool_decide (similarity < Q2Qc (1 # 10)) then None
            else
              let quality := paper_quality paper in
              Some {| st_idea := idea_id idea; st_paper := paper_id paper;
                      st_similarity := similarity; st_quality := quality;
                      combined_weight := similarity * quality |})
       (papers b).

(** The edges added for one Idea, in order: none without a
    description, otherwise the [top_k = 50] heaviest items. *)
Definition similar_to_paper_edges (b : EdgeBuilder) (idea : Idea) : list SimilarToPaper :=
  if negb (truthy (description idea)) then []
  else take 50 (sort_descQ combined_weight (similar_to_paper_items b idea)).

End WithQuality.

End EdgeWeights.

(** ** Path 2 and the whole recall *)

Module RecallPath2.
Import Py Graph Recall Pipeline RecallPaths.

(** [RecallConfig.PATH2_TOP_K_DOMAINS], [TOP_K_DOMAINS] in the demo. *)
Definition PATH2_TOP_K_DOMAINS : nat := 5.

(** [[(u, G[u][n]) for u in G.predecessors(n)]] for a node of the graph:
    the sources of the edges into [n].  networkx lists them in the order
    the edges into [n] were added, which the successor dictionary does
    not record; the embedding lists them in the order of their sources.
    The scores computed from them are sums per pattern and do not depend
    on that order. *)
Definition predecessors (G : DiGraph) (n : string) : dict EdgeData :=
  omap (λ ua : string * dict EdgeData, (λ e, (ua.1, e)) <$> dict_get n ua.2) (succ G).

(** [G.successors(n)] and [G.predecessors(n)] where the source does not
    guard them: [None] is the [NetworkXError] raised for a node that is
    not in the graph.  The record [DiGraph] does not force the ends of
    an edge to be nodes, as networkx does; what is proved for every
    record holds for every networkx graph. *)
Definition successors_of (G : DiGraph) (n : string) : option (dict EdgeData) :=
  if has_node G n then Some (successors G n) else None.

Definition predecessors_of (G : DiGraph) (n : string) : option (dict EdgeData) :=
  if has_node G n then Some (predecessors G n) else None.

(** The Domains an Idea belongs to, with the weight of the edge:
    the loop over the successors of the Idea. *)
Definition belongs_to_domains (succs : dict EdgeData) : list (string * Qc) :=
  omap (λ se : string * EdgeData,
          if bool_decide (relation se.2 = Some "belongs_to"%string)
          then Some (se.1, default (Q2Qc (1 # 2)) (weight se.2)) else None)
       succs.

(** Step 3 for one Domain: the loop over its predecessors. *)
Definition path2_domain (domain_weight : Qc) (scores : dict Qc) (preds : dict EdgeData)
    : dict Qc :=
  foldl (λ scores pe,
           if bool_decide (relation pe.2 = Some "works_well_in"%string)
           then
             let effectiveness := default 0 (effectiveness pe.2) in
             let confidence := default 0 (confidence pe.2) in
             dict_add pe.1 (domain_weight * max2 effectiveness (Q2Qc (1 # 10)) * confidence)
                      scores
           else scores)
        scores preds.

(** *** [simple_recall_demo.py] and the pipeline's [main] *)

(** Path 2 of the demo: the Domains of the most similar Idea. *)
Definition demo_path2 (G : DiGraph) (ideas : list Idea) (top : list (string * Qc))
    : dict Qc :=
  let top_idea :=
    match top with
    | e :: _ => index_by idea_id ideas !! e.1
    | [] => None
    end in
  let domain_scores :=
    match top_idea with
    | Some idea =>
        if has_node G (idea_id idea) then belongs_to_domains (successors G (idea_id idea))
        else []
    | None => []
    end in
  let top_domains := take PATH2_TOP_K_DOMAINS (sort_descQ snd domain_scores) in
  foldl (λ scores entry, path2_domain entry.2 scores (predecessors G entry.1)) [] top_domains.

(** The recall of the pipeline's [main]: the three paths of the demo,
    fused, with the pattern records of [pattern_map]. *)
Definition demo_recall (cfg : RecallConfig) (ideas : list Idea) (patterns : list Pattern)
    (G : DiGraph) (papers : list Paper) (user_idea : text) : list Recalled :=
  let top := top_ideas (PATH1_TOP_K_IDEAS cfg) compute_similarity ideas user_idea in
  let path1_scores := foldl (demo_path1_idea ideas) [] top in
  let path2_scores := demo_path2 G ideas top in
  let path3_scores := demo_path3 G papers user_idea in
  (λ ps, (ps.1, from_option info empty_info (index_by pattern_id patterns !! ps.1), ps.2))
    <$> fuse cfg path1_scores path2_scores path3_scores.

(** *** [recall_system.py] *)

(** Step 1 of [_recall_path2_domain_patterns]: the Domains whose name
    shares a token with the user idea. *)
Definition domain_match (user_idea : text) (domains : list Domain) : list (string * Qc) :=
  let user_tokens := token_set user_idea in
  omap (λ domain,
          let domain_tokens := token_set (name domain) in
          let match_score :=
            ratio (size (user_tokens ∩ domain_tokens)) (Nat.max (size user_tokens) 1) in
          if bool_decide (0 < match_score) then Some (domain_id domain, match_score)
          else None)
       domains.

(** The most similar Idea of the fallback, if any Idea is similar. *)
Definition most_similar_idea (ideas : list Idea) (user_idea : text) : option Idea :=
  let similarities :=
    filter (λ p : Idea * Qc, 0 < p.2)
           ((λ i, (i, _compute_text_similarity user_idea (description i))) <$> ideas) in
  fst <$> head (sort_descQ snd similarities).

(** The fallback when no Domain matches: the Domains of the most
    similar Idea, read from the graph without a guard. *)
Definition fallback_domains (sys : RecallSystem) (user_idea : text)
    : option (list (string * Qc)) :=
  match most_similar_idea (ideas sys) user_idea with
  | None => Some []
  | Some top_idea => belongs_to_domains <$> successors_of (G sys) (idea_id top_idea)
  end.

(** Step 3: the loop over the kept Domains; a Domain id without a
    record is skipped, the others are read from the graph without a
    guard. *)
Definition path2_patterns (sys : RecallSystem) (domains : list Domain)
    (top_domains : list (string * Qc)) : option (dict Qc) :=
  foldl (λ acc entry,
           scores ← acc;
           match index_by domain_id domains !! entry.1 with
           | None => Some scores
           | Some _ => path2_domain entry.2 scores <$> predecessors_of (G sys) entry.1
           end)
        (Some []) top_domains.

(** [RecallSystem._recall_path2_domain_patterns], for [self.domains]. *)
Definition _recall_path2_domain_patterns (sys : RecallSystem) (domains : list Domain)
    (user_idea : text) : option (dict Qc) :=
  let domain_scores := domain_match user_idea domains in
  domain_scores ←
    match domain_scores with
    | [] => fallback_domains sys user_idea
    | _ :: _ => Some domain_scores
    end;
  path2_patterns sys domains (take PATH2_TOP_K_DOMAINS (sort_descQ snd domain_scores)).

(** [RecallSystem._print_results] prints each result's share of the
    final score; the division raises [ZeroDivisionError] on a result
    whose final score is zero. *)
Definition _print_results (results : list Recalled) : option unit :=
  if forallb (λ r : Recalled, negb (bool_decide (r.2 = 0))) results
  then Some tt else None.

(** [RecallSystem.recall], for [self.domains] and [self.papers]. *)
Definition recall (cfg : RecallConfig) (sys : RecallSystem) (domains : list Domain)
    (papers : list Paper) (user_idea : text) (verbose : bool) : option (list Recalled) :=
  let path1_scores := _recall_path1_similar_ideas cfg sys user_idea in
  path2_scores ← _recall_path2_domain_patterns sys domains user_idea;
  let path3_scores := _recall_path3_similar_papers sys papers user_idea in
  let results := recall_results cfg sys path1_scores path2_scores path3_scores in
  _ ← (if verbose then _print_results results else Some tt);
  Some results.

End RecallPath2.

(** ** More concrete inputs *)

Module RecallExamples.
Import Py Graph Recall Pipeline Orchestrator Examples RecallPaths RecallPath2.
Open Scope string_scope.

(** A paper whose core idea is written out. *)
Definition kernel_paper : Paper :=
  {| paper_id := "paper_1"; title := "Another paper"; domains := ["Machine Learning"];
     paper_pattern_ids := ["pattern_1"]; core_idea := "graph kernels"; abstract := "";
     ratings := [Qc_of_Z 6; Qc_of_Z 8]; method_story := "" |}.

(** A query that shares no character with [gnn_idea] or [kernel_paper]. *)
Definition digits_query : text := "2024 7".

(** The Path 1 scores of [gnn_query] on [gnn_sys]. *)
Definition gnn_path1 : dict Qc := _recall_path1_similar_ideas default_config gnn_sys gnn_query.

End RecallExamples.

(** * Properties *)

#[local] Set Warnings "-clear-no-such-hyp".

(** ** The Python built-ins *)

Module PyFacts.
Import Py.

Section Sorting.
Context {A : Type}.

Lemma insert_asc_perm (key : A → Z) x l : insert_asc key x l ≡ₚ x :: l.
Proof.
  induction l as [|y l IH]; simpl; [done|].
  case_match; [done|]. rewrite IH. apply Permutation_swap.
Qed.

Lemma sort_asc_perm (key : A → Z) l : sort_asc key l ≡ₚ l.
Proof.
  induction l as [|x l IH]; simpl; [done|].
  rewrite insert_asc_perm. by rewrite IH.
Qed.

Lemma insert_asc_sorted (key : A → Z) x l :
  StronglySorted (λ a b, (key a ≤ key b)%Z) l →
  StronglySorted (λ a b, (key a ≤ key b)%Z) (insert_asc key x l).
Proof.
  induction 1 as [|y l Hl IH Hy]; simpl.
  - repeat constructor.
  - destruct (Z.leb_spec (key x) (key y)) as [Hxy|Hxy].
    + constructor; [by constructor|].
      constructor; [done|].
      eapply Forall_impl; [exact Hy|]. intros z Hz. cbn in *. lia.
    + constructor; [done|].
      rewrite insert_asc_perm. constructor; [lia|done].
Qed.

Lemma sort_asc_sorted (key : A → Z) l :
  StronglySorted (λ a b, (key a ≤ key b)%Z) (sort_asc key l).
Proof.
  induction l as [|x l IH]; simpl; [constructor|].
  by apply insert_asc_sorted.
Qed.

(** The first element of an ascending sort is a least element. *)
Lemma head_sort_asc_least (key : A → Z) l x :
  head (sort_asc key l) = Some x → x ∈ l ∧ ∀ y, y ∈ l → (key x ≤ key y)%Z.
Proof.
  intros Hhead. pose proof (sort_asc_sorted key l) as Hsorted.
  pose proof (sort_asc_perm key l) as Hperm.
  destruct (sort_asc key l) as [|z s]; [done|]. injection Hhead as ->.
  split; [rewrite <- Hperm; left|].
  intros y Hy. rewrite <- Hperm in Hy.
  apply StronglySorted_inv in Hsorted as [_ Hall].
  apply elem_of_cons in Hy as [->|Hy]; [lia|].
  rewrite Forall_forall in Hall. by apply Hall.
Qed.

Lemma insert_desc_perm (key : A → Z) x l : insert_desc key x l ≡ₚ x :: l.
Proof.
  induction l as [|y l IH]; simpl; [done|].
  case_match; [done|]. rewrite IH. apply Permutation_swap.
Qed.

Lemma sort_desc_perm (key : A → Z) l : sort_desc key l ≡ₚ l.
Proof.
  induction l as [|x l IH]; simpl; [done|].
  rewrite insert_desc_perm. by rewrite IH.
Qed.

Lemma insert_descQ_perm (key : A → Qc) x l : insert_descQ key x l ≡ₚ x :: l.
Proof.
  induction l as [|y l IH]; simpl; [done|].
  case_bool_decide; [done|]. rewrite IH. apply Permutation_swap.
Qed.

Lemma sort_descQ_perm (key : A → Qc) l : sort_descQ key l ≡ₚ l.
Proof.
  induction l as [|x l IH]; simpl; [done|].
  rewrite insert_descQ_perm. by rewrite IH.
Qed.


Lemma insert_descQ_sorted (key : A → Qc) x l :
  StronglySorted (desc_by key) l → StronglySorted (desc_by key) (insert_descQ key x l).
Proof.
  induction 1 as [|y l Hl IH Hy]; simpl.
  - repeat constructor.
  - case_bool_decide as Hxy.
    + constructor; [by constructor|].
      constructor; [done|].
      eapply Forall_impl; [exact Hy|]. intros z Hz. unfold desc_by in *.
      by etrans.
    + constructor; [done|].
      rewrite insert_descQ_perm. constructor; [|done].
      unfold desc_by. apply Qclt_le_weak, Qcnot_le_lt, Hxy.
Qed.

Lemma sort_descQ_sorted (key : A → Qc) l : StronglySorted (desc_by key) (sort_descQ key l).
Proof.
  induction l as [|x l IH]; simpl; [constructor|].
  by apply insert_descQ_sorted.
Qed.

Lemma StronglySorted_take_prefix (R : A → A → Prop) n l :
  StronglySorted R l → StronglySorted R (take n l).
Proof.
  intros Hl. revert n. induction Hl as [|x l Hl IH Hx]; intros [|n]; simpl; try constructor.
  - apply IH.
  - eapply Forall_take, Hx.
Qed.

End Sorting.

(** Folds over the lists that comprehensions and nested loops build. *)
Lemma foldl_bind {A B C} (f : A → C → A) (g : B → list C) (a : A) (l : list B) :
  foldl f a (l ≫= g) = foldl (λ a x, foldl f a (g x)) a l.
Proof.
  revert a. induction l as [|x l IH]; intros a; [done|].
  cbn. by rewrite foldl_app, IH.
Qed.

Lemma foldl_ext_in {A B} (f g : A → B → A) (a : A) (l : list B) :
  (∀ a x, x ∈ l → f a x = g a x) → foldl f a l = foldl g a l.
Proof.
  revert a. induction l as [|x l IH]; intros a Hfg; [done|].
  simpl. rewrite Hfg by left. apply IH. intros a' y Hy. apply Hfg. by right.
Qed.

Lemma foldl_omap {A B C} (f : A → C → A) (g : B → option C) (a : A) (l : list B) :
  foldl f a (omap g l) = foldl (λ a x, from_option (f a) a (g x)) a l.
Proof.
  revert a. induction l as [|x l IH]; intros a; [done|].
  cbn. destruct (g x); cbn; apply IH.
Qed.

End PyFacts.

(** ** Fractions of two counts *)

Module RatioFacts.
Import Py Recall.

Lemma Qc_of_nat_pos (n : nat) : (0 < n)%nat → 0 < Qc_of_Z (Z.of_nat n).
Proof. intros Hn. rewrite <- Z2Qc_inj_0. apply (proj1 (Z2Qc_inj_lt _ _)). lia. Qed.

Lemma Qc_of_nat_nonzero (n : nat) : (0 < n)%nat → Qc_of_Z (Z.of_nat n) ≠ 0.
Proof.
  intros Hn Heq. rewrite <- Z2Qc_inj_0 in Heq. apply Z2Qc_inj in Heq. lia.
Qed.

Lemma ratio_zero (m : nat) : ratio 0 m = 0.
Proof.
  unfold ratio. change (Z.of_nat 0) with 0%Z. rewrite Z2Qc_inj_0. apply Qcmult_0_l.
Qed.

Lemma ratio_self (n : nat) : (0 < n)%nat → ratio n n = 1.
Proof. intros Hn. unfold ratio. apply Qcmult_inv_r. by apply Qc_of_nat_nonzero. Qed.

Lemma ratio_pos (n m : nat) : (0 < n)%nat → (0 < m)%nat → 0 < ratio n m.
Proof.
  intros Hn Hm. unfold ratio. apply Qcmult_pos_pos; [by apply Qc_of_nat_pos|].
  by apply Qcinv_pos, Qc_of_nat_pos.
Qed.

Lemma ratio_nonneg (n m : nat) : 0 ≤ ratio n m.
Proof.
  destruct n as [|n]; [by rewrite ratio_zero|].
  destruct m as [|m].
  - unfold ratio. change (Z.of_nat 0) with 0%Z. rewrite Z2Qc_inj_0. unfold Qcdiv.
    replace (/ 0) with 0 by (by apply Qc_is_canon). by rewrite Qcmult_0_r.
  - apply Qclt_le_weak, ratio_pos; lia.
Qed.

Lemma ratio_le_1 (n m : nat) : (n ≤ m)%nat → ratio n m ≤ 1.
Proof.
  intros Hnm. destruct m as [|m].
  - assert (n = 0%nat) as -> by lia. by rewrite ratio_zero.
  - rewrite <- (ratio_self (S m)) by lia. unfold ratio.
    apply Qcmult_le_mono_nonneg_r.
    + apply Qclt_le_weak, Qcinv_pos, Qc_of_nat_pos. lia.
    + apply (proj1 (Z2Qc_inj_le _ _)). lia.
Qed.

Lemma sum_ratios (total : nat) (l : list nat) (a : Qc) :
  foldl Qcplus a ((λ c, ratio c total) <$> l) = a + ratio (sum_list l) total.
Proof.
  revert a. induction l as [|c l IH]; intros a; cbn [fmap list_fmap foldl sum_list].
  - rewrite ratio_zero. ring.
  - change (foldl Qcplus (a + ratio c total) ((λ c, ratio c total) <$> l)
            = a + ratio (c + sum_list l) total).
    rewrite IH. unfold ratio. rewrite Nat2Z.inj_add, Z2Qc_inj_add.
    unfold Qcdiv. ring.
Qed.

End RatioFacts.

(** ** Rounding to the nearest double *)

Module DoubleFacts.
Import Py.
Local Open Scope Q_scope.

Lemma pow2_pos (e : Z) : 0 < 2 ^ e.
Proof. apply Qpower_0_lt. reflexivity. Qed.

Lemma pow2_add (a b : Z) : 2 ^ (a + b) == 2 ^ a * 2 ^ b.
Proof. apply Qpower_plus. discriminate. Qed.

Lemma pow2_Z (e : Z) : (0 <= e)%Z → 2 ^ e == inject_Z (2 ^ e).
Proof. intros He. symmetry. apply (Zpower_Qpower 2 e He). Qed.

Lemma round_half_even_error (x : Q) :
  x - (1 # 2) <= inject_Z (round_half_even x) <= x + (1 # 2).
Proof.
  unfold round_half_even.
  pose proof (Qfloor_le x) as Hlo. pose proof (Qlt_floor x) as Hhi.
  rewrite inject_Z_plus in Hhi. change (inject_Z 1) with 1 in Hhi.
  destruct (Qcompare_spec (x - inject_Z (Qfloor x)) (1 # 2)) as [Heq|Hlt|Hgt].
  - destruct (Z.even (Qfloor x)); [|rewrite inject_Z_plus; change (inject_Z 1) with 1]; lra.
  - lra.
  - rewrite inject_Z_plus. change (inject_Z 1) with 1. lra.
Qed.

Lemma round_half_even_le (x : Q) (k : Z) : x <= inject_Z k → (round_half_even x <= k)%Z.
Proof.
  intros Hx. pose proof (round_half_even_error x) as [_ Hhi].
  assert (Hlt : inject_Z (round_half_even x) < inject_Z (k + 1)).
  { rewrite inject_Z_plus. change (inject_Z 1) with 1. lra. }
  rewrite <- Zlt_Qlt in Hlt. lia.
Qed.

Lemma round_half_even_ge (x : Q) (k : Z) : inject_Z k <= x → (k <= round_half_even x)%Z.
Proof.
  intros Hx. pose proof (round_half_even_error x) as [Hlo _].
  assert (Hlt : inject_Z k < inject_Z (round_half_even x + 1)).
  { rewrite inject_Z_plus. change (inject_Z 1) with 1. lra. }
  rewrite <- Zlt_Qlt in Hlt. lia.
Qed.

Lemma Q_as_quotient (x : Q) : x == inject_Z (Qnum x) / inject_Z (Zpos (Qden x)).
Proof. destruct x as [n d]. cbn [Qnum Qden]. apply Qmake_Qdiv. Qed.

Lemma binade_spec (x : Q) : 0 < x → 2 ^ binade x <= x ∧ x < 2 ^ (binade x + 1).
Proof.
  intros Hx. unfold binade.
  set (n := Qnum x). set (d := Zpos (Qden x)).
  assert (Hn : (0 < n)%Z).
  { destruct x as [n' d']. unfold Qlt in Hx. cbn in *. subst n. lia. }
  assert (Hd : (0 < d)%Z) by (subst d; lia).
  destruct (Z.log2_spec n Hn) as [Hn1 Hn2]. destruct (Z.log2_spec d Hd) as [Hd1 Hd2].
  pose proof (Z.log2_nonneg n) as Hln. pose proof (Z.log2_nonneg d) as Hld.
  set (ln := Z.log2 n) in *. set (ld := Z.log2 d) in *.
  assert (Hdq : 0 < inject_Z d).
  { change 0 with (inject_Z 0). by rewrite <- Zlt_Qlt. }
  assert (Hxd : x * inject_Z d == inject_Z n).
  { rewrite (Q_as_quotient x) at 1. fold n d. field.
    intros H0. rewrite H0 in Hdq. by apply Qlt_irrefl in Hdq. }
  (* the bounds of the logarithms, in Q *)
  assert (Hn1q : 2 ^ ln <= inject_Z n).
  { rewrite pow2_Z by done. by rewrite <- Zle_Qle. }
  assert (Hn2q : inject_Z n < 2 ^ (ln + 1)).
  { rewrite pow2_Z by lia. rewrite <- Zlt_Qlt. by rewrite <- Z.add_1_r in Hn2. }
  assert (Hd1q : 2 ^ ld <= inject_Z d).
  { rewrite pow2_Z by done. by rewrite <- Zle_Qle. }
  assert (Hd2q : inject_Z d < 2 ^ (ld + 1)).
  { rewrite pow2_Z by lia. rewrite <- Zlt_Qlt. by rewrite <- Z.add_1_r in Hd2. }
  pose proof (pow2_pos (ln - ld)) as Hp. pose proof (pow2_pos (ln - ld - 1)) as Hp'.
  pose proof (pow2_pos ld) as Hpd.
  assert (Hup : x < 2 ^ (ln - ld + 1)).
  { (* x * d = n < 2^(ln+1) = 2^(ln-ld+1) * 2^ld <= 2^(ln-ld+1) * d *)
    assert (Hsplit : 2 ^ (ln + 1) == 2 ^ (ln - ld + 1) * 2 ^ ld).
    { rewrite <- pow2_add. f_equiv. lia. }
    pose proof (pow2_pos (ln - ld + 1)) as Hq.
    apply Qnot_le_lt. intros Hle.
    assert (2 ^ (ln - ld + 1) * 2 ^ ld <= x * inject_Z d); [|lra].
    apply Qle_trans with (2 ^ (ln - ld + 1) * inject_Z d).
    - apply Qmult_le_l; [done|done].
    - apply Qmult_le_r; [done|done]. }
  assert (Hlow : 2 ^ (ln - ld - 1) < x).
  { (* 2^(ln-ld-1) * d < 2^(ln-ld-1) * 2^(ld+1) = 2^ln <= n = x * d *)
    assert (Hsplit : 2 ^ ln == 2 ^ (ln - ld - 1) * 2 ^ (ld + 1)).
    { rewrite <- pow2_add. f_equiv. lia. }
    apply Qnot_le_lt. intros Hle.
    assert (x * inject_Z d < 2 ^ (ln - ld - 1) * 2 ^ (ld + 1)); [|lra].
    apply Qle_lt_trans with (2 ^ (ln - ld - 1) * inject_Z d).
    - apply Qmult_le_r; [done|done].
    - apply Qmult_lt_l; [done|done]. }
  destruct (Qle_bool (2 ^ (ln - ld)) x) eqn:Hb.
  - apply Qle_bool_iff in Hb. split; [done|done].
  - assert (Hlt : x < 2 ^ (ln - ld)).
    { apply Qnot_le_lt. intros Hle. apply Qle_bool_iff in Hle. congruence. }
    split; [by apply Qlt_le_weak|].
    replace (ln - ld - 1 + 1)%Z with (ln - ld)%Z by lia. done.
Qed.

Lemma pow2_inverse (e : Z) : 2 ^ (52 - e) * 2 ^ (e - 52) == 1.
Proof. rewrite <- pow2_add. by replace (52 - e + (e - 52))%Z with 0%Z by lia. Qed.

(** Rounding a positive rational moves it by at most [2 ** -53] of
    its value. *)
Lemma round_positive_error (x : Q) :
  0 < x →
  x * (1 - (1 # 9007199254740992)) <= round_positive x <= x * (1 + (1 # 9007199254740992)).
Proof.
  intros Hx. unfold round_positive.
  destruct (binade_spec x Hx) as [He _].
  set (e := binade x) in *.
  pose proof (round_half_even_error (x * 2 ^ (52 - e))) as [Hlo Hhi].
  set (m := inject_Z (round_half_even (x * 2 ^ (52 - e)))) in *.
  pose proof (pow2_inverse e) as Hinv.
  pose proof (pow2_pos (e - 52)) as Hp. pose proof (pow2_pos e) as Hpe.
  assert (Hhalf : 2 ^ (e - 52) * (1 # 2) == 2 ^ e * (1 # 9007199254740992)).
  { replace (e - 52)%Z with (e + -52)%Z by lia. rewrite pow2_add.
    rewrite <- Qmult_assoc. apply Qmult_comp; [reflexivity|]. reflexivity. }
  assert (Hu : 2 ^ e * (1 # 9007199254740992) <= x * (1 # 9007199254740992)).
  { apply Qmult_le_r; [reflexivity|done]. }
  assert (Hlo' : (x * 2 ^ (52 - e) - (1 # 2)) * 2 ^ (e - 52) <= m * 2 ^ (e - 52)).
  { apply Qmult_le_r; [done|done]. }
  assert (Hhi' : m * 2 ^ (e - 52) <= (x * 2 ^ (52 - e) + (1 # 2)) * 2 ^ (e - 52)).
  { apply Qmult_le_r; [done|done]. }
  assert (Hx' : x * 2 ^ (52 - e) * 2 ^ (e - 52) == x).
  { rewrite <- Qmult_assoc, Hinv. ring. }
  generalize dependent (m * 2 ^ (e - 52)). intros r Hlo' Hhi'.
  generalize dependent (2 ^ e * (1 # 9007199254740992)). intros a Hhalf Hu.
  assert (Hlo2 : (x * 2 ^ (52 - e) - (1 # 2)) * 2 ^ (e - 52) == x - a).
  { transitivity (x * 2 ^ (52 - e) * 2 ^ (e - 52) - 2 ^ (e - 52) * (1 # 2)); [ring|].
    by rewrite Hx', Hhalf. }
  assert (Hhi2 : (x * 2 ^ (52 - e) + (1 # 2)) * 2 ^ (e - 52) == x + a).
  { transitivity (x * 2 ^ (52 - e) * 2 ^ (e - 52) + 2 ^ (e - 52) * (1 # 2)); [ring|].
    by rewrite Hx', Hhalf. }
  rewrite Hlo2 in Hlo'. rewrite Hhi2 in Hhi'.
  split; lra.
Qed.

(** A positive rational rounds to a positive one, and one that is at
    most 1 to one that is at most 1. *)
Lemma round_positive_range (x : Q) :
  0 < x → 0 < round_positive x ∧ (x <= 1 → round_positive x <= 1).
Proof.
  intros Hx. unfold round_positive.
  destruct (binade_spec x Hx) as [He _].
  set (e := binade x) in *.
  pose proof (pow2_inverse e) as Hinv.
  pose proof (pow2_pos (e - 52)) as Hp. pose proof (pow2_pos (52 - e)) as Hq.
  split.
  - apply Qmult_lt_0_compat; [|done].
    change 0 with (inject_Z 0). rewrite <- Zlt_Qlt.
    assert (1 <= round_half_even (x * 2 ^ (52 - e)))%Z; [|lia].
    apply round_half_even_ge. change (inject_Z 1) with 1.
    apply Qle_trans with (2 ^ e * 2 ^ (52 - e)).
    + rewrite <- pow2_add. replace (e + (52 - e))%Z with 52%Z by lia. discriminate.
    + apply Qmult_le_r; [done|done].
  - intros Hle.
    assert (He0 : (e <= 0)%Z).
    { apply (Qpower_le_compat_l_inv 2); [|reflexivity].
      change (2 ^ 0) with 1. by apply Qle_trans with x. }
    assert (Hint : 2 ^ (52 - e) == inject_Z (2 ^ (52 - e))) by (apply pow2_Z; lia).
    assert (Hm : (round_half_even (x * 2 ^ (52 - e)) <= 2 ^ (52 - e))%Z).
    { apply round_half_even_le. rewrite <- Hint.
      apply Qle_trans with (1 * 2 ^ (52 - e)); [|rewrite Qmult_1_l; apply Qle_refl].
      apply Qmult_le_r; [done|done]. }
    rewrite Zle_Qle, <- Hint in Hm. rewrite <- Hinv.
    apply Qmult_le_r; [done|done].
Qed.

Local Close Scope Q_scope.

(** *** The same, on the canonical rationals *)

Lemma round_double_positive (x : Qc) : 0 < x → round_double x = Q2Qc (round_positive x).
Proof. intros Hx. unfold round_double. by rewrite bool_decide_eq_true_2. Qed.

(** A positive quotient and its double differ by at most [2 ** -53] of
    the quotient. *)
Lemma round_double_error (x : Qc) :
  0 < x →
  x * (1 - UNIT_ROUNDOFF) ≤ round_double x ≤ x * (1 + UNIT_ROUNDOFF).
Proof.
  intros Hx. rewrite round_double_positive by done.
  pose proof (round_positive_error x Hx) as [Hlo Hhi].
  unfold UNIT_ROUNDOFF, Qcle, Qcmult, Qcminus, Qcplus, Qcopp, Q2Qc. cbn [this].
  rewrite !Qred_correct. split.
  - eapply Qle_trans; [|exact Hlo]. apply Qle_lteq. right. ring.
  - eapply Qle_trans; [exact Hhi|]. apply Qle_lteq. right. ring.
Qed.

Lemma round_double_range (x : Qc) :
  0 < x → 0 < round_double x ∧ (x ≤ 1 → round_double x ≤ 1).
Proof.
  intros Hx. rewrite round_double_positive by done.
  pose proof (round_positive_range x Hx) as [Hpos Hle].
  unfold Qclt, Qcle, Q2Qc. cbn [this]. rewrite !Qred_correct.
  split; [exact Hpos|exact Hle].
Qed.

Lemma sum_shift (a : Qc) (l : list Qc) : foldl Qcplus a l = a + sum l.
Proof.
  unfold sum. revert a. induction l as [|x l IH]; intros a; cbn; [ring|].
  rewrite IH, (IH (0 + x)). ring.
Qed.

(** The exact sum of the doubles of positive quotients differs from the
    sum of the quotients by at most [2 ** -53] of it. *)
Lemma sum_round_double (xs : list Qc) :
  Forall (λ x, 0 < x) xs →
  sum xs * (1 - UNIT_ROUNDOFF) ≤ sum (round_double <$> xs)
  ∧ sum (round_double <$> xs) ≤ sum xs * (1 + UNIT_ROUNDOFF).
Proof.
  induction 1 as [|x xs Hx _ [IHlo IHhi]].
  - cbn. rewrite !Qcmult_0_l. done.
  - pose proof (round_double_error x Hx) as [Hlo Hhi].
    unfold sum in *. cbn [fmap list_fmap foldl]. rewrite !sum_shift, !Qcplus_0_l.
    unfold sum. split.
    + replace ((x + foldl Qcplus 0 xs) * (1 - UNIT_ROUNDOFF))
        with (x * (1 - UNIT_ROUNDOFF) + foldl Qcplus 0 xs * (1 - UNIT_ROUNDOFF)) by ring.
      by apply Qcplus_le_compat.
    + replace ((x + foldl Qcplus 0 xs) * (1 + UNIT_ROUNDOFF))
        with (x * (1 + UNIT_ROUNDOFF) + foldl Qcplus 0 xs * (1 + UNIT_ROUNDOFF)) by ring.
      by apply Qcplus_le_compat.
Qed.

(** [2 ** -53] is far below the tolerance [1e-9]. *)
Lemma unit_roundoff_small : 0 ≤ UNIT_ROUNDOFF ∧ UNIT_ROUNDOFF ≤ Q2Qc (1 # 1000000000).
Proof. split; compute_done. Qed.

(** A sum within [2 ** -53] of 1 is within [1e-9] of 1. *)
Lemma within_tolerance (s : Qc) :
  1 * (1 - UNIT_ROUNDOFF) ≤ s → s ≤ 1 * (1 + UNIT_ROUNDOFF) →
  - Q2Qc (1 # 1000000000) ≤ s - 1 ∧ s - 1 ≤ Q2Qc (1 # 1000000000).
Proof.
  unfold UNIT_ROUNDOFF, Qcle, Qcmult, Qcminus, Qcplus, Qcopp, Q2Qc. cbn [this].
  rewrite !Qred_correct. generalize (this s). intros q Hlo Hhi. split; lra.
Qed.

End DoubleFacts.

(** ** [PatternSelector] *)

Module SelectorFacts.
Import Py Graph Recall Pipeline PyFacts.

Lemma _select_innovative_not_excluded cfg rp exclude pid pinfo :
  _select_innovative cfg rp exclude = Some (pid, pinfo) → pid ∉ exclude.
Proof.
  unfold _select_innovative.
  destruct (filter (λ c : Recalled, (c.1.1 ∉ exclude) ∧ _) rp) as [|c cs] eqn:Hf.
  - destruct (sort_asc _ _) as [|c cs] eqn:Hs; [done|].
    intros [= <- <-].
    assert (Hc : c ∈ sort_asc (λ c : Recalled, cluster_size_or 999 c.1.2)
                   (filter (λ c : Recalled, c.1.1 ∉ exclude) rp)).
    { rewrite Hs. left. }
    rewrite sort_asc_perm in Hc. by apply list_elem_of_filter in Hc as [? _].
  - intros [= <- <-].
    assert (Hc : c ∈ c :: cs) by left.
    rewrite <- Hf in Hc. by apply list_elem_of_filter in Hc as [[? _] _].
Qed.

Lemma _select_cross_domain_not_excluded rp exclude pid pinfo :
  _select_cross_domain rp exclude = Some (pid, pinfo) → Some pid ∉ exclude.
Proof.
  unfold _select_cross_domain.
  destruct (filter _ rp) as [|c cs] eqn:Hf; [done|].
  intros [= <- <-].
  assert (Hc : c ∈ c :: cs) by left.
  rewrite <- Hf in Hc. by apply list_elem_of_filter in Hc as [? _].
Qed.

(** C7. [PatternSelector.select] fills at most three slots, named
    [conservative], [innovative] and [cross_domain] in that order, no
    pattern id sits in two slots, and an empty candidate list gives the
    empty mapping. *)
Theorem select_slots_distinct (cfg : PipelineConfig) (recalled_patterns : list Recalled) :
  let selected := select cfg recalled_patterns in
  (length selected ≤ 3)%nat
  ∧ selected.*1 `sublist_of` ["conservative"; "innovative"; "cross_domain"]%string
  ∧ NoDup ((λ slot, slot.2.1) <$> selected)
  ∧ select cfg [] = [].
Proof.
  unfold select.
  destruct (_select_conservative recalled_patterns) as [[c ci]|];
    destruct (_select_innovative cfg recalled_patterns _) as [[i ii]|] eqn:Hi;
    destruct (_select_cross_domain recalled_patterns _) as [[x xi]|] eqn:Hx; cbn.
  all: try apply _select_innovative_not_excluded in Hi.
  all: try apply _select_cross_domain_not_excluded in Hx.
  all: cbn in *.
  all: repeat match goal with
         | H : _ ∉ _ :: _ |- _ => apply not_elem_of_cons in H as [? ?]
         end.
  all: split_and!; [lia | | | done].
  all: try (repeat (apply NoDup_cons_2;
                    [rewrite ?elem_of_cons, ?elem_of_nil; intuition congruence|]);
            apply NoDup_nil_2).
  all: repeat first [ apply sublist_nil | apply sublist_skip | apply sublist_cons ].
Qed.

End SelectorFacts.

(** ** Fusion of the recall paths *)

Module FusionFacts.
Import Py Graph Recall PyFacts.

Lemma final_score_formula cfg path1 path2 path3 pid :
  final_score cfg path1 path2 path3 pid
  = PATH1_WEIGHT cfg * default 0 (dict_get pid path1)
    + PATH2_WEIGHT cfg * default 0 (dict_get pid path2)
    + PATH3_WEIGHT cfg * default 0 (dict_get pid path3).
Proof. unfold final_score. ring. Qed.

Lemma fuse_in_scores order cfg path1 path2 path3 :
  Forall (λ ps, ps.1 ∈ order ∧ ps.2 = final_score cfg path1 path2 path3 ps.1)
         (fuse_in order cfg path1 path2 path3).
Proof.
  unfold fuse_in. apply Forall_take.
  rewrite sort_descQ_perm. apply Forall_fmap, Forall_forall.
  intros pid Hpid. by split.
Qed.

(** C5. The fused recall result is in non-increasing order of the fused
    score, holds at most [FINAL_TOP_K] entries, and the score of each
    listed pattern is [w1 * path1 + w2 * path2 + w3 * path3] for the
    configured weights, an absent path score counting as [0].  This holds
    for every visiting order of the pattern set, hence for
    [RecallSystem.recall] and for the demo's [main], whatever the three
    paths returned. *)
Theorem fused_ranking_sorted_and_bounded
    (cfg : RecallConfig) (sys : RecallSystem) (order : list string)
    (path1 path2 path3 : dict Qc) :
  let ranked := fuse_in order cfg path1 path2 path3 in
  let results := recall_results cfg sys path1 path2 path3 in
  (StronglySorted (desc_by snd) ranked
   ∧ (length ranked ≤ FINAL_TOP_K cfg)%nat
   ∧ Forall (λ ps, ps.2 = PATH1_WEIGHT cfg * default 0 (dict_get ps.1 path1)
                          + PATH2_WEIGHT cfg * default 0 (dict_get ps.1 path2)
                          + PATH3_WEIGHT cfg * default 0 (dict_get ps.1 path3)) ranked)
  ∧ (StronglySorted (desc_by snd) results
     ∧ (length results ≤ FINAL_TOP_K cfg)%nat
     ∧ Forall (λ r, r.2 = PATH1_WEIGHT cfg * default 0 (dict_get r.1.1 path1)
                          + PATH2_WEIGHT cfg * default 0 (dict_get r.1.1 path2)
                          + PATH3_WEIGHT cfg * default 0 (dict_get r.1.1 path3)) results).
Proof.
  assert (Hgen : ∀ o, let ranked := fuse_in o cfg path1 path2 path3 in
    StronglySorted (desc_by snd) ranked
    ∧ (length ranked ≤ FINAL_TOP_K cfg)%nat
    ∧ Forall (λ ps, ps.2 = PATH1_WEIGHT cfg * default 0 (dict_get ps.1 path1)
                           + PATH2_WEIGHT cfg * default 0 (dict_get ps.1 path2)
                           + PATH3_WEIGHT cfg * default 0 (dict_get ps.1 path3)) ranked).
  { intros o. cbn. split_and!.
    - unfold fuse_in. apply StronglySorted_take_prefix, sort_descQ_sorted.
    - unfold fuse_in. rewrite length_take. lia.
    - eapply Forall_impl; [apply fuse_in_scores|].
      intros ps [_ ->]. apply final_score_formula. }
  split; [apply Hgen|].
  unfold recall_results, fuse.
  destruct (Hgen (elements (all_patterns path1 path2 path3))) as (Hs & Hl & Hf).
  cbn in *. split_and!.
  - eapply (StronglySorted_fmap _ (desc_by snd)); [|exact Hs].
    by intros ??.
  - by rewrite length_fmap.
  - apply Forall_fmap. eapply Forall_impl; [exact Hf|]. intros ps Hps. exact Hps.
Qed.

End FusionFacts.

(** ** Path 1 *)

Module Path1Facts.
Import Py Graph Recall Spec PyFacts.

Lemma dict_get_dict_add p k v (d : dict Qc) :
  dict_get p (dict_add k v d)
  = if String.eqb p k then Some (default 0 (dict_get p d) + v) else dict_get p d.
Proof.
  unfold dict_add. induction d as [|[k' v'] d IH]; simpl.
  - by destruct (String.eqb_spec p k).
  - destruct (String.eqb_spec k k') as [->|Hkk']; simpl.
    + by destruct (String.eqb_spec p k').
    + rewrite IH. destruct (String.eqb_spec p k') as [->|]; [|done].
      by destruct (String.eqb_spec k' k) as [->|].
Qed.

Lemma dict_get_contributions p (contribs : list (string * Qc)) (d : dict Qc) :
  dict_get p (foldl (λ d c, dict_add c.1 c.2 d) d contribs)
  = match filter (λ c, c.1 = p) contribs with
    | [] => dict_get p d
    | cs => Some (foldl Qcplus (default 0 (dict_get p d)) cs.*2)
    end.
Proof.
  revert d. induction contribs as [|[k v] contribs IH]; intros d; [done|].
  cbn [foldl]. rewrite IH, dict_get_dict_add. cbn [fst snd].
  rewrite filter_cons. cbn [fst].
  destruct (decide (k = p)) as [->|Hk].
  - rewrite String.eqb_refl. cbn. by destruct (filter _ contribs).
  - destruct (String.eqb_spec p k) as [->|]; [done|].
    by destruct (filter _ contribs).
Qed.

Lemma dict_get_contribution_score p (contribs : list (string * Qc)) :
  dict_get p (foldl (λ d c, dict_add c.1 c.2 d) [] contribs) = contribution_score contribs p.
Proof. by rewrite dict_get_contributions. Qed.

Lemma path1_as_contributions (sys : RecallSystem) (kept : list (string * Qc)) :
  foldl (path1_idea sys) [] kept
  = foldl (λ d c, dict_add c.1 c.2 d) [] (path1_contributions sys kept).
Proof.
  unfold path1_contributions. rewrite foldl_bind.
  apply foldl_ext_in. intros d entry _. unfold path1_idea.
  destruct (idea_id_to_idea sys !! entry.1) as [idea|]; cbn; [|done].
  rewrite app_nil_r, foldl_bind.
  apply foldl_ext_in. intros d' pid _. unfold path1_paper.
  destruct (has_node (G sys) pid); [|done].
  rewrite foldl_bind. apply foldl_ext_in. intros d'' se _.
  by case_bool_decide.
Qed.

Lemma demo_path1_as_contributions (ideas : list Idea) (kept : list (string * Qc)) :
  foldl (demo_path1_idea ideas) [] kept
  = foldl (λ d c, dict_add c.1 c.2 d) [] (demo_contributions ideas kept).
Proof.
  unfold demo_contributions. rewrite foldl_bind.
  apply foldl_ext_in. intros d entry _. unfold demo_path1_idea.
  destruct (index_by idea_id ideas !! entry.1) as [idea|]; cbn; [|done].
  rewrite app_nil_r, foldl_bind.
  by apply foldl_ext_in.
Qed.

(** C6, as amended.  In [RecallSystem._recall_path1_similar_ideas] the
    score of a pattern is the sum, over the kept Ideas, their source
    papers in the graph and the [uses_pattern] edges of those papers that
    reach it, of (idea similarity x quality on the edge), and a pattern
    no such edge reaches has no score.  The demo's Path 1 does not follow
    the edges: it credits each pattern id stored on a kept Idea with the
    idea similarity alone. *)
Theorem path1_scores_by_variant
    (cfg : RecallConfig) (sys : RecallSystem) (user_idea : text) (p : string) :
  dict_get p (_recall_path1_similar_ideas cfg sys user_idea)
  = path1_spec _compute_text_similarity cfg sys user_idea p
  ∧ dict_get p (demo_path1 cfg (ideas sys) user_idea)
    = contribution_score
        (demo_contributions (ideas sys)
           (top_ideas (PATH1_TOP_K_IDEAS cfg) compute_similarity (ideas sys) user_idea)) p.
Proof.
  split.
  - unfold _recall_path1_similar_ideas, path1_spec.
    by rewrite path1_as_contributions, dict_get_contribution_score.
  - unfold demo_path1.
    by rewrite demo_path1_as_contributions, dict_get_contribution_score.
Qed.

(** On the one-Idea graph, the demo gives [pattern_1] the similarity
    13/15 of the Idea and not 13/15 x 0.8, and it scores [pattern_2],
    which no paper of the Idea uses. *)
Lemma demo_path1_ignores_edge_quality :
  dict_get "pattern_1"
    (demo_path1 demo_config (ideas Examples.gnn_sys) Examples.gnn_query)
  = Some (Q2Qc (13 # 15))
  ∧ path1_spec compute_similarity demo_config Examples.gnn_sys Examples.gnn_query "pattern_1"
    = Some (Q2Qc (13 # 15) * Q2Qc (4 # 5))
  ∧ dict_get "pattern_2"
      (demo_path1 demo_config (ideas Examples.gnn_sys) Examples.gnn_query)
    = Some (Q2Qc (13 # 15))
  ∧ path1_spec compute_similarity demo_config Examples.gnn_sys Examples.gnn_query "pattern_2"
    = None
  ∧ ¬ (∀ p, dict_get p (demo_path1 demo_config (ideas Examples.gnn_sys) Examples.gnn_query)
            = path1_spec compute_similarity demo_config Examples.gnn_sys
                Examples.gnn_query p).
Proof.
  split_and!; try compute_done.
  intros H. specialize (H "pattern_2"%string). revert H. compute_done.
Qed.

End Path1Facts.

(** ** The [belongs_to] weights *)

Module BuildEdgesFacts.
Import Py Graph BuildEdges Spec PyFacts RatioFacts DoubleFacts.

Lemma count_domains_resolved (b : EdgeBuilder) (counts : dict nat) (p : Paper) :
  count_domains b counts p
  = foldl (λ c k, dict_incr k c) counts
      (omap (λ dn, match domain_name_to_id b !! dn with
                   | Some did => if truthy did then Some did else None
                   | None => None
                   end) (domains p)).
Proof.
  unfold count_domains. rewrite foldl_omap.
  apply foldl_ext_in. intros c dn _.
  destruct (domain_name_to_id b !! dn) as [did|]; [|done].
  by destruct (truthy did).
Qed.

Lemma domain_counts_resolved (b : EdgeBuilder) (ids : list string) :
  domain_counts b ids = foldl (λ c k, dict_incr k c) [] (ids ≫= resolved_ids b).
Proof.
  unfold domain_counts. rewrite foldl_bind.
  apply foldl_ext_in. intros c pid _. unfold resolved_ids.
  destruct (paper_id_to_paper b !! pid) as [p|]; [|done].
  apply count_domains_resolved.
Qed.

(** What one [+= 1] does to the entries. *)
Lemma Forall_dict_incr (Q : string * nat → Prop) k (d : dict nat) :
  (∀ kv, kv ∈ d → kv.1 ≠ k → Q kv) →
  (∀ v, (k, v) ∈ d → Q (k, v) ∧ Q (k, S v)) →
  Q (k, 1%nat) →
  Forall Q (dict_incr k d).
Proof.
  unfold dict_incr. intros Hother Hk Hnew.
  induction d as [|[k' v] d IH]; cbn.
  - by repeat constructor.
  - destruct (String.eqb_spec k k') as [<-|Hkk'].
    + constructor; [apply Hk; left|].
      apply Forall_forall. intros [k'' v''] Hin.
      destruct (decide (k'' = k)) as [->|Hne].
      * apply Hk. by right.
      * apply Hother; [by right|done].
    + constructor; [apply Hother; [left|cbn; congruence]|].
      apply IH.
      * intros kv Hin. apply Hother. by right.
      * intros v' Hin. apply Hk. by right.
Qed.

Lemma sum_dict_incr k (d : dict nat) : sum_list (dict_incr k d).*2 = S (sum_list d.*2).
Proof.
  unfold dict_incr. induction d as [|[k' v] d IH]; cbn; [done|].
  destruct (String.eqb k k'); cbn; [done|]. rewrite IH. lia.
Qed.

Lemma sum_counts (ks : list string) (d : dict nat) :
  sum_list (foldl (λ c k, dict_incr k c) d ks).*2 = (sum_list d.*2 + length ks)%nat.
Proof.
  revert d. induction ks as [|k ks IH]; intros d; cbn; [lia|].
  rewrite IH, sum_dict_incr. lia.
Qed.

Lemma counts_positive (ks : list string) (d : dict nat) :
  Forall (λ kv, (1 ≤ kv.2)%nat) d →
  Forall (λ kv, (1 ≤ kv.2)%nat) (foldl (λ c k, dict_incr k c) d ks).
Proof.
  revert d. induction ks as [|k ks IH]; intros d Hd; cbn; [done|].
  rewrite Forall_forall in Hd.
  apply IH, Forall_dict_incr.
  - intros kv Hin _. by apply Hd.
  - intros v Hin. cbn. split; [|lia]. by apply (Hd _ Hin).
  - cbn. lia.
Qed.

(** One paper that names no Domain twice adds at most one to each count. *)
Lemma counts_one_paper (ks : list string) (n : nat) (d : dict nat) :
  NoDup ks →
  Forall (λ kv, (kv.2 ≤ S n)%nat ∧ (kv.1 ∈ ks → (kv.2 ≤ n)%nat)) d →
  Forall (λ kv, (kv.2 ≤ S n)%nat) (foldl (λ c k, dict_incr k c) d ks).
Proof.
  intros Hnd. revert d. induction Hnd as [|k ks Hk Hnd IH]; intros d Hd; cbn.
  - eapply Forall_impl; [exact Hd|]. by intros kv [? _].
  - rewrite Forall_forall in Hd.
    apply IH, Forall_dict_incr.
    + intros kv Hin Hne. destruct (Hd _ Hin) as [Hle Hks].
      split; [done|]. intros Hin'. apply Hks. by right.
    + intros v Hin. destruct (Hd _ Hin) as [Hle Hks].
      cbn in *. assert (v ≤ n)%nat by (apply Hks; left).
      split; (split; [lia|]); intros Hin'; done.
    + cbn. split; [lia|]. intros Hin'. done.
Qed.

Lemma counts_bounded (b : EdgeBuilder) (ids : list string) :
  (∀ pid, pid ∈ ids → NoDup (resolved_ids b pid)) →
  Forall (λ kv, (kv.2 ≤ length ids)%nat) (domain_counts b ids).
Proof.
  rewrite domain_counts_resolved.
  intros Hnd. induction ids as [|pid ids IH] using rev_ind; [by constructor|].
  rewrite bind_app, foldl_app. cbn. rewrite app_nil_r, length_app. cbn.
  replace (length ids + 1)%nat with (S (length ids)) by lia.
  apply counts_one_paper.
  - apply Hnd. apply elem_of_app. right. left.
  - eapply Forall_impl; [apply IH|].
    + intros p Hp. apply Hnd. apply elem_of_app. by left.
    + intros kv Hle. cbn in Hle. split; [lia|done].
Qed.

Lemma belongs_to_weights_counts (b : EdgeBuilder) (i : Idea) :
  source_paper_ids i ≠ [] →
  belongs_to_weights b i
  = (λ c, float_div c (length (source_paper_ids i)))
      <$> (domain_counts b (source_paper_ids i)).*2.
Proof.
  unfold belongs_to_weights, belongs_to_edges. intros Hne.
  destruct (source_paper_ids i) as [|pid ids] eqn:Hids; [done|].
  generalize (domain_counts b (pid :: ids)) as counts.
  generalize (length (pid :: ids)) as total.
  intros total counts. induction counts as [|[did c] counts IH]; [done|].
  cbn in *. by rewrite IH.
Qed.

Lemma float_div_ratio (a b : nat) : float_div a b = round_double (Recall.ratio a b).
Proof. done. Qed.

(** C3, as amended.  For an Idea with a non-empty source-paper list,
    each [belongs_to] weight is the double [paper_count / total_papers]:
    it is positive and within [2 ** -53] of that fraction, relatively.
    The counts add up to the number of paper-domain incidences, and the
    exact sum of the stored weights is within [2 ** -53], relatively, of
    the incidences over the number of source papers.  Each weight is at
    most 1 when no source paper names a Domain twice; when every source
    paper resolves to exactly one Domain the weights lie in [[0, 1]] and
    their sum is within [1e-9] of 1. *)
Theorem belongs_to_weights_fraction (b : EdgeBuilder) (i : Idea) :
  source_paper_ids i ≠ [] →
  let ids := source_paper_ids i in
  let total := length ids in
  let counts := (domain_counts b ids).*2 in
  let ws := belongs_to_weights b i in
  let share := Recall.ratio (incidences b ids) total in
  ws = (λ c, float_div c total) <$> counts
  ∧ Forall2 (λ w c, 0 < w
                    ∧ Recall.ratio c total * (1 - UNIT_ROUNDOFF) ≤ w
                    ∧ w ≤ Recall.ratio c total * (1 + UNIT_ROUNDOFF)) ws counts
  ∧ sum_list counts = incidences b ids
  ∧ share * (1 - UNIT_ROUNDOFF) ≤ Py.sum ws
  ∧ Py.sum ws ≤ share * (1 + UNIT_ROUNDOFF)
  ∧ ((∀ pid, pid ∈ ids → NoDup (resolved_ids b pid)) → Forall (λ w, 0 < w ≤ 1) ws)
  ∧ ((∀ pid, pid ∈ ids → length (resolved_ids b pid) = 1%nat) →
     - Q2Qc (1 # 1000000000) ≤ Py.sum ws - 1
     ∧ Py.sum ws - 1 ≤ Q2Qc (1 # 1000000000)
     ∧ Forall (λ w, 0 ≤ w ≤ 1) ws).
Proof.
  intros Hne ids total counts ws share. subst ws.
  rewrite belongs_to_weights_counts by done. fold ids total counts.
  assert (Hlen : (0 < total)%nat).
  { subst total ids. destruct (source_paper_ids i); [done|cbn; lia]. }
  assert (Hpos : Forall (λ c, (1 ≤ c)%nat) counts).
  { subst counts. apply Forall_fmap. rewrite domain_counts_resolved. by apply counts_positive. }
  assert (Hcounts : sum_list counts = incidences b ids).
  { subst counts. rewrite domain_counts_resolved, sum_counts. done. }
  assert (Hsum : Py.sum ((λ c, Recall.ratio c total) <$> counts) = share).
  { unfold Py.sum. rewrite sum_ratios, Hcounts. subst share. ring. }
  assert (Hfrac : Forall (λ x, 0 < x) ((λ c, Recall.ratio c total) <$> counts)).
  { apply Forall_fmap. eapply Forall_impl; [exact Hpos|]. intros c Hc. cbn in *.
    apply ratio_pos; [lia|exact Hlen]. }
  assert (Hws : (λ c, float_div c total) <$> counts
                = round_double <$> ((λ c, Recall.ratio c total) <$> counts)).
  { by rewrite <- list_fmap_compose. }
  destruct (sum_round_double _ Hfrac) as [Hlo Hhi]. rewrite Hsum, <- Hws in Hlo, Hhi.
  assert (Hle1 : ∀ c, (1 ≤ c ≤ total)%nat → 0 < float_div c total ≤ 1).
  { intros c [Hc1 Hc2]. rewrite float_div_ratio.
    destruct (round_double_range (Recall.ratio c total)) as [Hp Hl];
      [apply ratio_pos; lia|].
    split; [exact Hp|]. apply Hl. by apply ratio_le_1. }
  split_and!; [done| |done|done|done| |].
  - apply Forall2_fmap_l, Forall_Forall2_diag.
    eapply Forall_impl; [exact Hpos|]. intros c Hc. cbn in *. rewrite float_div_ratio.
    assert (Hx : 0 < Recall.ratio c total) by (apply ratio_pos; lia).
    destruct (round_double_range _ Hx) as [Hp _].
    destruct (round_double_error _ Hx) as [Hl Hh]. done.
  - intros Hnd. apply Forall_fmap.
    assert (Hle : Forall (λ c, (c ≤ total)%nat) counts).
    { subst counts. apply Forall_fmap. apply (counts_bounded b ids Hnd). }
    apply Forall_forall. intros c Hin. cbn.
    rewrite Forall_forall in Hpos. rewrite Forall_forall in Hle.
    apply Hle1. split; [by apply Hpos|by apply Hle].
  - intros Hone.
    assert (Hinc : incidences b ids = total).
    { unfold incidences. subst total. clear -Hone. induction ids as [|pid ids IH]; [done|].
      cbn. rewrite length_app, IH, Hone; [done|left|].
      intros p Hp. apply Hone. by right. }
    assert (Hshare : share = 1).
    { subst share. rewrite Hinc. by apply ratio_self. }
    rewrite Hshare in Hlo, Hhi.
    destruct (within_tolerance _ Hlo Hhi) as [Htl Hth].
    split_and!; [done|done|].
    apply Forall_fmap, Forall_forall. intros c Hin. cbn.
    rewrite Forall_forall in Hpos.
    assert (Hc : (c ≤ total)%nat).
    { rewrite <- Hinc, <- Hcounts. clear -Hin.
      induction counts as [|c' cs IH]; [by apply elem_of_nil in Hin|].
      apply elem_of_cons in Hin as [->|Hin]; cbn; [lia|].
      specialize (IH Hin). lia. }
    destruct (Hle1 c) as [Hp Hl]; [split; [by apply Hpos|done]|].
    split; [by apply Qclt_le_weak|done].
Qed.

Lemma belongs_to_weights_fraction_witness :
  source_paper_ids Examples.three_paper_idea ≠ []
  ∧ (∀ pid, pid ∈ source_paper_ids Examples.three_paper_idea →
            length (resolved_ids Examples.three_domain_builder pid) = 1%nat)
  ∧ - Q2Qc (1 # 1000000000)
    ≤ Py.sum (belongs_to_weights Examples.three_domain_builder Examples.three_paper_idea) - 1
  ∧ Py.sum (belongs_to_weights Examples.three_domain_builder Examples.three_paper_idea) - 1
    ≤ Q2Qc (1 # 1000000000).
Proof.
  assert (Hne : source_paper_ids Examples.three_paper_idea ≠ []) by done.
  assert (Hone : ∀ pid, pid ∈ source_paper_ids Examples.three_paper_idea →
                        length (resolved_ids Examples.three_domain_builder pid) = 1%nat).
  { intros pid Hpid. cbn in Hpid.
    repeat (apply elem_of_cons in Hpid as [->|Hpid]; [reflexivity|]).
    by apply elem_of_nil in Hpid. }
  destruct (belongs_to_weights_fraction Examples.three_domain_builder
              Examples.three_paper_idea Hne) as (_ & _ & _ & _ & _ & _ & Htol).
  destruct (Htol Hone) as (Hlo & Hhi & _).
  split; [exact Hne|]. split; [exact Hone|]. split; [exact Hlo|exact Hhi].
Defined.

(** The three weights of that Idea are the double nearest to one third,
    and their exact sum falls short of 1 by [2 ** -54]. *)
Lemma thirds_sum_below_one :
  belongs_to_weights Examples.three_domain_builder Examples.three_paper_idea
  = [float_div 1 3; float_div 1 3; float_div 1 3]
  ∧ float_div 1 3 = Q2Qc (6004799503160661 # 18014398509481984)
  ∧ Py.sum (belongs_to_weights Examples.three_domain_builder Examples.three_paper_idea)
    = 1 - Q2Qc (1 # 18014398509481984).
Proof. split_and!; compute_done. Qed.

(** A source paper in two Domains gives two weights 1, which sum to 2,
    not within [1e-9] of 1; a source paper that names its Domain twice
    gives the weight 2. *)
Lemma belongs_to_weights_sum_two :
  source_paper_ids Examples.gnn_idea ≠ []
  ∧ belongs_to_weights Examples.two_domain_builder Examples.gnn_idea = [1; 1]
  ∧ Py.sum (belongs_to_weights Examples.two_domain_builder Examples.gnn_idea) = Qc_of_Z 2
  ∧ ¬ (Py.sum (belongs_to_weights Examples.two_domain_builder Examples.gnn_idea) - 1
       ≤ Q2Qc (1 # 1000000000))
  ∧ belongs_to_weights Examples.repeated_domain_builder Examples.gnn_idea = [Qc_of_Z 2].
Proof. split_and!; compute_done. Qed.

End BuildEdgesFacts.

(** ** The refinement engine and its exclusion set *)

Module RefinementFacts.
Import Py Graph Recall Pipeline Spec PyFacts.

Lemma tail_select_unused cfg rp used c :
  tail_select cfg rp used = Some c → c.1.1 ∉ used.
Proof.
  unfold tail_select. intros Hhead.
  apply head_Some_elem_of in Hhead. rewrite sort_asc_perm in Hhead.
  destruct (filter (λ c : Candidate, (c.1.1 ∉ used) ∧ _) _) as [|c' cs] eqn:Hf.
  - rewrite sort_asc_perm in Hhead. by apply list_elem_of_filter in Hhead as [? _].
  - rewrite <- Hf in Hhead. by apply list_elem_of_filter in Hhead as [[? _] _].
Qed.

Lemma head_select_unused cfg rp used c :
  head_select cfg rp used = Some c → c.1.1 ∉ used.
Proof.
  unfold head_select. intros Hhead. apply head_Some_elem_of in Hhead.
  destruct (filter (λ c : Candidate, (c.1.1 ∉ used) ∧ _) _) as [|c' cs] eqn:Hf.
  - destruct (sort_desc snd _) as [|c' cs] eqn:Hs in Hhead.
    + rewrite sort_desc_perm in Hhead. by apply list_elem_of_filter in Hhead as [? _].
    + rewrite <- Hs, sort_desc_perm in Hhead.
      by apply list_elem_of_filter in Hhead as [? _].
  - rewrite <- Hf in Hhead. by apply list_elem_of_filter in Hhead as [[? _] _].
Qed.

(** One [refine] call: a chosen pattern was not in the exclusion set
    and is added to it; a call that chooses none leaves the set alone. *)
Lemma refine_exclusion cfg rp main_issue used :
  match injected_pattern cfg rp main_issue used with
  | Some pid => (pid ∉ used) ∧ (refine cfg rp main_issue used).2 = {[pid]} ∪ used
  | None => (refine cfg rp main_issue used).2 = used
  end.
Proof.
  unfold injected_pattern, refine, _inject_tail_tricks, _inject_head_tricks.
  destruct (String.eqb main_issue "novelty").
  { destruct (tail_select cfg rp used) as [[[pid pinfo] cs]|] eqn:Hsel; cbn; [|done].
    split; [|done]. by apply tail_select_unused in Hsel. }
  destruct (String.eqb main_issue "stability").
  { destruct (head_select cfg rp used) as [[[pid pinfo] cs]|] eqn:Hsel; cbn; [|done].
    split; [|done]. by apply head_select_unused in Hsel. }
  by repeat case_match.
Qed.

Lemma injection_session_invariant cfg rp issues used :
  let out := injection_session cfg rp issues used in
  NoDup out.1 ∧ (∀ pid, pid ∈ out.1 → pid ∉ used) ∧ out.2 = list_to_set out.1 ∪ used.
Proof.
  revert used. induction issues as [|main_issue issues IH]; intros used; cbn.
  - split_and!; [constructor|by intros ? ?%elem_of_nil|set_solver].
  - pose proof (refine_exclusion cfg rp main_issue used) as Hstep.
    destruct (IH (refine cfg rp main_issue used).2) as (Hnd & Hfresh & Hfinal).
    destruct (injected_pattern cfg rp main_issue used) as [pid|]; cbn.
    + destruct Hstep as [Hpid Hused]. rewrite Hused in *.
      split_and!.
      * constructor; [|done]. intros Hin. apply Hfresh in Hin. set_solver.
      * intros p [->|Hin]%elem_of_cons; [done|]. apply Hfresh in Hin. set_solver.
      * rewrite Hfinal. set_solver.
    + rewrite Hstep in *. done.
Qed.

(** C4. In a session of the refinement engine, started with the empty
    exclusion set, a pattern id chosen for a tail or head injection is
    not in the exclusion set when it is chosen and is in it afterwards;
    no id is chosen twice, and after the session the set holds exactly
    the chosen ids: [N] injections, [N] members. *)
Theorem injection_never_repeats (cfg : PipelineConfig) (recalled_patterns : list Recalled)
    (issues : list string) (main_issue : string) (used : gset string) :
  let session := injection_session cfg recalled_patterns issues ∅ in
  (NoDup session.1
   ∧ session.2 = list_to_set session.1
   ∧ size session.2 = length session.1)
  ∧ match injected_pattern cfg recalled_patterns main_issue used with
    | Some pid =>
        (pid ∉ used)
        ∧ pid ∈ (refine cfg recalled_patterns main_issue used).2
        ∧ ∀ next_issue,
            injected_pattern cfg recalled_patterns next_issue
              (refine cfg recalled_patterns main_issue used).2 ≠ Some pid
    | None => (refine cfg recalled_patterns main_issue used).2 = used
    end.
Proof.
  cbn. split.
  - destruct (injection_session_invariant cfg recalled_patterns issues ∅)
      as (Hnd & _ & Hfinal).
    assert (Hset : (injection_session cfg recalled_patterns issues ∅).2
                   = list_to_set (injection_session cfg recalled_patterns issues ∅).1).
    { rewrite Hfinal. set_solver. }
    split_and!; [done|done|].
    rewrite Hset. by apply size_list_to_set.
  - pose proof (refine_exclusion cfg recalled_patterns main_issue used) as Hstep.
    destruct (injected_pattern cfg recalled_patterns main_issue used) as [pid|]; [|done].
    destruct Hstep as [Hpid Hused]. split_and!; [done|set_solver|].
    intros next_issue Hnext.
    pose proof (refine_exclusion cfg recalled_patterns next_issue
                  (refine cfg recalled_patterns main_issue used).2) as Hstep'.
    rewrite Hnext in Hstep'. destruct Hstep' as [Hnot _]. set_solver.
Qed.

End RefinementFacts.

(** ** [RAGVerifier] *)

Module VerifierFacts.
Import Py Graph Recall Pipeline Spec PyFacts RatioFacts.

(** *** The running maximum *)

Lemma max2_ge_l (a b : Qc) : a ≤ max2 a b.
Proof. unfold max2. case_bool_decide; [by apply Qclt_le_weak|done]. Qed.

Lemma max2_ge_r (a b : Qc) : b ≤ max2 a b.
Proof. unfold max2. case_bool_decide as H; [done|by apply Qcnot_lt_le]. Qed.

Lemma max_fold_ge_init (a : Qc) (l : list Qc) : a ≤ foldl max2 a l.
Proof.
  revert a. induction l as [|x l IH]; intros a; cbn; [done|].
  etrans; [apply (max2_ge_l a x)|apply IH].
Qed.

Lemma max_fold_ge (a : Qc) (l : list Qc) x : x ∈ l → x ≤ foldl max2 a l.
Proof.
  revert a. induction l as [|y l IH]; intros a Hin; [by apply elem_of_nil in Hin|].
  cbn. apply elem_of_cons in Hin as [->|Hin]; [|by apply IH].
  etrans; [apply (max2_ge_r a y)|apply max_fold_ge_init].
Qed.

Lemma max_fold_in (a : Qc) (l : list Qc) : foldl max2 a l = a ∨ foldl max2 a l ∈ l.
Proof.
  revert a. induction l as [|y l IH]; intros a; cbn; [by left|].
  destruct (IH (max2 a y)) as [Heq|Hin]; [|right; by right].
  rewrite Heq. unfold max2. case_bool_decide; [right; left|by left].
Qed.

Lemma max_fold_bound (a b : Qc) (l : list Qc) :
  a ≤ b → Forall (λ x, x ≤ b) l → foldl max2 a l ≤ b.
Proof.
  intros Ha Hl. destruct (max_fold_in a l) as [->|Hin]; [done|].
  rewrite Forall_forall in Hl. by apply Hl.
Qed.

Lemma filter_none {A} (P : A → Prop) `{∀ x, Decision (P x)} (l : list A) :
  Forall (λ x, ¬ P x) l → filter P l = [].
Proof.
  induction 1 as [|x l Hx _ IH]; [done|].
  by rewrite filter_cons, decide_False.
Qed.

(** *** The Jaccard similarity *)

Lemma token_set_nonempty_truthy (t : text) : token_set t ≠ ∅ → truthy t = true.
Proof. destruct t; [|done]. intros H. by contradiction H. Qed.

Lemma similarity_identical (t : text) : token_set t ≠ ∅ → _compute_similarity t t = 1.
Proof.
  intros Hne. unfold _compute_similarity.
  rewrite !bool_decide_eq_false_2 by done. cbn.
  rewrite intersection_idemp_L, union_idemp_L.
  apply ratio_self. apply Nat.neq_0_lt_0, size_non_empty_iff.
  intros Hempty. by apply Hne, leibniz_equiv.
Qed.

Lemma similarity_disjoint (t1 t2 : text) :
  token_set t1 ## token_set t2 → _compute_similarity t1 t2 = 0.
Proof.
  intros Hdisj. unfold _compute_similarity. case_match; [done|].
  apply disjoint_intersection_L in Hdisj. rewrite Hdisj, size_empty.
  apply ratio_zero.
Qed.

Lemma similarity_range (t1 t2 : text) :
  0 ≤ _compute_similarity t1 t2 ≤ 1.
Proof.
  unfold _compute_similarity. case_match; [done|].
  split; [apply ratio_nonneg|].
  apply ratio_le_1, subseteq_size. set_solver.
Qed.

(** *** The scan of [verify] *)

Lemma verify_scan_from (method : text) (l : list Paper) (acc : list SimilarPaper * Qc) :
  foldl (verify_step method) acc l
  = let recs := record_of method
                  <$> filter (λ p, truthy (method_story p) = true
                                   ∧ Q2Qc (3 # 10) < _compute_similarity method (method_story p))
                             l in
    (acc.1 ++ recs, foldl max2 acc.2 (similarity <$> recs)).
Proof.
  revert acc. induction l as [|p l IH]; intros [recs m].
  - cbn. by rewrite app_nil_r.
  - cbn [foldl]. rewrite IH, filter_cons. unfold verify_step.
    destruct (truthy (method_story p)) eqn:Htruthy; cbn [negb].
    + case_bool_decide as Hsim.
      * rewrite decide_True by done. cbn. by rewrite <- app_assoc.
      * rewrite decide_False by (by intros [_ ?]). done.
    + rewrite decide_False by (by intros [? _]). done.
Qed.

Lemma verify_scan_recorded (method : text) (papers : list Paper) :
  verify_scan method papers
  = (recorded method papers, max_from_zero (similarity <$> recorded method papers)).
Proof. unfold verify_scan. by rewrite verify_scan_from. Qed.

Lemma recorded_similarities (method : text) (papers : list Paper) :
  similarity <$> recorded method papers
  = filter (λ s, Q2Qc (3 # 10) < s) (sampled_similarities method papers).
Proof.
  unfold recorded, sampled_similarities.
  induction (take 50 papers) as [|p l IH]; [done|].
  rewrite !filter_cons.
  destruct (truthy (method_story p)) eqn:Htruthy.
  - rewrite (decide_True (P := true = true)) by done.
    rewrite (fmap_cons (λ p, _compute_similarity method (method_story p))), filter_cons.
    destruct (decide (Q2Qc (3 # 10) < _compute_similarity method (method_story p))).
    + rewrite decide_True by done. cbn. by rewrite IH.
    + rewrite decide_False by (by intros [_ ?]). done.
  - rewrite (decide_False (P := false = true)) by done.
    rewrite decide_False by (by intros [? _]). done.
Qed.

Lemma verify_max_similarity cfg papers story :
  max_similarity (verify cfg papers story)
  = max_from_zero (filter (λ s, Q2Qc (3 # 10) < s)
                          (sampled_similarities (skeleton_text story) papers)).
Proof.
  unfold verify. rewrite verify_scan_recorded. cbn.
  by rewrite recorded_similarities.
Qed.

Lemma verify_collision cfg papers story :
  collision_detected (verify cfg papers story)
  = bool_decide (COLLISION_THRESHOLD cfg < max_similarity (verify cfg papers story)).
Proof. done. Qed.

Lemma sampled_similarity_of (papers : list Paper) (story : Story) (p : Paper) :
  p ∈ take 50 papers → truthy (method_story p) = true →
  _compute_similarity (skeleton_text story) (method_story p)
  ∈ sampled_similarities (skeleton_text story) papers.
Proof.
  intros Hin Htruthy. unfold sampled_similarities.
  apply (list_elem_of_fmap_2 (λ p, _compute_similarity (skeleton_text story) (method_story p))).
  by apply list_elem_of_filter.
Qed.

(** C10. [verify] records exactly the sampled papers (the first 50, those
    with a method narrative) whose similarity strictly exceeds 0.3 and
    reports the three most similar of them; [max_similarity] is the
    maximum of the recorded similarities from 0.0, so it is 0.0 when no
    sampled similarity exceeds 0.3; and for a collision threshold of at
    least 0.3 the collision flag is the one the unfiltered sample gives. *)
Theorem verify_filters_before_max (cfg : PipelineConfig) (papers : list Paper)
    (story : Story) :
  let method := skeleton_text story in
  let sims := sampled_similarities method papers in
  let result := verify cfg papers story in
  similar_papers result = take 3 (sort_descQ similarity (recorded method papers))
  ∧ Forall (λ sp, Q2Qc (3 # 10) < similarity sp) (similar_papers result)
  ∧ max_similarity result = max_from_zero (filter (λ s, Q2Qc (3 # 10) < s) sims)
  ∧ (Forall (λ s, s ≤ Q2Qc (3 # 10)) sims → max_similarity result = 0)
  ∧ (Q2Qc (3 # 10) ≤ COLLISION_THRESHOLD cfg →
     (collision_detected result = true ↔ Exists (λ s, COLLISION_THRESHOLD cfg < s) sims)).
Proof.
  intros method sims result. subst method sims result. split_and!.
  - unfold verify. by rewrite verify_scan_recorded.
  - unfold verify. rewrite verify_scan_recorded. cbn [similar_papers fst].
    apply Forall_take. rewrite sort_descQ_perm. unfold recorded.
    apply Forall_fmap, Forall_forall. by intros p [[_ ?] _]%list_elem_of_filter.
  - apply verify_max_similarity.
  - intros Hlow. rewrite verify_max_similarity, filter_none; [done|].
    eapply Forall_impl; [exact Hlow|]. intros s Hs. by apply Qcle_not_lt.
  - intros Hthr. rewrite verify_collision, bool_decide_eq_true, verify_max_similarity.
    rewrite Exists_exists. split.
    + intros Hmax.
      destruct (max_fold_in 0 (filter (λ s, Q2Qc (3 # 10) < s)
                  (sampled_similarities (skeleton_text story) papers))) as [Hzero|Hin].
      * unfold max_from_zero in Hmax. rewrite Hzero in Hmax.
        exfalso. apply (Qclt_not_le _ _ Hmax). by etrans; [|exact Hthr].
      * apply list_elem_of_filter in Hin as [_ Hin]. eauto.
    + intros (s & Hin & Hs).
      eapply Qclt_le_trans; [exact Hs|]. apply max_fold_ge, list_elem_of_filter.
      split; [|done]. by eapply Qcle_lt_trans.
Qed.

Lemma sampled_similarities_range (method : text) (papers : list Paper) :
  Forall (λ s, 0 ≤ s ≤ 1) (sampled_similarities method papers).
Proof.
  unfold sampled_similarities. apply Forall_fmap, Forall_forall.
  intros p _. apply similarity_range.
Qed.

(** C9, as amended.  Two identical method descriptions that hold at
    least one token have similarity 1.0, and [verify] declares a collision
    (with maximum similarity 1.0) when such a description is the method
    narrative of a sampled paper and the threshold is below 1, as the
    default 0.75 is; a description without any token has similarity 0.0
    with itself.  Two descriptions without a common token have
    similarity 0.0, and [verify] declares no collision when the draft
    shares no token with any sampled paper. *)
Theorem similarity_identical_or_disjoint :
  (∀ t : text, token_set t ≠ ∅ → _compute_similarity t t = 1)
  ∧ (∀ t : text, token_set t = ∅ → _compute_similarity t t = 0)
  ∧ (∀ (cfg : PipelineConfig) (papers : list Paper) (story : Story) (p : Paper),
       COLLISION_THRESHOLD cfg < 1 →
       p ∈ take 50 papers →
       method_story p = skeleton_text story →
       token_set (skeleton_text story) ≠ ∅ →
       collision_detected (verify cfg papers story) = true
       ∧ max_similarity (verify cfg papers story) = 1)
  ∧ (∀ t1 t2 : text, token_set t1 ## token_set t2 → _compute_similarity t1 t2 = 0)
  ∧ (∀ (cfg : PipelineConfig) (papers : list Paper) (story : Story),
       0 ≤ COLLISION_THRESHOLD cfg →
       (∀ p, p ∈ take 50 papers →
             token_set (skeleton_text story) ## token_set (method_story p)) →
       collision_detected (verify cfg papers story) = false
       ∧ max_similarity (verify cfg papers story) = 0).
Proof.
  split_and!.
  - apply similarity_identical.
  - intros t Hempty. unfold _compute_similarity.
    by rewrite (bool_decide_eq_true_2 (token_set t = ∅)).
  - intros cfg papers story p Hthr Hin Hsame Htokens.
    assert (Hmax : max_similarity (verify cfg papers story) = 1).
    { rewrite verify_max_similarity. apply Qcle_antisym.
      - apply max_fold_bound; [done|].
        apply Forall_forall. intros s [_ Hs]%list_elem_of_filter.
        pose proof (sampled_similarities_range (skeleton_text story) papers) as Hrange.
        rewrite Forall_forall in Hrange. by apply Hrange.
      - apply max_fold_ge, list_elem_of_filter. split; [done|].
        rewrite <- (similarity_identical (skeleton_text story)) by done.
        rewrite <- Hsame at 2. apply sampled_similarity_of; [done|].
        apply token_set_nonempty_truthy. by rewrite Hsame. }
    split; [|done]. rewrite verify_collision, Hmax. by apply bool_decide_eq_true.
  - apply similarity_disjoint.
  - intros cfg papers story Hthr Hdisj.
    assert (Hmax : max_similarity (verify cfg papers story) = 0).
    { rewrite verify_max_similarity, filter_none; [done|].
      unfold sampled_similarities. apply Forall_fmap, Forall_forall.
      intros p [_ Hin]%list_elem_of_filter. cbn.
      by rewrite similarity_disjoint by (by apply Hdisj). }
    split; [|done]. rewrite verify_collision, Hmax.
    apply bool_decide_eq_false. by apply Qcle_not_lt.
Qed.

Lemma similarity_identical_or_disjoint_witness :
  _compute_similarity "contrastive learning" "contrastive learning" = 1
  ∧ _compute_similarity " " " " = 0
  ∧ collision_detected
      (verify default_pipeline_config Examples.contrastive_corpus
         (Examples.story_with_method "contrastive learning")) = true
  ∧ _compute_similarity "graph neural network" "contrastive learning" = 0
  ∧ collision_detected
      (verify default_pipeline_config Examples.contrastive_corpus
         (Examples.story_with_method "graph neural network")) = false.
Proof.
  destruct similarity_identical_or_disjoint
    as (Hsame & Hblank & Hcollide & Hdisj & Hclear).
  split_and!.
  - apply Hsame. compute_done.
  - apply Hblank. compute_done.
  - apply (Hcollide default_pipeline_config Examples.contrastive_corpus
             (Examples.story_with_method "contrastive learning")
             (Examples.paper_with_method "paper_0" "contrastive learning")).
    + compute_done.
    + left.
    + reflexivity.
    + compute_done.
  - apply Hdisj. compute_done.
  - apply (Hclear default_pipeline_config Examples.contrastive_corpus
             (Examples.story_with_method "graph neural network")).
    + compute_done.
    + intros p Hin. apply list_elem_of_singleton in Hin as ->. compute_done.
Defined.

(** Two identical descriptions without a token, empty or blank, have
    similarity 0.0, and [verify] declares no collision on them. *)
Lemma blank_descriptions_not_similar :
  _compute_similarity "" "" = 0
  ∧ _compute_similarity " " " " = 0
  ∧ collision_detected
      (verify default_pipeline_config [Examples.paper_with_method "paper_0" " "]
         (Examples.story_with_method " ")) = false
  ∧ max_similarity
      (verify default_pipeline_config [Examples.paper_with_method "paper_0" " "]
         (Examples.story_with_method " ")) = 0.
Proof. split_and!; compute_done. Qed.

Lemma verify_filters_before_max_witness :
  sampled_similarities "alpha beta gamma delta epsilon" Examples.low_overlap_corpus
  = [Q2Qc (1 # 8)]
  ∧ max_similarity
      (verify default_pipeline_config Examples.low_overlap_corpus
         (Examples.story_with_method "alpha beta gamma delta epsilon")) = 0
  ∧ (collision_detected
       (verify default_pipeline_config Examples.low_overlap_corpus
          (Examples.story_with_method "alpha beta gamma delta epsilon")) = true
     ↔ Exists (λ s, COLLISION_THRESHOLD default_pipeline_config < s)
         (sampled_similarities "alpha beta gamma delta epsilon" Examples.low_overlap_corpus)).
Proof.
  destruct (verify_filters_before_max default_pipeline_config Examples.low_overlap_corpus
              (Examples.story_with_method "alpha beta gamma delta epsilon"))
    as (_ & _ & _ & Hzero & Hcollision).
  split_and!.
  - compute_done.
  - apply Hzero. compute_done.
  - apply Hcollision. compute_done.
Defined.

End VerifierFacts.

(** ** The orchestrator *)

Module OrchestratorFacts.
Import Py Graph Recall Pipeline Orchestrator Spec PyFacts.

(** *** The session monad *)

Section Monad.
Context {W : Type}.
Implicit Types (Q : list Event → Prop).

Lemma emits_ret {A} (x : A) Q : Q [] → emits (ret (W:=W) x) Q.
Proof. intros HQ st. exists []. by rewrite app_nil_r. Qed.

Lemma emits_lift {A} (o : option A) Q : Q [] → emits (lift (W:=W) o) Q.
Proof. intros HQ st. exists []. by rewrite app_nil_r. Qed.

Lemma emits_get_used Q : Q [] → emits (get_used (W:=W)) Q.
Proof. intros HQ st. exists []. by rewrite app_nil_r. Qed.

Lemma emits_ask {A} (f : W → A * W) Q : Q [] → emits (ask f) Q.
Proof.
  intros HQ st. exists []. unfold ask. destruct (f (world st)). cbn.
  by rewrite app_nil_r.
Qed.

Lemma emits_emit e Q : Q [e] → emits (emit (W:=W) e) Q.
Proof. intros HQ st. by exists [e]. Qed.

Lemma emits_bind {A B} (m : M W A) (k : A → M W B) Q1 Q2 Q :
  emits m Q1 → (∀ x, emits (k x) Q2) →
  (∀ t1 t2, Q1 t1 → Q2 t2 → Q (t1 ++ t2)) → (∀ t1, Q1 t1 → Q t1) →
  emits (bind m k) Q.
Proof.
  intros Hm Hk Hcat Hstop st. unfold bind.
  destruct (Hm st) as (t1 & Ht1 & HQ1).
  destruct (m st) as [[x|] st1]; cbn in *.
  - destruct (Hk x st1) as (t2 & Ht2 & HQ2).
    exists (t1 ++ t2). split; [|by apply Hcat].
    by rewrite Ht2, Ht1, app_assoc.
  - exists t1. split; [done|by apply Hstop].
Qed.

Lemma emits_weaken {A} (m : M W A) Q Q' :
  emits m Q → (∀ tr, Q tr → Q' tr) → emits m Q'.
Proof. intros Hm HQ st. destruct (Hm st) as (tr & ? & ?). eauto. Qed.

(** Counting critic invocations along a sequence. *)
Lemma critic_calls_app t1 t2 : critic_calls (t1 ++ t2) = (critic_calls t1 + critic_calls t2)%nat.
Proof. unfold critic_calls. by rewrite filter_app, length_app. Qed.

Lemma emits_bind_calls {A B} (m : M W A) (k : A → M W B) (a b : nat) :
  emits m (calls_at_most a) → (∀ x, emits (k x) (calls_at_most b)) →
  emits (bind m k) (calls_at_most (a + b)).
Proof.
  intros Hm Hk. eapply emits_bind; [exact Hm|exact Hk| |]; unfold calls_at_most.
  - intros t1 t2 H1 H2. rewrite critic_calls_app. lia.
  - intros t1 H1. lia.
Qed.

Lemma emits_bind_all {A B} (m : M W A) (k : A → M W B) (P : Event → Prop) :
  emits m (Forall P) → (∀ x, emits (k x) (Forall P)) → emits (bind m k) (Forall P).
Proof.
  intros Hm Hk. eapply emits_bind; [exact Hm|exact Hk| |done].
  intros t1 t2 H1 H2. by apply Forall_app.
Qed.

Lemma emits_bind_silent {A B} (m : M W A) (k : A → M W B) :
  emits m (eq []) → (∀ x, emits (k x) (eq [])) → emits (bind m k) (eq []).
Proof.
  intros Hm Hk. eapply emits_bind; [exact Hm|exact Hk| |done].
  by intros ?? <- <-.
Qed.

Lemma emits_silent {A} (m : M W A) Q : emits m (eq []) → Q [] → emits m Q.
Proof. intros Hm HQ. eapply emits_weaken; [exact Hm|]. by intros ? <-. Qed.

Lemma returns_ret {A} (x : A) (R : A → Prop) : R x → returns (ret (W:=W) x) R.
Proof. intros HR st y [= <-]. done. Qed.

Lemma returns_bind {A B} (m : M W A) (k : A → M W B) (R : B → Prop) :
  (∀ x, returns (k x) R) → returns (bind m k) R.
Proof.
  intros Hk st y. unfold bind. destruct (m st) as [[x|] st1]; [apply Hk|done].
Qed.

Lemma returns_bind_post {A B} (m : M W A) (k : A → M W B) (P : A → Prop) (R : B → Prop) :
  returns m P → (∀ x, P x → returns (k x) R) → returns (bind m k) R.
Proof.
  intros Hm Hk st y. unfold bind. specialize (Hm st).
  destruct (m st) as [[x|] st1]; [|done]. apply Hk. by apply Hm.
Qed.

Lemma returns_weaken {A} (m : M W A) (R R' : A → Prop) :
  returns m R → (∀ x, R x → R' x) → returns m R'.
Proof. intros Hm HR st x Hx. by apply HR, (Hm st). Qed.

Lemma succeeds_ret {A} (x : A) : succeeds (ret (W:=W) x).
Proof. by intros st. Qed.

Lemma succeeds_emit e : succeeds (emit (W:=W) e).
Proof. by intros st. Qed.

Lemma succeeds_ask {A} (f : W → A * W) : succeeds (ask f).
Proof. intros st. unfold ask. by destruct (f (world st)). Qed.

Lemma succeeds_bind {A B} (m : M W A) (k : A → M W B) (P : A → Prop) :
  succeeds m → returns m P → (∀ x, P x → succeeds (k x)) → succeeds (bind m k).
Proof.
  intros Hm HP Hk st. unfold bind. specialize (Hm st). specialize (HP st).
  destruct (m st) as [[x|] st1]; [|by destruct Hm].
  apply Hk. by apply HP.
Qed.

Lemma succeeds_bind_any {A B} (m : M W A) (k : A → M W B) :
  succeeds m → (∀ x, succeeds (k x)) → succeeds (bind m k).
Proof.
  intros Hm Hk. apply (succeeds_bind m k (λ _, True)); [done|by intros ???|by intros].
Qed.


Lemma emits_quiet_calls e n :
  is_critic_call e = false → emits (emit (W:=W) e) (calls_at_most n).
Proof.
  intros He. apply emits_emit. unfold calls_at_most, critic_calls.
  rewrite filter_cons, decide_False by (by rewrite He). cbn. lia.
Qed.

End Monad.

(** *** The critic *)

Lemma min_list_in (x : Qc) (l : list Qc) : min_list x l ∈ x :: l.
Proof.
  revert x. induction l as [|y l IH]; intros x; cbn; [left|].
  specialize (IH (if bool_decide (y < x) then y else x)).
  apply elem_of_cons in IH as [->|IH]; [|by do 2 right].
  case_bool_decide; [right; left|left].
Qed.

Lemma index_of_in (v : Qc) (l : list Qc) :
  v ∈ l → ∃ i, index_of v l = Some i ∧ (i < length l)%nat.
Proof.
  induction l as [|y l IH]; intros Hin; [by apply elem_of_nil in Hin|].
  cbn. case_bool_decide as Hy.
  - exists 0%nat. split; [done|lia].
  - apply elem_of_cons in Hin as [->|Hin]; [done|].
    destruct (IH Hin) as (i & -> & Hi). exists (S i). split; [done|lia].
Qed.

Lemma assemble_review_some (cfg : PipelineConfig) (rs : list Review) :
  rs ≠ [] → is_Some (assemble_review cfg rs).
Proof.
  intros Hne. unfold assemble_review, _diagnose_issue.
  destruct rs as [|r rs]; [done|]. cbn [fmap list_fmap].
  destruct (index_of_in (min_list (score r) (score <$> rs)) (score r :: (score <$> rs)))
    as (i & Hi & Hlt); [apply min_list_in|].
  rewrite Hi. cbn [mbind option_bind].
  destruct (lookup_lt_is_Some_2 (r :: rs) i) as [worst Hworst].
  { cbn in *. by rewrite length_fmap in Hlt. }
  rewrite Hworst. by eexists.
Qed.

Lemma assemble_review_result (cfg : PipelineConfig) (rs : list Review) (r : CriticResult) :
  assemble_review cfg rs = Some r →
  reviews r = rs
  ∧ avg_score r = Py.sum (score <$> rs) / Qc_of_Z (Z.of_nat (length rs))
  ∧ pass r = bool_decide (PASS_SCORE cfg ≤ avg_score r).
Proof.
  unfold assemble_review. destruct (_diagnose_issue rs (score <$> rs)); [|done].
  intros [= <-]. cbn. by rewrite length_fmap.
Qed.

Section Critic.
Context {W : Type}.
Variable llm_review : Story → Reviewer → W → (Qc * text) * W.

Lemma collect_reviews_silent story rs :
  emits (collect_reviews llm_review story rs) (eq []).
Proof.
  induction rs as [|r rs IH]; cbn [collect_reviews]; [by apply emits_ret|].
  apply emits_bind_silent.
  - unfold _single_review. apply emits_bind_silent; [by apply emits_ask|].
    intros sf. by apply emits_ret.
  - intros rv. apply emits_bind_silent; [exact IH|]. intros rest. by apply emits_ret.
Qed.

Lemma collect_reviews_succeeds story rs : succeeds (collect_reviews llm_review story rs).
Proof.
  induction rs as [|r rs IH]; cbn [collect_reviews]; [apply succeeds_ret|].
  apply succeeds_bind_any.
  - unfold _single_review. apply succeeds_bind_any; [apply succeeds_ask|].
    intros sf. apply succeeds_ret.
  - intros rv. apply succeeds_bind_any; [exact IH|]. intros rest. apply succeeds_ret.
Qed.

Lemma collect_reviews_length story rs :
  returns (collect_reviews llm_review story rs) (λ l, length l = length rs).
Proof.
  induction rs as [|r rs IH]; cbn [collect_reviews]; [by apply returns_ret|].
  apply returns_bind. intros rv.
  eapply returns_bind_post; [exact IH|]. intros rest Hrest.
  apply returns_ret. cbn. by rewrite Hrest.
Qed.

(** One [review] is one critic invocation and nothing else. *)
Lemma review_trace cfg story :
  emits (review llm_review cfg story) (eq [CallCritic story]).
Proof.
  unfold review.
  apply (emits_bind _ _ (eq [CallCritic story]) (eq []));
    [by apply emits_emit| |by intros ?? <- <-|by intros ? <-].
  intros _. apply emits_bind_silent; [apply collect_reviews_silent|].
  intros rs. by apply emits_lift.
Qed.

Lemma review_succeeds cfg story : succeeds (review llm_review cfg story).
Proof.
  unfold review. apply succeeds_bind_any; [apply succeeds_emit|]. intros _.
  eapply succeeds_bind; [apply collect_reviews_succeeds|apply collect_reviews_length|].
  intros rs Hlen st. cbn. apply assemble_review_some. by destruct rs.
Qed.

Lemma review_result cfg story :
  returns (review llm_review cfg story)
    (λ r, avg_score r
          = Py.sum (score <$> reviews r) / Qc_of_Z (Z.of_nat (length (reviews r)))
          ∧ pass r = bool_decide (PASS_SCORE cfg ≤ avg_score r)).
Proof.
  unfold review. apply returns_bind. intros _. apply returns_bind. intros rs st r Hr.
  cbn in Hr. apply assemble_review_result in Hr as (-> & ? & ?). done.
Qed.

End Critic.

(** *** The regeneration heuristic *)

Lemma accumulate_grows (injected new_tricks : list text) :
  (length injected ≤ length (accumulate injected new_tricks))%nat.
Proof.
  unfold accumulate. revert injected.
  induction new_tricks as [|t new_tricks IH]; intros injected; cbn; [lia|].
  etrans; [|apply IH]. case_bool_decide; [lia|]. rewrite length_app. lia.
Qed.

Lemma accumulate_nonempty (injected new_tricks : list text) :
  new_tricks ≠ [] → accumulate injected new_tricks ≠ [].
Proof.
  destruct new_tricks as [|t new_tricks]; [done|]. intros _ Hempty.
  pose proof (accumulate_grows
                (if bool_decide (t ∈ injected) then injected else injected ++ [t])
                new_tricks) as Hlen.
  unfold accumulate in *. cbn in Hempty. rewrite Hempty in Hlen.
  case_bool_decide as Hin.
  - destruct injected; [by apply elem_of_nil in Hin|cbn in Hlen; lia].
  - rewrite length_app in Hlen. cbn in Hlen. lia.
Qed.

(** The heuristic is evaluated after the new tricks were appended, so
    it never holds: the list is empty only if nothing was appended. *)
Lemma is_pattern_switch_never (iterations : nat) (main_issue : string)
    (injected new_tricks : list text) :
  is_pattern_switch iterations main_issue (accumulate injected new_tricks) new_tricks = false.
Proof.
  unfold is_pattern_switch.
  destruct (decide (new_tricks = [])) as [->|Hnew].
  - cbn. by rewrite !andb_false_r.
  - rewrite (bool_decide_eq_false_2 (accumulate injected new_tricks = []))
      by (by apply accumulate_nonempty).
    cbn. by rewrite andb_false_r.
Qed.

(** The pattern the stall rule switches to is unused and has the least
    cluster size among all the unused recalled patterns. *)
Lemma least_clustered_unused_least (rp : list Recalled) (used : gset string) pid pinfo :
  least_clustered_unused rp used = Some (pid, pinfo) →
  (pid ∉ used)
  ∧ (∃ s, (pid, pinfo, s) ∈ rp)
  ∧ ∀ r : Recalled, r ∈ rp → r.1.1 ∉ used →
      (cluster_size_or 999 pinfo ≤ cluster_size_or 999 r.1.2)%Z.
Proof.
  unfold least_clustered_unused. intros Hhead.
  apply head_sort_asc_least in Hhead as [Hin Hleast].
  apply list_elem_of_fmap in Hin as ([[pid' pinfo'] s] & [= -> ->] & Hin).
  apply list_elem_of_filter in Hin as [Hunused Hin]. cbn in *.
  split_and!; [done|by eexists|].
  intros r Hr Hfree.
  apply (Hleast (r.1.1, r.1.2)).
  apply (list_elem_of_fmap_2 (λ r : Recalled, (r.1.1, r.1.2))).
  by apply list_elem_of_filter.
Qed.

(** *** The loop *)

Section Loop.
Context {W : Type}.
Variable llm_story : GenMode → GenRequest → W → Story * W.
Variable llm_review : Story → Reviewer → W → (Qc * text) * W.

Lemma generate_trace req :
  emits (generate llm_story req) (eq [CallGenerate (generation_mode req) req]).
Proof.
  unfold generate.
  apply (emits_bind _ _ (eq [CallGenerate (generation_mode req) req]) (eq []));
    [by apply emits_emit| |by intros ?? <- <-|by intros ? <-].
  intros _. apply emits_bind_silent; [by apply emits_ask|].
  intros story. by apply emits_ret.
Qed.





Lemma engine_refine_trace cfg rp main_issue :
  emits (engine_refine (W:=W) cfg rp main_issue) (eq [CallRefine main_issue]).
Proof.
  unfold engine_refine.
  apply (emits_bind _ _ (eq [CallRefine main_issue]) (eq []));
    [by apply emits_emit| |by intros ?? <- <-|by intros ? <-].
  intros _ st. exists []. destruct (refine cfg rp main_issue (used_patterns st)).
  cbn. by rewrite app_nil_r.
Qed.


Lemma stall_check_trace rp iterations history critic_result cur injected :
  emits (stall_check (W:=W) rp iterations history critic_result cur injected)
        (λ tr, tr = [] ∨ ∃ pid, tr = [PrintPatternSwitch pid]).
Proof.
  unfold stall_check. case_match; [|apply emits_ret; by left].
  apply (emits_bind _ _ (eq []) (λ tr, tr = [] ∨ ∃ pid, tr = [PrintPatternSwitch pid]));
    [by apply emits_get_used| |by intros ?? <- ?|intros ? <-; by left].
  intros used. destruct (least_clustered_unused rp used) as [alt|]; [|apply emits_ret; by left].
  apply (emits_bind _ _ (eq [PrintPatternSwitch alt.1]) (eq []));
    [by apply emits_emit| |intros ?? <- <-; right; eauto|intros ? <-; right; eauto].
  intros _. by apply emits_ret.
Qed.





Lemma budget_check_trace cfg ls :
  emits (budget_check (W:=W) cfg ls) (λ tr, tr = [] ∨ tr = [PrintBudgetExhausted]).
Proof.
  unfold budget_check. case_bool_decide; [|apply emits_ret; by left].
  apply (emits_bind _ _ (eq []) (λ tr, tr = [] ∨ tr = [PrintBudgetExhausted]));
    [by apply emits_lift| |by intros ?? <- ?|intros ? <-; by left].
  intros last_review. destruct (pass last_review); cbn.
  - apply emits_ret. by left.
  - apply emits_emit. by right.
Qed.


Lemma run_verify_trace cfg papers story :
  emits (run_verify (W:=W) cfg papers story) (eq [CallVerify story]).
Proof.
  unfold run_verify.
  apply (emits_bind _ _ (eq [CallVerify story]) (eq []));
    [by apply emits_emit| |by intros ?? <- <-|by intros ? <-].
  intros _. by apply emits_ret.
Qed.






Lemma final_report_silent story : emits (final_report (W:=W) story) (eq []).
Proof.
  unfold final_report.
  destruct (story_abstract story) as [[t|]|]; [by apply emits_ret|by apply emits_lift|by apply emits_ret].
Qed.









End Loop.

(** C8. The critique passes exactly when the mean of the reviewer
    scores is at least the pass score; in particular a mean equal to the
    pass score passes. *)
Theorem review_pass_is_inclusive {W : Type}
    (llm_review : Story → Reviewer → W → (Qc * text) * W)
    (cfg : PipelineConfig) (story : Story) (st : Session W) (r : CriticResult) :
  (review llm_review cfg story st).1 = Some r →
  avg_score r = Py.sum (score <$> reviews r) / Qc_of_Z (Z.of_nat (length (reviews r)))
  ∧ (pass r = true ↔ PASS_SCORE cfg ≤ avg_score r)
  ∧ (avg_score r = PASS_SCORE cfg → pass r = true).
Proof.
  intros Hr. apply review_result in Hr as [Havg Hpass].
  split_and!; [done| |].
  - by rewrite Hpass, bool_decide_eq_true.
  - intros Heq. rewrite Hpass, bool_decide_eq_true, Heq. done.
Qed.

Lemma review_pass_is_inclusive_witness :
  ∃ r, Examples.boundary_review.1 = Some r
       ∧ score <$> reviews r = [Qc_of_Z 8; Qc_of_Z 4; Qc_of_Z 9]
       ∧ avg_score r = PASS_SCORE default_pipeline_config
       ∧ pass r = true.
Proof.
  assert (Hscores : (λ r, score <$> reviews r) <$> Examples.boundary_review.1
                    = Some [Qc_of_Z 8; Qc_of_Z 4; Qc_of_Z 9]) by compute_done.
  assert (Havg : avg_score <$> Examples.boundary_review.1
                 = Some (PASS_SCORE default_pipeline_config)) by compute_done.
  destruct Examples.boundary_review.1 as [r|] eqn:Hr; [|done].
  injection Hscores as Hscores. injection Havg as Havg.
  exists r. split_and!; [done|done|done|].
  by apply (review_pass_is_inclusive
              (Examples.scripted_review Examples.scores_8_4_9)
              default_pipeline_config Examples.draft (new_session 0%nat) r Hr).
Defined.



(** With a budget of zero rounds the loop is not entered and the test
    after it reads the last entry of an empty history: the run raises
    before any critic call or verification. *)
Lemma run_zero_budget_raises :
  Examples.zero_budget_run.1 = None
  ∧ kind_of <$> trace Examples.zero_budget_run.2
    = [KGenerate FreshGeneration "pattern_1" false].
Proof. split; vm_compute; reflexivity. Qed.


(** The same session when the answers carry no abstract: the merge of
    the first edit stores [None] for it, the three rounds and the
    verification take place, and the closing report raises. *)
Lemma run_without_abstract_raises :
  Examples.stalled_run.1 = None
  ∧ critic_calls (trace Examples.stalled_run.2) = 3%nat
  ∧ last (kind_of <$> trace Examples.stalled_run.2) = Some KVerify.
Proof. split_and!; vm_compute; reflexivity. Qed.

(** C2, evaluated on the stalled session.  In rounds 2 and 3 the stall
    rule fires and the pattern is switched (to [pattern_3], then to
    [pattern_1]), but the generation that follows is each time the
    incremental edit of the previous story, not a fresh generation: the
    only fresh generation is the initial one. *)
Theorem stall_switch_keeps_editor_call :
  kind_of <$> trace Examples.stalled_run.2
  = [ KGenerate FreshGeneration "pattern_1" false;
      KCritic; KRefine "novelty";
      KGenerate IncrementalRefinement "pattern_1" true;
      KCritic; KSwitch "pattern_3"; KRefine "novelty";
      KGenerate IncrementalRefinement "pattern_3" true;
      KCritic; KSwitch "pattern_1"; KRefine "novelty";
      KGenerate IncrementalRefinement "pattern_1" true;
      KBudgetExhausted; KVerify ]
  ∧ length (filter (λ e, is_fresh_generation e = true) (trace Examples.stalled_run.2)) = 1%nat.
Proof. split; vm_compute; reflexivity. Qed.

End OrchestratorFacts.

(** ** The three similarity functions *)

Module SimilarityFacts.
Import Py Recall PyFacts RatioFacts.

Lemma ratio_eq_1 (n m : nat) : (0 < m)%nat → ratio n m = 1 → n = m.
Proof.
  intros Hm H. unfold ratio in H.
  assert (Hne : Qc_of_Z (Z.of_nat m) ≠ 0) by (by apply Qc_of_nat_nonzero).
  assert (Heq : Qc_of_Z (Z.of_nat n) = Qc_of_Z (Z.of_nat m)).
  { rewrite <- (Qcmult_1_l (Qc_of_Z (Z.of_nat m))), <- H. field. exact Hne. }
  apply Z2Qc_inj in Heq. lia.
Qed.

Lemma ratio_eq_0 (n m : nat) : (0 < m)%nat → ratio n m = 0 → n = 0%nat.
Proof.
  intros Hm H. destruct n as [|n]; [done|].
  pose proof (ratio_pos (S n) m ltac:(lia) Hm) as Hpos.
  rewrite H in Hpos. by apply Qclt_not_le in Hpos.
Qed.

(** The Jaccard index of two finite sets, with the guard of the sources. *)
Lemma jaccard_characterised `{Countable A} (X Y : gset A) :
  let j (X Y : gset A) :=
    if bool_decide (X = ∅) || bool_decide (Y = ∅) then 0
    else ratio (size (X ∩ Y)) (size (X ∪ Y)) in
  j X Y = j Y X
  ∧ 0 ≤ j X Y ≤ 1
  ∧ (j X Y = 1 ↔ X = Y ∧ X ≠ ∅)
  ∧ (j X Y = 0 ↔ X ## Y).
Proof.
  intros j. unfold j. split_and!.
  - rewrite (orb_comm (bool_decide (Y = ∅))).
    by rewrite (comm_L (∩) X Y), (comm_L (∪) X Y).
  - case_match; [done|]. apply ratio_nonneg.
  - case_match; [done|]. apply ratio_le_1, subseteq_size. set_solver.
  - destruct (decide (X = ∅)) as [->|HX].
    { rewrite bool_decide_eq_true_2 by done. cbn. split; [done|]. by intros [_ ?]. }
    destruct (decide (Y = ∅)) as [->|HY].
    { rewrite (bool_decide_eq_true_2 (∅ = ∅)) by done. rewrite orb_true_r.
      split; [done|]. by intros [? _]. }
    rewrite !bool_decide_eq_false_2 by done. cbn.
    assert (Hpos : (0 < size (X ∪ Y))%nat).
    { apply Nat.neq_0_lt_0. intros Hz. apply size_empty_inv in Hz. set_solver. }
    split.
    + intros H1. apply ratio_eq_1 in H1; [|done]. split; [|done].
      assert (Heq : X ∩ Y ≡ X ∪ Y).
      { apply set_subseteq_size_equiv; [set_solver|lia]. }
      apply leibniz_equiv. set_solver.
    + intros [<- _]. rewrite intersection_idemp_L, union_idemp_L.
      apply ratio_self. apply Nat.neq_0_lt_0. intros Hz.
      apply size_empty_inv in Hz. by apply HX, leibniz_equiv.
  - destruct (decide (X = ∅)) as [->|HX].
    { rewrite bool_decide_eq_true_2 by done. cbn. split; [set_solver|done]. }
    destruct (decide (Y = ∅)) as [->|HY].
    { rewrite (bool_decide_eq_true_2 (∅ = ∅)) by done. rewrite orb_true_r.
      split; [set_solver|done]. }
    rewrite !bool_decide_eq_false_2 by done. cbn.
    assert (Hpos : (0 < size (X ∪ Y))%nat).
    { apply Nat.neq_0_lt_0. intros Hz. apply size_empty_inv in Hz. set_solver. }
    split.
    + intros H0. apply ratio_eq_0 in H0; [|done].
      apply size_empty_inv in H0. set_solver.
    + intros Hdisj. apply disjoint_intersection_L in Hdisj.
      rewrite Hdisj, size_empty. apply ratio_zero.
Qed.

Lemma lower_ascii_idemp (c : ascii) : lower_ascii (lower_ascii c) = lower_ascii c.
Proof. destruct c as [[] [] [] [] [] [] [] []]; vm_compute; reflexivity. Qed.

Lemma lower_idemp (t : text) : lower (lower t) = lower t.
Proof. induction t as [|c t IH]; cbn; [done|]. by rewrite lower_ascii_idemp, IH. Qed.

Lemma truthy_lower (t : text) : truthy (lower t) = truthy t.
Proof. by destruct t. Qed.

Lemma char_set_empty_text (t : text) : truthy t = false → char_set t = ∅.
Proof. by destruct t. Qed.

(** X1. The token similarity of RecallSystem is symmetric and lies between 0
    and 1; it is 1 exactly when the two texts have the same non-empty set of
    lower-cased whitespace tokens, and 0 exactly when they share no token. *)
Theorem text_similarity_characterised (t1 t2 : text) :
  _compute_text_similarity t1 t2 = _compute_text_similarity t2 t1
  ∧ 0 ≤ _compute_text_similarity t1 t2 ≤ 1
  ∧ (_compute_text_similarity t1 t2 = 1 ↔ token_set t1 = token_set t2 ∧ token_set t1 ≠ ∅)
  ∧ (_compute_text_similarity t1 t2 = 0 ↔ token_set t1 ## token_set t2).
Proof. apply (jaccard_characterised (token_set t1) (token_set t2)). Qed.

Lemma compute_similarity_jaccard (t1 t2 : text) :
  compute_similarity t1 t2
  = if bool_decide (char_set t1 = ∅) || bool_decide (char_set t2 = ∅) then 0
    else ratio (size (char_set t1 ∩ char_set t2)) (size (char_set t1 ∪ char_set t2)).
Proof.
  unfold compute_similarity.
  destruct (truthy t1) eqn:H1; cbn [negb orb].
  - destruct (truthy t2) eqn:H2; cbn [negb orb]; [done|].
    rewrite (char_set_empty_text t2) by done.
    rewrite (bool_decide_eq_true_2 (∅ = ∅)) by done. by rewrite orb_true_r.
  - rewrite (char_set_empty_text t1) by done.
    by rewrite (bool_decide_eq_true_2 (∅ = ∅)) by done.
Qed.

Lemma demo_similarity_zero (t1 t2 : text) :
  char_set t1 ## char_set t2 → compute_similarity t1 t2 = 0.
Proof.
  intros Hdisj. rewrite compute_similarity_jaccard.
  by apply (jaccard_characterised (char_set t1) (char_set t2)).
Qed.

Lemma text_similarity_zero (t1 t2 : text) :
  token_set t1 ## token_set t2 → _compute_text_similarity t1 t2 = 0.
Proof.
  intros Hdisj. by apply (jaccard_characterised (token_set t1) (token_set t2)).
Qed.

(** X2. The character similarity of the simplified recall is symmetric and
    lies between 0 and 1; it is 1 exactly when the two texts have the same
    non-empty set of lower-cased non-space characters, and 0 exactly when
    they share no such character. *)
Theorem demo_similarity_characterised (t1 t2 : text) :
  compute_similarity t1 t2 = compute_similarity t2 t1
  ∧ 0 ≤ compute_similarity t1 t2 ≤ 1
  ∧ (compute_similarity t1 t2 = 1 ↔ char_set t1 = char_set t2 ∧ char_set t1 ≠ ∅)
  ∧ (compute_similarity t1 t2 = 0 ↔ char_set t1 ## char_set t2).
Proof.
  rewrite !compute_similarity_jaccard.
  apply (jaccard_characterised (char_set t1) (char_set t2)).
Qed.

(** X3. Lower-casing either argument changes none of the three similarity
    functions: the token similarity of RecallSystem, the token similarity of
    RAGVerifier and the character similarity of the simplified recall. *)
Theorem similarity_ignores_case (t1 t2 : text) :
  _compute_text_similarity (lower t1) t2 = _compute_text_similarity t1 t2
  ∧ _compute_text_similarity t1 (lower t2) = _compute_text_similarity t1 t2
  ∧ Pipeline._compute_similarity (lower t1) (lower t2) = Pipeline._compute_similarity t1 t2
  ∧ compute_similarity (lower t1) t2 = compute_similarity t1 t2
  ∧ compute_similarity t1 (lower t2) = compute_similarity t1 t2.
Proof.
  unfold _compute_text_similarity, Pipeline._compute_similarity, compute_similarity,
    token_set, char_set.
  by rewrite !lower_idemp, !truthy_lower.
Qed.

End SimilarityFacts.

(** ** The ranked result of recall *)

Module RankingFacts.
Import Py Graph Recall Spec PyFacts.

(** What the cut of a descending sort keeps: an element is kept, or the
    cut is full and every kept element has a key at least as large. *)
Lemma top_cut {A} (key : A → Qc) (K : nat) (l : list A) (x : A) :
  x ∈ l →
  x ∈ take K (sort_descQ key l)
  ∨ (length (take K (sort_descQ key l)) = K
     ∧ Forall (λ e, key x ≤ key e) (take K (sort_descQ key l))).
Proof.
  intros Hin. rewrite <- (sort_descQ_perm key l) in Hin.
  rewrite <- (take_drop K (sort_descQ key l)) in Hin.
  apply elem_of_app in Hin as [Hin|Hin]; [by left|right].
  split.
  - rewrite length_take. apply Nat.min_l.
    destruct (decide (K ≤ length (sort_descQ key l))%nat); [done|].
    rewrite drop_ge in Hin by lia. by apply elem_of_nil in Hin.
  - apply Forall_forall. intros e He.
    pose proof (sort_descQ_sorted key l) as Hs.
    rewrite <- (take_drop K (sort_descQ key l)) in Hs.
    apply (StronglySorted_app_1_elem_of _ _ _ e x Hs He Hin).
Qed.

Lemma dict_get_is_Some {V} (k : string) (d : dict V) : is_Some (dict_get k d) ↔ k ∈ d.*1.
Proof.
  induction d as [|[k' v] d IH]; cbn.
  - split; [by intros [? ?]|by intros ?%elem_of_nil].
  - destruct (String.eqb_spec k k') as [->|Hne].
    + split; [left|by eexists].
    + rewrite IH. rewrite elem_of_cons. naive_solver.
Qed.

Lemma all_patterns_recalled (path1 path2 path3 : dict Qc) (pid : string) :
  pid ∈ all_patterns path1 path2 path3
  ↔ is_Some (dict_get pid path1) ∨ is_Some (dict_get pid path2)
    ∨ is_Some (dict_get pid path3).
Proof.
  unfold all_patterns. rewrite !elem_of_union, !elem_of_list_to_set, !dict_get_is_Some.
  tauto.
Qed.

Lemma fuse_ids (cfg : RecallConfig) (path1 path2 path3 : dict Qc) :
  ∃ order, order ≡ₚ elements (all_patterns path1 path2 path3)
           ∧ (fuse cfg path1 path2 path3).*1 = take (FINAL_TOP_K cfg) order.
Proof.
  unfold fuse, fuse_in.
  set (scored := (λ pid, (pid, final_score cfg path1 path2 path3 pid))
                   <$> elements (all_patterns path1 path2 path3)).
  exists (sort_descQ snd scored).*1. split.
  - rewrite sort_descQ_perm. unfold scored. rewrite <- list_fmap_compose.
    by rewrite list_fmap_id.
  - by rewrite fmap_take.
Qed.

Lemma recall_results_ids cfg sys path1 path2 path3 :
  (recall_results cfg sys path1 path2 path3).*1.*1 = (fuse cfg path1 path2 path3).*1.
Proof.
  unfold recall_results. rewrite <- !list_fmap_compose. done.
Qed.

Lemma recall_results_scores cfg sys path1 path2 path3 :
  (recall_results cfg sys path1 path2 path3).*2 = (fuse cfg path1 path2 path3).*2.
Proof.
  unfold recall_results. rewrite <- !list_fmap_compose. done.
Qed.

(** X4. The result list of recall names each pattern at most once, names
    only patterns that one of the three paths scored, and has length
    min(FINAL_TOP_K, number of scored patterns): when at most FINAL_TOP_K
    patterns were scored every one of them is returned, and when the three
    paths are empty the result is empty. *)
Theorem recall_ids_distinct_and_recalled
    (cfg : RecallConfig) (sys : RecallSystem) (path1 path2 path3 : dict Qc) :
  let results := recall_results cfg sys path1 path2 path3 in
  let ids := (λ r : string * PatternInfo * Qc, r.1.1) <$> results in
  NoDup ids
  ∧ (∀ pid, pid ∈ ids →
       is_Some (dict_get pid path1) ∨ is_Some (dict_get pid path2)
       ∨ is_Some (dict_get pid path3))
  ∧ length results
    = Nat.min (FINAL_TOP_K cfg) (size (all_patterns path1 path2 path3))
  ∧ ((size (all_patterns path1 path2 path3) ≤ FINAL_TOP_K cfg)%nat →
     ∀ pid, is_Some (dict_get pid path1) ∨ is_Some (dict_get pid path2)
            ∨ is_Some (dict_get pid path3) → pid ∈ ids)
  ∧ (path1 = [] → path2 = [] → path3 = [] → results = []).
Proof.
  intros results ids.
  assert (Hids : ids = (fuse cfg path1 path2 path3).*1).
  { unfold ids, results. rewrite <- (recall_results_ids cfg sys).
    by rewrite <- list_fmap_compose. }
  destruct (fuse_ids cfg path1 path2 path3) as (order & Hperm & Hfuse).
  assert (Hlen : length results
                 = Nat.min (FINAL_TOP_K cfg) (size (all_patterns path1 path2 path3))).
  { transitivity (length ids); [unfold ids; by rewrite length_fmap|].
    rewrite Hids, Hfuse, length_take, Hperm. done. }
  split_and!.
  - rewrite Hids, Hfuse. eapply sublist_NoDup; [|apply sublist_take].
    rewrite Hperm. apply NoDup_elements.
  - intros pid Hpid. apply all_patterns_recalled, elem_of_elements.
    rewrite <- Hperm. rewrite Hids, Hfuse in Hpid.
    eapply elem_of_sublist; [exact Hpid|apply sublist_take].
  - exact Hlen.
  - intros Hsmall pid Hpid. rewrite Hids, Hfuse.
    rewrite take_ge by (rewrite Hperm; exact Hsmall).
    rewrite Hperm. by apply elem_of_elements, all_patterns_recalled.
  - intros -> -> ->. apply length_zero_iff_nil. rewrite Hlen.
    unfold all_patterns. cbn. rewrite !union_empty_l_L, size_empty. lia.
Qed.

(** X5. A pattern scored by some path is either in the result list of
    recall, or the list is full (FINAL_TOP_K entries) and every returned
    score is at least that pattern's fused score. *)
Theorem recall_keeps_best_scores
    (cfg : RecallConfig) (sys : RecallSystem) (path1 path2 path3 : dict Qc)
    (pid : string) :
  is_Some (dict_get pid path1) ∨ is_Some (dict_get pid path2)
    ∨ is_Some (dict_get pid path3) →
  let results := recall_results cfg sys path1 path2 path3 in
  pid ∈ (λ r : string * PatternInfo * Qc, r.1.1) <$> results
  ∨ (length results = FINAL_TOP_K cfg
     ∧ Forall (λ r, final_score cfg path1 path2 path3 pid ≤ r.2) results).
Proof.
  intros Hpid results.
  apply all_patterns_recalled, elem_of_elements in Hpid.
  pose proof (top_cut snd (FINAL_TOP_K cfg)
                ((λ pid, (pid, final_score cfg path1 path2 path3 pid))
                   <$> elements (all_patterns path1 path2 path3))
                (pid, final_score cfg path1 path2 path3 pid)) as Hcut.
  destruct Hcut as [Hkept|[Hfull Hbest]].
  { by apply (list_elem_of_fmap_2 (λ pid, (pid, final_score cfg path1 path2 path3 pid))). }
  - left. unfold results, recall_results, fuse, fuse_in.
    rewrite <- list_fmap_compose.
    by apply (list_elem_of_fmap_2 (λ ps : string * Qc, ps.1)) in Hkept.
  - right. unfold results, recall_results, fuse, fuse_in.
    split; [by rewrite length_fmap|].
    apply Forall_fmap. exact Hbest.
Qed.

Lemma recall_keeps_best_scores_witness :
  is_Some (dict_get "pattern_1"%string RecallExamples.gnn_path1)
  ∧ ("pattern_1"%string
       ∈ (λ r : string * PatternInfo * Qc, r.1.1)
           <$> recall_results default_config Examples.gnn_sys RecallExamples.gnn_path1 [] []
     ∨ (length (recall_results default_config Examples.gnn_sys RecallExamples.gnn_path1 [] [])
          = FINAL_TOP_K default_config
        ∧ Forall (λ r, final_score default_config RecallExamples.gnn_path1 [] [] "pattern_1" ≤ r.2)
            (recall_results default_config Examples.gnn_sys RecallExamples.gnn_path1 [] []))).
Proof.
  assert (Hsome : is_Some (dict_get "pattern_1"%string RecallExamples.gnn_path1))
    by compute_done.
  split; [exact Hsome|].
  apply (recall_keeps_best_scores default_config Examples.gnn_sys
           RecallExamples.gnn_path1 [] [] "pattern_1"%string).
  left. exact Hsome.
Defined.

End RankingFacts.

(** ** The ideas kept by Path 1 *)

Module TopIdeasFacts.
Import Py Graph Recall Spec PyFacts VerifierFacts RankingFacts SimilarityFacts.

(** X6. Path 1 keeps at most K ideas, in descending order of similarity,
    each with a positive similarity to the query; an idea of positive
    similarity that is left out is no more similar than any kept idea, and
    is left out only when K ideas are kept. *)
Theorem top_ideas_most_similar (K : nat) (sim : text → text → Qc) (ideas : list Idea)
    (user_idea : text) :
  let kept := top_ideas K sim ideas user_idea in
  (length kept ≤ K)%nat
  ∧ StronglySorted (desc_by snd) kept
  ∧ Forall (λ e, 0 < e.2
                 ∧ ∃ i, i ∈ ideas ∧ e = (idea_id i, sim user_idea (description i))) kept
  ∧ ∀ i, i ∈ ideas → 0 < sim user_idea (description i) →
      (idea_id i, sim user_idea (description i)) ∈ kept
      ∨ (length kept = K ∧ Forall (λ e, sim user_idea (description i) ≤ e.2) kept).
Proof.
  intros kept. unfold kept, top_ideas. split_and!.
  - rewrite length_take. lia.
  - apply StronglySorted_take_prefix, sort_descQ_sorted.
  - apply Forall_take. rewrite sort_descQ_perm. apply Forall_forall.
    intros e [Hpos Hin]%list_elem_of_filter. split; [done|].
    apply list_elem_of_fmap in Hin as (i & -> & Hi). eauto.
  - intros i Hi Hpos.
    apply (top_cut snd K _ (idea_id i, sim user_idea (description i))).
    apply list_elem_of_filter. split; [done|].
    by apply (list_elem_of_fmap_2 (λ i, (idea_id i, sim user_idea (description i)))).
Qed.

Lemma top_ideas_none (K : nat) (sim : text → text → Qc) (ideas : list Idea)
    (user_idea : text) :
  (∀ i, i ∈ ideas → sim user_idea (description i) = 0) →
  top_ideas K sim ideas user_idea = [].
Proof.
  intros Hzero. unfold top_ideas. rewrite filter_none; [by destruct K|].
  apply Forall_fmap, Forall_forall. intros i Hi. cbn. by rewrite Hzero.
Qed.


End TopIdeasFacts.

(** ** The three slots of [PatternSelector] *)

Module SelectorRules.
Import Py Graph Recall Pipeline PyFacts VerifierFacts SelectorFacts.

(** The first element a filter keeps, and what it skipped before it. *)
Lemma filter_head_split {A} (P : A → Prop) `{∀ x, Decision (P x)} (l : list A) x xs :
  filter P l = x :: xs →
  ∃ l1 l2, l = l1 ++ x :: l2 ∧ Forall (λ y, ¬ P y) l1 ∧ P x.
Proof.
  induction l as [|y l IH]; [done|].
  rewrite filter_cons. destruct (decide (P y)) as [Hy|Hy].
  - intros [= -> _]. exists [], l. by repeat split.
  - intros Hf. destruct (IH Hf) as (l1 & l2 & -> & Hl1 & Hx).
    exists (y :: l1), l2. split_and!; [done|by constructor|done].
Qed.

Lemma filter_nil_iff {A} (P : A → Prop) `{∀ x, Decision (P x)} (l : list A) :
  filter P l = [] ↔ Forall (λ y, ¬ P y) l.
Proof.
  split; [|apply filter_none].
  intros Hf. apply Forall_forall. intros y Hy HP.
  assert (Hin : y ∈ filter P l) by (by apply list_elem_of_filter).
  rewrite Hf in Hin. by apply elem_of_nil in Hin.
Qed.

Lemma sort_asc_nil_iff {A} (key : A → Z) (l : list A) : sort_asc key l = [] ↔ l = [].
Proof.
  split; [|by intros ->].
  intros Hs. pose proof (sort_asc_perm key l) as Hp. rewrite Hs in Hp.
  by apply Permutation_nil_l in Hp.
Qed.

(** The three slots of [select], read back from the dictionary. *)
Lemma select_slots (cfg : PipelineConfig) (rp : list Recalled) :
  let conservative := _select_conservative rp in
  let innovative :=
    _select_innovative cfg rp (match conservative with Some c => [c.1] | None => [] end) in
  let cross_domain :=
    _select_cross_domain rp [fst <$> conservative; fst <$> innovative] in
  dict_get "conservative" (select cfg rp) = conservative
  ∧ dict_get "innovative" (select cfg rp) = innovative
  ∧ dict_get "cross_domain" (select cfg rp) = cross_domain
  ∧ length (select cfg rp)
    = (length (option_list conservative) + length (option_list innovative)
       + length (option_list cross_domain))%nat.
Proof.
  unfold select.
  destruct (_select_conservative rp) as [c|];
    destruct (_select_innovative cfg rp _) as [i|];
    destruct (_select_cross_domain rp _) as [x|]; done.
Qed.

Lemma _select_conservative_head (rp : list Recalled) :
  _select_conservative rp = (λ r : Recalled, (r.1.1, r.1.2)) <$> head rp.
Proof. by destruct rp as [|[[pid pinfo] s] rp]. Qed.

Lemma _select_innovative_none cfg rp exclude :
  _select_innovative cfg rp exclude = None ↔ ∀ r : Recalled, r ∈ rp → r.1.1 ∈ exclude.
Proof.
  unfold _select_innovative.
  destruct (filter (λ c : Recalled, (c.1.1 ∉ exclude) ∧ _) rp) as [|c cs] eqn:Hf.
  - destruct (sort_asc _ _) as [|c cs] eqn:Hs.
    + apply sort_asc_nil_iff, filter_nil_iff in Hs. rewrite Forall_forall in Hs.
      split; [|done]. intros _ r Hr. specialize (Hs r Hr). cbn in Hs.
      by destruct (decide (r.1.1 ∈ exclude)).
    + split; [done|]. intros Hall.
      assert (Hc : c ∈ sort_asc (λ c : Recalled, cluster_size_or 999 c.1.2)
                     (filter (λ c : Recalled, c.1.1 ∉ exclude) rp)).
      { rewrite Hs. left. }
      rewrite sort_asc_perm in Hc. apply list_elem_of_filter in Hc as [Hc Hin].
      by specialize (Hall c Hin).
  - split; [done|]. intros Hall.
    assert (Hc : c ∈ c :: cs) by left.
    rewrite <- Hf in Hc. apply list_elem_of_filter in Hc as [[Hc _] Hin].
    by specialize (Hall c Hin).
Qed.

Lemma _select_cross_domain_none rp exclude :
  _select_cross_domain rp exclude = None ↔ ∀ r : Recalled, r ∈ rp → Some r.1.1 ∈ exclude.
Proof.
  unfold _select_cross_domain.
  destruct (filter _ rp) as [|c cs] eqn:Hf.
  - apply filter_nil_iff in Hf. rewrite Forall_forall in Hf.
    split; [|done]. intros _ r Hr. specialize (Hf r Hr). cbn in Hf.
    by destruct (decide (Some r.1.1 ∈ exclude)).
  - split; [done|]. intros Hall.
    assert (Hc : c ∈ c :: cs) by left.
    rewrite <- Hf in Hc. apply list_elem_of_filter in Hc as [Hc Hin].
    by specialize (Hall c Hin).
Qed.

Lemma _select_innovative_recalled cfg rp exclude pid pinfo :
  _select_innovative cfg rp exclude = Some (pid, pinfo) → ∃ s, (pid, pinfo, s) ∈ rp.
Proof.
  unfold _select_innovative.
  destruct (filter (λ c : Recalled, (c.1.1 ∉ exclude) ∧ _) rp) as [|c cs] eqn:Hf.
  - destruct (sort_asc _ _) as [|c cs] eqn:Hs; [done|].
    intros [= <- <-]. exists c.2.
    assert (Hc : c ∈ sort_asc (λ c : Recalled, cluster_size_or 999 c.1.2)
                   (filter (λ c : Recalled, c.1.1 ∉ exclude) rp)).
    { rewrite Hs. left. }
    rewrite sort_asc_perm in Hc. apply list_elem_of_filter in Hc as [_ Hin].
    by destruct c as [[? ?] ?].
  - intros [= <- <-]. exists c.2.
    assert (Hc : c ∈ c :: cs) by left.
    rewrite <- Hf in Hc. apply list_elem_of_filter in Hc as [_ Hin].
    by destruct c as [[? ?] ?].
Qed.

Lemma _select_cross_domain_first rp exclude pid pinfo :
  _select_cross_domain rp exclude = Some (pid, pinfo) →
  ∃ l1 l2 s, rp = l1 ++ (pid, pinfo, s) :: l2
             ∧ Forall (λ r : Recalled, Some r.1.1 ∈ exclude) l1
             ∧ Some pid ∉ exclude.
Proof.
  unfold _select_cross_domain.
  destruct (filter _ rp) as [|c cs] eqn:Hf; [done|].
  intros [= <- <-]. apply filter_head_split in Hf as (l1 & l2 & -> & Hl1 & Hx).
  exists l1, l2, c.2. split_and!; [by destruct c as [[? ?] ?]| |done].
  eapply Forall_impl; [exact Hl1|]. intros r Hr. cbn in Hr.
  by destruct (decide (Some r.1.1 ∈ exclude)).
Qed.

Lemma _select_conservative_recalled rp pid pinfo :
  _select_conservative rp = Some (pid, pinfo) → ∃ s, (pid, pinfo, s) ∈ rp.
Proof.
  destruct rp as [|[[pid' pinfo'] s] rp]; [done|]. intros [= <- <-]. exists s. left.
Qed.

Lemma recalled_id (rp : list Recalled) pid pinfo s :
  (pid, pinfo, s) ∈ rp → pid ∈@{gset string} list_to_set ((λ r : Recalled, r.1.1) <$> rp).
Proof.
  intros Hin. apply elem_of_list_to_set.
  by apply (list_elem_of_fmap_2 (λ r : Recalled, r.1.1)) in Hin.
Qed.

(** X7. PatternSelector.select fills min(3, number of distinct recalled
    pattern ids) slots; the conservative slot is the first recalled pattern,
    and every filled slot holds a pattern id and info of the recall list. *)
Theorem select_fills_min_three_slots (cfg : PipelineConfig) (recalled_patterns : list Recalled) :
  let selected := select cfg recalled_patterns in
  let ids : gset string := list_to_set ((λ r : Recalled, r.1.1) <$> recalled_patterns) in
  length selected = Nat.min 3 (size ids)
  ∧ dict_get "conservative" selected
    = (λ r : Recalled, (r.1.1, r.1.2)) <$> head recalled_patterns
  ∧ Forall (λ slot, ∃ s, (slot.2.1, slot.2.2, s) ∈ recalled_patterns) selected.
Proof.
  intros selected ids.
  destruct (select_slots cfg recalled_patterns) as (Hc & Hi & Hx & Hlen).
  cbn zeta in *.
  split_and!.
  - unfold selected. rewrite Hlen. clear Hc Hi Hx Hlen.
    destruct (_select_conservative recalled_patterns) as [[c ci]|] eqn:Hcons.
    2:{ destruct recalled_patterns as [|[[? ?] ?] ?]; [done|discriminate]. }
    cbn [fmap option_fmap option_map fst option_list length].
    apply _select_conservative_recalled in Hcons as [sc Hcin%recalled_id]. fold ids in Hcin.
    destruct (_select_innovative cfg recalled_patterns [c]) as [[i ii]|] eqn:Hinn.
    + assert (Hne : i ≠ c).
      { intros ->. apply (_select_innovative_not_excluded _ _ _ _ _ Hinn). left. }
      apply _select_innovative_recalled in Hinn as [si Hiin%recalled_id]. fold ids in Hiin.
      cbn [fmap option_fmap option_map fst option_list length].
      destruct (_select_cross_domain recalled_patterns [Some c; Some i])
        as [[x xi]|] eqn:Hcross.
      * assert (Hnx : x ≠ c ∧ x ≠ i).
        { pose proof (_select_cross_domain_not_excluded _ _ _ _ Hcross) as Hnx.
          split; intros ->; apply Hnx; [left|right; left]. }
        destruct Hnx as [Hxc Hxi].
        apply _select_cross_domain_first in Hcross as (l1 & l2 & sx & Hsplit & _ & _).
        assert (Hxin : x ∈ ids).
        { apply (recalled_id _ x xi sx). rewrite Hsplit. set_solver. }
        assert (Hthree : (3 ≤ size ids)%nat).
        { assert (Hsub : ({[c]} ∪ ({[i]} ∪ {[x]}) : gset string) ⊆ ids) by set_solver.
          apply subseteq_size in Hsub.
          rewrite size_union, size_singleton in Hsub by set_solver.
          rewrite size_union, !size_singleton in Hsub by set_solver.
          exact Hsub. }
        rewrite Nat.min_l by exact Hthree. done.
      * pose proof (proj1 (_select_cross_domain_none _ _) Hcross) as Hall.
        clear Hcross. rename Hall into Hcross.
        assert (Hids : ids = {[c]} ∪ {[i]}).
        { apply set_eq. intros p. split; [|set_solver].
          unfold ids. rewrite elem_of_list_to_set.
          intros (r & -> & Hr)%list_elem_of_fmap. specialize (Hcross r Hr).
          set_solver. }
        rewrite Hids, size_union, !size_singleton by set_solver. done.
    + pose proof (proj1 (_select_innovative_none _ _ _) Hinn) as Hall.
      clear Hinn. rename Hall into Hinn.
      assert (Hids : ids = {[c]}).
      { apply set_eq. intros p. split; [|set_solver].
        unfold ids. rewrite elem_of_list_to_set.
        intros (r & -> & Hr)%list_elem_of_fmap. specialize (Hinn r Hr). set_solver. }
      assert (Hcross : _select_cross_domain recalled_patterns [Some c; None] = None).
      { apply _select_cross_domain_none. intros r Hr. specialize (Hinn r Hr).
        apply list_elem_of_singleton in Hinn as ->. left. }
      cbn [fmap option_fmap option_map]. rewrite Hcross, Hids, size_singleton. done.
  - unfold selected. rewrite Hc. apply _select_conservative_head.
  - apply Forall_forall. intros [slot [pid pinfo]] Hslot. cbn.
    unfold selected, select in Hslot.
    destruct (_select_conservative recalled_patterns) as [[c ci]|] eqn:Hcons;
      destruct (_select_innovative cfg recalled_patterns _) as [[i ii]|] eqn:Hinn;
      destruct (_select_cross_domain recalled_patterns _) as [[x xi]|] eqn:Hcross;
      cbn in Hslot.
    all: try apply _select_conservative_recalled in Hcons as [sc Hcons].
    all: try apply _select_innovative_recalled in Hinn as [si Hinn].
    all: try apply _select_cross_domain_first in Hcross as (l1 & l2 & sx & Hsplit & _ & _).
    all: repeat (apply elem_of_cons in Hslot as [[= _ <- <-]|Hslot]);
      try (by apply elem_of_nil in Hslot).
    all: try (eexists; exact Hcons).
    all: try (eexists; exact Hinn).
    all: try (exists sx; rewrite Hsplit; set_solver).
Qed.

Lemma _select_innovative_rule cfg rp exclude pid pinfo :
  _select_innovative cfg rp exclude = Some (pid, pinfo) →
  let T := INNOVATIVE_CLUSTER_SIZE_THRESHOLD cfg in
  (∃ l1 l2 s, rp = l1 ++ (pid, pinfo, s) :: l2
              ∧ (cluster_size_or 999 pinfo < T)%Z
              ∧ Forall (λ r : Recalled,
                          r.1.1 ∈ exclude ∨ (T ≤ cluster_size_or 999 r.1.2)%Z) l1)
  ∨ ((∀ r : Recalled, r ∈ rp → r.1.1 ∉ exclude → (T ≤ cluster_size_or 999 r.1.2)%Z)
     ∧ ∀ r : Recalled, r ∈ rp → r.1.1 ∉ exclude →
         (cluster_size_or 999 pinfo ≤ cluster_size_or 999 r.1.2)%Z).
Proof.
  intros Hsel T. unfold _select_innovative in Hsel. fold T in Hsel.
  destruct (filter (λ c : Recalled, (c.1.1 ∉ exclude) ∧ _) rp) as [|c cs] eqn:Hf.
  - right. apply filter_nil_iff in Hf. rewrite Forall_forall in Hf. split.
    + intros r Hr Hfree. specialize (Hf r Hr). cbn in Hf. fold T in Hf.
      destruct (Z.le_gt_cases T (cluster_size_or 999 r.1.2)); [done|].
      exfalso. apply Hf. split; [done|lia].
    + destruct (sort_asc _ _) as [|c cs] eqn:Hs in Hsel; [done|].
      injection Hsel as <- <-.
      assert (Hhead : head (sort_asc (λ c : Recalled, cluster_size_or 999 c.1.2)
                        (filter (λ c : Recalled, c.1.1 ∉ exclude) rp)) = Some c)
        by (by rewrite Hs).
      apply head_sort_asc_least in Hhead as [_ Hleast].
      intros r Hr Hfree. apply Hleast. by apply list_elem_of_filter.
  - left. injection Hsel as <- <-.
    apply filter_head_split in Hf as (l1 & l2 & -> & Hl1 & [_ Hx]).
    exists l1, l2, c.2. split_and!; [by destruct c as [[? ?] ?]|done|].
    eapply Forall_impl; [exact Hl1|]. intros r Hr. cbn in Hr. fold T in Hr.
    destruct (decide (r.1.1 ∈ exclude)); [by left|right].
    destruct (Z.le_gt_cases T (cluster_size_or 999 r.1.2)); [done|].
    exfalso. apply Hr. split; [done|lia].
Qed.

(** X8. The innovative slot never holds the top-ranked pattern id. When some
    other recalled pattern has a cluster size (999 when missing) under the
    threshold, the slot holds the first such pattern in recall order;
    otherwise it holds a pattern of the smallest cluster size among the
    other recalled patterns. *)
Theorem innovative_slot_rule (cfg : PipelineConfig) (recalled_patterns : list Recalled)
    (pid : string) (pinfo : PatternInfo) :
  dict_get "innovative" (select cfg recalled_patterns) = Some (pid, pinfo) →
  let top := (λ r : Recalled, r.1.1) <$> head recalled_patterns in
  let T := INNOVATIVE_CLUSTER_SIZE_THRESHOLD cfg in
  let size_of (r : Recalled) := cluster_size_or 999 r.1.2 in
  Some pid ≠ top
  ∧ ((∃ r, r ∈ recalled_patterns ∧ Some r.1.1 ≠ top ∧ (size_of r < T)%Z) →
     (cluster_size_or 999 pinfo < T)%Z
     ∧ ∃ l1 l2 s, recalled_patterns = l1 ++ (pid, pinfo, s) :: l2
                  ∧ Forall (λ r, Some r.1.1 = top ∨ (T ≤ size_of r)%Z) l1)
  ∧ ((∀ r, r ∈ recalled_patterns → Some r.1.1 ≠ top → (T ≤ size_of r)%Z) →
     ∀ r, r ∈ recalled_patterns → Some r.1.1 ≠ top →
          (cluster_size_or 999 pinfo ≤ size_of r)%Z).
Proof.
  intros Hslot top T size_of.
  destruct (select_slots cfg recalled_patterns) as (_ & Hi & _).
  cbn zeta in Hi. rewrite Hi in Hslot. clear Hi.
  destruct (_select_conservative recalled_patterns) as [[c ci]|] eqn:Hcons.
  2:{ destruct recalled_patterns as [|[[? ?] ?] ?]; discriminate. }
  cbn [fst] in Hslot.
  assert (Htop : top = Some c).
  { unfold top. rewrite _select_conservative_head in Hcons.
    destruct (head recalled_patterns) as [[[? ?] ?]|]; [|done].
    cbn in *. by injection Hcons as -> ->. }
  assert (Hex : ∀ p : string, p ∈ [c] ↔ Some p = top).
  { intros p. rewrite Htop, list_elem_of_singleton. split; [by intros ->|by intros [= ->]]. }
  pose proof (_select_innovative_not_excluded _ _ _ _ _ Hslot) as Hne.
  apply _select_innovative_rule in Hslot. fold T in Hslot.
  split_and!.
  - intros Heq. by apply Hne, Hex.
  - intros (r & Hr & Hrtop & Hsmall).
    destruct Hslot as [(l1 & l2 & s & Hsplit & Hniche & Hl1)|[Hnone _]].
    + split; [done|]. exists l1, l2, s. split; [done|].
      eapply Forall_impl; [exact Hl1|]. intros r' [Hr'|Hr']; [left; by apply Hex|by right].
    + exfalso. specialize (Hnone r Hr). unfold size_of in Hsmall.
      assert (r.1.1 ∉ [c]) by (by rewrite Hex). specialize (Hnone ltac:(done)). lia.
  - intros Hall r Hr Hrtop. unfold size_of.
    destruct Hslot as [(l1 & l2 & s & Hsplit & Hniche & Hl1)|[_ Hleast]].
    + exfalso. specialize (Hall (pid, pinfo, s)). unfold size_of in Hall. cbn in Hall.
      assert (Hin : (pid, pinfo, s) ∈ recalled_patterns) by (rewrite Hsplit; set_solver).
      assert (Hpt : Some pid ≠ top) by (intros Heq; by apply Hne, Hex).
      specialize (Hall Hin Hpt). lia.
    + apply Hleast; [done|]. by rewrite Hex.
Qed.

Lemma innovative_slot_rule_witness :
  dict_get "innovative"%string (select default_pipeline_config Examples.three_patterns)
    = Some ("pattern_2"%string, Examples.pattern_info_of "P2" 5)
  ∧ Some "pattern_2"%string ≠ (λ r : Recalled, r.1.1) <$> head Examples.three_patterns.
Proof.
  assert (Hslot : dict_get "innovative"%string
                    (select default_pipeline_config Examples.three_patterns)
                  = Some ("pattern_2"%string, Examples.pattern_info_of "P2" 5))
    by reflexivity.
  split; [exact Hslot|].
  exact (proj1 (innovative_slot_rule default_pipeline_config Examples.three_patterns
                  "pattern_2"%string (Examples.pattern_info_of "P2" 5) Hslot)).
Defined.

(** X9. The cross_domain slot holds the first recalled pattern whose id is
    taken by neither the conservative nor the innovative slot: every pattern
    ranked before it has one of those two ids. *)
Theorem cross_domain_slot_is_next_by_rank (cfg : PipelineConfig)
    (recalled_patterns : list Recalled) (pid : string) (pinfo : PatternInfo) :
  dict_get "cross_domain" (select cfg recalled_patterns) = Some (pid, pinfo) →
  ∃ l1 l2 s,
    recalled_patterns = l1 ++ (pid, pinfo, s) :: l2
    ∧ Forall (λ r : Recalled,
                (fst <$> dict_get "conservative" (select cfg recalled_patterns)) = Some r.1.1
                ∨ (fst <$> dict_get "innovative" (select cfg recalled_patterns))
                  = Some r.1.1) l1.
Proof.
  intros Hslot.
  destruct (select_slots cfg recalled_patterns) as (Hc & Hi & Hx & _).
  cbn zeta in *. rewrite Hx in Hslot. rewrite Hc, Hi.
  apply _select_cross_domain_first in Hslot as (l1 & l2 & s & Hsplit & Hl1 & _).
  exists l1, l2, s. split; [done|].
  eapply Forall_impl; [exact Hl1|]. intros r Hr.
  apply elem_of_cons in Hr as [Hr|Hr]; [by left|].
  apply list_elem_of_singleton in Hr. by right.
Qed.

Lemma cross_domain_slot_is_next_by_rank_witness :
  dict_get "cross_domain"%string (select default_pipeline_config Examples.three_patterns)
    = Some ("pattern_3"%string, Examples.pattern_info_of "P3" 12)
  ∧ ∃ l1 l2 s,
      Examples.three_patterns
        = l1 ++ ("pattern_3"%string, Examples.pattern_info_of "P3" 12, s) :: l2
      ∧ (length l1 ≤ 2)%nat.
Proof.
  assert (Hslot : dict_get "cross_domain"%string
                    (select default_pipeline_config Examples.three_patterns)
                  = Some ("pattern_3"%string, Examples.pattern_info_of "P3" 12))
    by reflexivity.
  split; [exact Hslot|].
  destruct (cross_domain_slot_is_next_by_rank default_pipeline_config
              Examples.three_patterns "pattern_3"%string
              (Examples.pattern_info_of "P3" 12) Hslot) as (l1 & l2 & s & Hsplit & _).
  exists l1, l2, s. split; [exact Hsplit|].
  apply (f_equal length) in Hsplit. rewrite length_app in Hsplit. cbn in Hsplit. lia.
Defined.

End SelectorRules.

(** ** The selection rules of tail and head injection *)

Module InjectionRules.
Import Py Graph Recall Pipeline Spec PyFacts VerifierFacts RefinementFacts SelectorRules.

Lemma insert_desc_sorted {A} (key : A → Z) x l :
  StronglySorted (λ a b, (key b ≤ key a)%Z) l →
  StronglySorted (λ a b, (key b ≤ key a)%Z) (insert_desc key x l).
Proof.
  induction 1 as [|y l Hl IH Hy]; simpl.
  - repeat constructor.
  - destruct (Z.leb_spec (key y) (key x)) as [Hxy|Hxy].
    + constructor; [by constructor|].
      constructor; [done|].
      eapply Forall_impl; [exact Hy|]. intros z Hz. cbn in *. lia.
    + constructor; [done|].
      rewrite insert_desc_perm. constructor; [lia|done].
Qed.

Lemma sort_desc_sorted {A} (key : A → Z) l :
  StronglySorted (λ a b, (key b ≤ key a)%Z) (sort_desc key l).
Proof.
  induction l as [|x l IH]; simpl; [constructor|].
  by apply insert_desc_sorted.
Qed.

Lemma head_sort_desc_greatest {A} (key : A → Z) l x :
  head (sort_desc key l) = Some x → x ∈ l ∧ ∀ y, y ∈ l → (key y ≤ key x)%Z.
Proof.
  intros Hhead. pose proof (sort_desc_sorted key l) as Hsorted.
  pose proof (sort_desc_perm key l) as Hperm.
  destruct (sort_desc key l) as [|z s]; [done|]. injection Hhead as ->.
  split; [rewrite <- Hperm; left|].
  intros y Hy. rewrite <- Hperm in Hy.
  apply StronglySorted_inv in Hsorted as [_ Hall].
  apply elem_of_cons in Hy as [->|Hy]; [lia|].
  rewrite Forall_forall in Hall. by apply Hall.
Qed.

Lemma sort_desc_nil_iff {A} (key : A → Z) (l : list A) : sort_desc key l = [] ↔ l = [].
Proof.
  split; [|by intros ->].
  intros Hs. pose proof (sort_desc_perm key l) as Hp. rewrite Hs in Hp.
  by apply Permutation_nil_l in Hp.
Qed.

(** The ranks a window covers. *)
Lemma elem_of_rank_window (range : nat * nat) (l : list Recalled) (r : Recalled) :
  r ∈ rank_window range l ↔ ∃ i, (range.1 ≤ i ≤ range.2)%nat ∧ l !! i = Some r.
Proof.
  unfold rank_window, slice. rewrite elem_of_take. split.
  - intros (j & Hj & Hlt). rewrite lookup_drop in Hj.
    exists (range.1 + j)%nat. split; [lia|done].
  - intros (i & Hi & Hlook). exists (i - range.1)%nat.
    rewrite lookup_drop. replace (range.1 + (i - range.1))%nat with i by lia.
    split; [done|]. apply lookup_lt_Some in Hlook. lia.
Qed.

Lemma rank_window_recalled (range : nat * nat) (l : list Recalled) (r : Recalled) :
  r ∈ rank_window range l → r ∈ l.
Proof.
  intros (i & _ & Hi)%elem_of_rank_window. by eapply list_elem_of_lookup_2.
Qed.

Lemma elem_of_as_candidates (dflt : Z) (l : list Recalled) (c : Candidate) :
  c ∈ as_candidate dflt <$> l
  ↔ c.2 = cluster_size_or dflt c.1.2 ∧ ∃ s, (c.1.1, c.1.2, s) ∈ l.
Proof.
  rewrite list_elem_of_fmap. split.
  - intros ([[pid pinfo] s] & -> & Hin). cbn. split; [done|by exists s].
  - intros [Hsize [s Hin]]. exists (c.1.1, c.1.2, s). split; [|done].
    destruct c as [[pid pinfo] z]. unfold as_candidate. cbn in *. by rewrite Hsize.
Qed.

(** What [tail_select] picks: from the unused niche patterns of the
    window the one with the least cluster size; without any, the unused
    recalled pattern with the least cluster size. *)
Lemma tail_select_rule cfg rp used c :
  tail_select cfg rp used = Some c →
  let T := INNOVATIVE_CLUSTER_SIZE_THRESHOLD cfg in
  let window := as_candidate 999 <$> rank_window (TAIL_INJECTION_RANK_RANGE cfg) rp in
  let all := as_candidate 999 <$> rp in
  (c ∈ window ∧ (c.1.1 ∉ used) ∧ (c.2 < T)%Z
   ∧ ∀ c' : Candidate, c' ∈ window → c'.1.1 ∉ used → (c'.2 < T)%Z → (c.2 ≤ c'.2)%Z)
  ∨ ((∀ c' : Candidate, c' ∈ window → c'.1.1 ∉ used → (T ≤ c'.2)%Z)
     ∧ c ∈ all ∧ (c.1.1 ∉ used)
     ∧ ∀ c' : Candidate, c' ∈ all → c'.1.1 ∉ used → (c.2 ≤ c'.2)%Z).
Proof.
  intros Hsel T window all. unfold tail_select in Hsel. fold T window all in Hsel.
  destruct (filter (λ c : Candidate, (c.1.1 ∉ used) ∧ (c.2 < T)%Z) window)
    as [|c0 cs] eqn:Hf.
  - right. apply head_sort_asc_least in Hsel as [Hin Hleast].
    rewrite sort_asc_perm in Hin. apply list_elem_of_filter in Hin as [Hfree Hin].
    apply filter_nil_iff in Hf. rewrite Forall_forall in Hf.
    split_and!; [|done|done|].
    + intros c' Hc' Hfree'. specialize (Hf c' Hc').
      destruct (Z.le_gt_cases T c'.2); [done|]. exfalso. apply Hf. split; [done|lia].
    + intros c' Hc' Hfree'. apply Hleast. rewrite sort_asc_perm.
      by apply list_elem_of_filter.
  - left. rewrite <- Hf in Hsel. apply head_sort_asc_least in Hsel as [Hin Hleast].
    apply list_elem_of_filter in Hin as [[Hfree Hniche] Hin].
    split_and!; [done|done|done|].
    intros c' Hc' Hfree' Hniche'. apply Hleast. by apply list_elem_of_filter.
Qed.

Lemma tail_select_none cfg rp used :
  tail_select cfg rp used = None ↔ ∀ r : Recalled, r ∈ rp → r.1.1 ∈ used.
Proof.
  unfold tail_select.
  destruct (filter (λ c : Candidate, (c.1.1 ∉ used) ∧ _) _) as [|c0 cs] eqn:Hf.
  - rewrite head_None, sort_asc_nil_iff, sort_asc_nil_iff, filter_nil_iff, Forall_forall.
    split.
    + intros Hall r Hr. specialize (Hall (as_candidate 999 r)).
      destruct (decide (r.1.1 ∈ used)); [done|]. exfalso. apply Hall; [|done].
      by apply (list_elem_of_fmap_2 (as_candidate 999)).
    + intros Hall c [_ [s Hin]]%elem_of_as_candidates Hfree.
      apply Hfree, (Hall _ Hin).
  - split.
    + rewrite head_None, sort_asc_nil_iff. done.
    + intros Hall. exfalso.
      assert (Hin : c0 ∈ c0 :: cs) by left. rewrite <- Hf in Hin.
      apply list_elem_of_filter in Hin as [[Hfree _] Hin].
      apply list_elem_of_fmap in Hin as (r & -> & Hr%rank_window_recalled).
      apply Hfree, (Hall _ Hr).
Qed.

Lemma tail_instructions_length (pinfo : PatternInfo) :
  (1 ≤ length (tail_instructions pinfo) ≤ 2)%nat.
Proof.
  unfold tail_instructions.
  destruct (omap _ (take 2 (skeleton_examples pinfo))) as [|m ms];
    destruct (tech_tricks pinfo) as [|t ts]; cbn; rewrite ?take_0; cbn; lia.
Qed.

Lemma head_instructions_length (pinfo : PatternInfo) :
  (1 ≤ length (head_instructions pinfo) ≤ 2)%nat.
Proof.
  unfold head_instructions.
  destruct (take 2 (omap _ (take 3 (skeleton_examples pinfo)))) as [|m ms].
  - destruct (omap _ (take 2 (skeleton_examples pinfo))) as [|m ms];
      destruct (tech_tricks pinfo) as [|t ts]; cbn; rewrite ?take_0; cbn; lia.
  - destruct (tech_tricks pinfo) as [|t ts]; cbn; rewrite ?take_0; cbn; lia.
Qed.

(** X10. Tail injection returns between one and three instructions. It
    leaves the set of used patterns unchanged exactly when every recalled
    pattern is already used, and then returns the three fixed generic
    instructions; otherwise it marks one unused recalled pattern as used and
    returns at most two instructions built from that pattern. *)
Theorem tail_injection_falls_back_when_exhausted (cfg : PipelineConfig)
    (recalled_patterns : list Recalled) (used : gset string) :
  let out := _inject_tail_tricks cfg recalled_patterns used in
  (1 ≤ length out.1 ≤ 3)%nat
  ∧ ((∀ r : Recalled, r ∈ recalled_patterns → r.1.1 ∈ used) ↔ out.2 = used)
  ∧ ((∀ r : Recalled, r ∈ recalled_patterns → r.1.1 ∈ used) →
     out.1 = ["引入对比学习负采样优化策略"; "设计多尺度特征融合机制";
              "添加自适应动态权重分配"]%string)
  ∧ (out.2 ≠ used →
     ∃ pid pinfo s, (pid, pinfo, s) ∈ recalled_patterns ∧ (pid ∉ used)
                    ∧ out = (tail_instructions pinfo, {[pid]} ∪ used)
                    ∧ (length out.1 ≤ 2)%nat).
Proof.
  intros out. unfold out, _inject_tail_tricks.
  pose proof (tail_select_none cfg recalled_patterns used) as Hnone.
  destruct (tail_select cfg recalled_patterns used) as [[[pid pinfo] z]|] eqn:Hsel.
  - pose proof (tail_select_unused _ _ _ _ Hsel) as Hfree. cbn in Hfree.
    pose proof (tail_instructions_length pinfo) as Hlen.
    assert (Hchanged : {[pid]} ∪ used ≠ used) by set_solver.
    assert (Hleft : ¬ ∀ r : Recalled, r ∈ recalled_patterns → r.1.1 ∈ used).
    { intros Hall. by apply Hnone in Hall. }
    cbn [fst snd]. split_and!; [lia|lia|done|done|].
    intros _. exists pid, pinfo.
    apply tail_select_rule in Hsel as [(Hin & _)|(_ & Hin & _)].
    + apply elem_of_as_candidates in Hin as [_ [s Hin%rank_window_recalled]].
      exists s. split_and!; [done|done|done|lia].
    + apply elem_of_as_candidates in Hin as [_ [s Hin]].
      exists s. split_and!; [done|done|done|lia].
  - assert (Hall : ∀ r : Recalled, r ∈ recalled_patterns → r.1.1 ∈ used) by (by apply Hnone).
    cbn [fst snd]. split_and!; [cbn; lia|cbn; lia|done|done|done].
Qed.

(** X11. The pattern chosen by tail injection is unused. When the rank
    window holds an unused pattern with a cluster size (999 when missing)
    under the threshold, the choice is such a pattern of least size in the
    window; when it holds none, the choice is an unused pattern of least
    size in the whole recall list. *)
Theorem tail_selection_rule (cfg : PipelineConfig) (recalled_patterns : list Recalled)
    (used : gset string) (pid : string) (pinfo : PatternInfo) (size : Z) :
  tail_select cfg recalled_patterns used = Some (pid, pinfo, size) →
  let T := INNOVATIVE_CLUSTER_SIZE_THRESHOLD cfg in
  let range := TAIL_INJECTION_RANK_RANGE cfg in
  let size_of (r : Recalled) := cluster_size_or 999 r.1.2 in
  let niche (i : nat) (r : Recalled) :=
    (range.1 ≤ i ≤ range.2)%nat ∧ recalled_patterns !! i = Some r
    ∧ (r.1.1 ∉ used) ∧ (size_of r < T)%Z in
  size = cluster_size_or 999 pinfo
  ∧ (pid ∉ used)
  ∧ ((∃ i r, niche i r) →
     (∃ i s, niche i (pid, pinfo, s))
     ∧ ∀ i r, niche i r → (size ≤ size_of r)%Z)
  ∧ ((∀ i r, ¬ niche i r) →
     (∃ s, (pid, pinfo, s) ∈ recalled_patterns)
     ∧ ∀ r, r ∈ recalled_patterns → r.1.1 ∉ used → (size ≤ size_of r)%Z).
Proof.
  intros Hsel T range size_of niche.
  pose proof (tail_select_unused _ _ _ _ Hsel) as Hfree. cbn in Hfree.
  apply tail_select_rule in Hsel. fold T range in Hsel. cbn [fst snd] in Hsel.
  assert (Hwin : ∀ i r, niche i r →
            as_candidate 999 r ∈ as_candidate 999 <$> rank_window range recalled_patterns).
  { intros i r (Hi & Hlook & _). apply (list_elem_of_fmap_2 (as_candidate 999)).
    apply elem_of_rank_window. eauto. }
  destruct Hsel as [(Hin & _ & Hniche & Hleast)|(Hnone & Hin & _ & Hleast)].
  - apply elem_of_as_candidates in Hin as [Hsize [s Hin]]. cbn in Hsize, Hin.
    apply elem_of_rank_window in Hin as (i & Hi & Hlook).
    split_and!; [done|done| |].
    + intros _. split.
      * exists i, s. unfold niche, size_of. cbn. rewrite <- Hsize. done.
      * intros i' r Hr. apply (Hleast (as_candidate 999 r)); [by eapply Hwin|apply Hr|apply Hr].
    + intros Hnone. exfalso. apply (Hnone i (pid, pinfo, s)).
      unfold niche, size_of. cbn. rewrite <- Hsize. done.
  - apply elem_of_as_candidates in Hin as [Hsize [s Hin]]. cbn in Hsize, Hin.
    split_and!; [done|done| |].
    + intros (i & r & Hr). exfalso.
      specialize (Hnone (as_candidate 999 r) (Hwin i r Hr)).
      destruct Hr as (_ & _ & Hfree' & Hsmall). specialize (Hnone Hfree').
      unfold size_of in Hsmall. cbn in Hnone. lia.
    + intros _. split; [by exists s|].
      intros r Hr Hfree'. apply (Hleast (as_candidate 999 r)); [|done].
      by apply (list_elem_of_fmap_2 (as_candidate 999)).
Qed.

Lemma tail_selection_rule_witness :
  tail_select default_pipeline_config Examples.three_patterns ∅
    = Some ("pattern_2"%string, Examples.pattern_info_of "P2" 5, 5%Z)
  ∧ 5%Z = cluster_size_or 999 (Examples.pattern_info_of "P2" 5)
  ∧ "pattern_2"%string ∉ (∅ : gset string).
Proof.
  assert (Hsel : tail_select default_pipeline_config Examples.three_patterns ∅
                 = Some ("pattern_2"%string, Examples.pattern_info_of "P2" 5, 5%Z))
    by reflexivity.
  split; [exact Hsel|].
  destruct (tail_selection_rule default_pipeline_config Examples.three_patterns ∅
              "pattern_2"%string (Examples.pattern_info_of "P2" 5) 5%Z Hsel)
    as (Hsize & Hunused & _).
  split; [exact Hsize|exact Hunused].
Defined.

(** What [head_select] picks: the first unused mature pattern of the
    window; without any, the unused pattern of the first three with the
    greatest cluster size; without any, the same among the next three. *)
Lemma head_select_rule cfg rp used c :
  head_select cfg rp used = Some c →
  let Th := HEAD_INJECTION_CLUSTER_THRESHOLD cfg in
  let window := as_candidate 0 <$> rank_window (HEAD_INJECTION_RANK_RANGE cfg) rp in
  let first3 := as_candidate 0 <$> slice 0 3 rp in
  let next3 := as_candidate 0 <$> slice 3 6 rp in
  let mature (c' : Candidate) := (c'.1.1 ∉ used) ∧ (Th < c'.2)%Z in
  (∃ l1 l2, window = l1 ++ c :: l2 ∧ mature c ∧ Forall (λ c', ¬ mature c') l1)
  ∨ (Forall (λ c', ¬ mature c') window
     ∧ c ∈ first3 ∧ (c.1.1 ∉ used)
     ∧ ∀ c' : Candidate, c' ∈ first3 → c'.1.1 ∉ used → (c'.2 ≤ c.2)%Z)
  ∨ (Forall (λ c', ¬ mature c') window
     ∧ Forall (λ c' : Candidate, c'.1.1 ∈ used) first3
     ∧ c ∈ next3 ∧ (c.1.1 ∉ used)
     ∧ ∀ c' : Candidate, c' ∈ next3 → c'.1.1 ∉ used → (c'.2 ≤ c.2)%Z).
Proof.
  intros Hsel Th window first3 next3 mature. unfold head_select in Hsel.
  fold Th window first3 next3 in Hsel.
  destruct (filter (λ c : Candidate, (c.1.1 ∉ used) ∧ (Th < c.2)%Z) window)
    as [|c0 cs] eqn:Hf.
  - right. apply filter_nil_iff in Hf.
    destruct (sort_desc snd (filter (λ c : Candidate, c.1.1 ∉ used) first3))
      as [|c1 cs1] eqn:Hs1.
    + right. apply sort_desc_nil_iff, filter_nil_iff in Hs1.
      apply head_sort_desc_greatest in Hsel as [Hin Hmax].
      apply list_elem_of_filter in Hin as [Hfree Hin].
      split_and!; [done| |done|done|].
      * eapply Forall_impl; [exact Hs1|]. intros c' Hc'. cbn in Hc'.
        by destruct (decide (c'.1.1 ∈ used)).
      * intros c' Hc' Hfree'. apply Hmax. by apply list_elem_of_filter.
    + left. rewrite <- Hs1 in Hsel.
      apply head_sort_desc_greatest in Hsel as [Hin Hmax].
      apply list_elem_of_filter in Hin as [Hfree Hin].
      split_and!; [done|done|done|].
      intros c' Hc' Hfree'. apply Hmax. by apply list_elem_of_filter.
  - left. injection Hsel as <-.
    apply filter_head_split in Hf as (l1 & l2 & Hsplit & Hl1 & Hc).
    by exists l1, l2.
Qed.

Lemma head_select_none cfg rp used :
  head_select cfg rp used = None
  ↔ Forall (λ r : Recalled,
              r.1.1 ∈ used
              ∨ (cluster_size_or 0 r.1.2 ≤ HEAD_INJECTION_CLUSTER_THRESHOLD cfg)%Z)
           (rank_window (HEAD_INJECTION_RANK_RANGE cfg) rp)
    ∧ Forall (λ r : Recalled, r.1.1 ∈ used) (slice 0 6 rp).
Proof.
  assert (Hsix : slice 0 6 rp = slice 0 3 rp ++ slice 3 6 rp).
  { unfold slice. cbn [drop Nat.sub]. by rewrite take_take_drop. }
  assert (Hunused : ∀ l : list Recalled,
            filter (λ c : Candidate, c.1.1 ∉ used) (as_candidate 0 <$> l) = []
            ↔ Forall (λ r : Recalled, r.1.1 ∈ used) l).
  { intros l. rewrite filter_nil_iff, Forall_fmap. apply Forall_iff. intros r. cbn.
    destruct (decide (r.1.1 ∈ used)); naive_solver. }
  rewrite Hsix, Forall_app. unfold head_select.
  destruct (filter (λ c : Candidate, (c.1.1 ∉ used) ∧ _) _) as [|c0 cs] eqn:Hf.
  - apply filter_nil_iff in Hf. rewrite Forall_fmap in Hf.
    assert (Hwin : Forall (λ r : Recalled,
                r.1.1 ∈ used
                ∨ (cluster_size_or 0 r.1.2 ≤ HEAD_INJECTION_CLUSTER_THRESHOLD cfg)%Z)
              (rank_window (HEAD_INJECTION_RANK_RANGE cfg) rp)).
    { eapply Forall_impl; [exact Hf|]. intros r Hr. cbn in Hr.
      destruct (decide (r.1.1 ∈ used)); [by left|right].
      destruct (Z.le_gt_cases (cluster_size_or 0 r.1.2)
                  (HEAD_INJECTION_CLUSTER_THRESHOLD cfg)); [done|].
      exfalso. apply Hr. split; [done|lia]. }
    destruct (sort_desc snd (filter (λ c : Candidate, c.1.1 ∉ used)
                (as_candidate 0 <$> slice 0 3 rp))) as [|c1 cs1] eqn:Hs1.
    + apply sort_desc_nil_iff, Hunused in Hs1.
      rewrite head_None, sort_desc_nil_iff, Hunused. tauto.
    + split; [done|]. intros (_ & Hfirst & _). apply Hunused in Hfirst.
      rewrite Hfirst in Hs1. discriminate.
  - split; [done|]. intros (Hwin & _). exfalso.
    assert (Hin : c0 ∈ c0 :: cs) by left. rewrite <- Hf in Hin.
    apply list_elem_of_filter in Hin as [[Hfree Hbig] Hin].
    apply list_elem_of_fmap in Hin as (r & -> & Hr).
    rewrite Forall_forall in Hwin. destruct (Hwin r Hr) as [Hused|Hsmall]; [done|].
    cbn in Hbig. lia.
Qed.

(** X12. Head injection returns at most two instructions. It returns none,
    and leaves the set of used patterns unchanged, exactly when the rank
    window holds no unused pattern above the size threshold and the first
    six recalled patterns are all used; otherwise it marks one unused
    recalled pattern as used and returns the instructions built from it. *)
Theorem head_injection_gives_up_when_exhausted (cfg : PipelineConfig)
    (recalled_patterns : list Recalled) (used : gset string) :
  let out := _inject_head_tricks cfg recalled_patterns used in
  let exhausted :=
    Forall (λ r : Recalled,
              r.1.1 ∈ used
              ∨ (cluster_size_or 0 r.1.2 ≤ HEAD_INJECTION_CLUSTER_THRESHOLD cfg)%Z)
           (rank_window (HEAD_INJECTION_RANK_RANGE cfg) recalled_patterns)
    ∧ Forall (λ r : Recalled, r.1.1 ∈ used) (slice 0 6 recalled_patterns) in
  (length out.1 ≤ 2)%nat
  ∧ (out.1 = [] ↔ exhausted)
  ∧ (out.2 = used ↔ exhausted)
  ∧ (¬ exhausted →
     ∃ pid pinfo s, (pid, pinfo, s) ∈ recalled_patterns ∧ (pid ∉ used)
                    ∧ out = (head_instructions pinfo, {[pid]} ∪ used)).
Proof.
  intros out exhausted. unfold out, _inject_head_tricks.
  pose proof (head_select_none cfg recalled_patterns used) as Hnone.
  fold exhausted in Hnone.
  destruct (head_select cfg recalled_patterns used) as [[[pid pinfo] z]|] eqn:Hsel.
  - pose proof (head_select_unused _ _ _ _ Hsel) as Hfree. cbn in Hfree.
    pose proof (head_instructions_length pinfo) as Hlen.
    assert (Hchanged : {[pid]} ∪ used ≠ used) by set_solver.
    assert (Hleft : ¬ exhausted) by (intros Hall; by apply Hnone in Hall).
    cbn [fst snd]. split_and!; [lia| | |].
    + split; [|done]. intros Hnil. rewrite Hnil in Hlen. cbn in Hlen. lia.
    + done.
    + intros _. exists pid, pinfo.
      assert (Hslice : ∀ a b (r : Recalled), r ∈ slice a b recalled_patterns →
                r ∈ recalled_patterns).
      { intros a b r Hr. unfold slice in Hr.
        eapply elem_of_sublist in Hr; [|apply sublist_take].
        eapply elem_of_sublist; [exact Hr|apply sublist_drop]. }
      apply head_select_rule in Hsel
        as [(l1 & l2 & Hsplit & _)|[(_ & Hin & _)|(_ & _ & Hin & _)]].
      * assert (Hin : (pid, pinfo, z) ∈ as_candidate 0
                        <$> rank_window (HEAD_INJECTION_RANK_RANGE cfg) recalled_patterns).
        { rewrite Hsplit. set_solver. }
        apply elem_of_as_candidates in Hin as [_ [s Hin%rank_window_recalled]].
        by exists s.
      * apply elem_of_as_candidates in Hin as [_ [s Hin%Hslice]]. by exists s.
      * apply elem_of_as_candidates in Hin as [_ [s Hin%Hslice]]. by exists s.
  - assert (Hall : exhausted) by (by apply Hnone).
    cbn [fst snd]. split_and!; [cbn; lia|done|done|done].
Qed.

(** X13. The pattern chosen by head injection is unused. When the rank
    window holds an unused pattern with a cluster size (0 when missing)
    above the threshold, the choice is the first such pattern of the window;
    otherwise it is an unused pattern of greatest size among ranks 0-2, or
    among ranks 3-5 when ranks 0-2 are all used. *)
Theorem head_selection_rule (cfg : PipelineConfig) (recalled_patterns : list Recalled)
    (used : gset string) (pid : string) (pinfo : PatternInfo) (size : Z) :
  head_select cfg recalled_patterns used = Some (pid, pinfo, size) →
  let Th := HEAD_INJECTION_CLUSTER_THRESHOLD cfg in
  let window := rank_window (HEAD_INJECTION_RANK_RANGE cfg) recalled_patterns in
  let size_of (r : Recalled) := cluster_size_or 0 r.1.2 in
  let mature (r : Recalled) := (r.1.1 ∉ used) ∧ (Th < size_of r)%Z in
  let greatest_unused_of (l : list Recalled) :=
    (∃ s, (pid, pinfo, s) ∈ l)
    ∧ ∀ r : Recalled, r ∈ l → r.1.1 ∉ used → (size_of r ≤ size)%Z in
  size = cluster_size_or 0 pinfo
  ∧ (pid ∉ used)
  ∧ (Exists mature window →
     ∃ l1 l2 s, window = l1 ++ (pid, pinfo, s) :: l2
                ∧ (Th < size)%Z ∧ Forall (λ r, ¬ mature r) l1)
  ∧ (Forall (λ r, ¬ mature r) window →
     Exists (λ r : Recalled, r.1.1 ∉ used) (slice 0 3 recalled_patterns) →
     greatest_unused_of (slice 0 3 recalled_patterns))
  ∧ (Forall (λ r, ¬ mature r) window →
     Forall (λ r : Recalled, r.1.1 ∈ used) (slice 0 3 recalled_patterns) →
     greatest_unused_of (slice 3 6 recalled_patterns)).
Proof.
  intros Hsel Th window size_of mature greatest_unused_of.
  pose proof (head_select_unused _ _ _ _ Hsel) as Hfree. cbn in Hfree.
  apply head_select_rule in Hsel. fold Th window in Hsel. cbn [fst snd] in Hsel.
  assert (Hmature : ∀ l : list Recalled,
            Forall (λ c' : Candidate, ¬ ((c'.1.1 ∉ used) ∧ (Th < c'.2)%Z))
                   (as_candidate 0 <$> l)
            ↔ Forall (λ r, ¬ mature r) l).
  { intros l. by rewrite Forall_fmap. }
  assert (Hgreatest : ∀ l : list Recalled,
            (pid, pinfo, size) ∈ as_candidate 0 <$> l →
            (∀ c' : Candidate, c' ∈ as_candidate 0 <$> l → c'.1.1 ∉ used → (c'.2 ≤ size)%Z) →
            size = cluster_size_or 0 pinfo ∧ greatest_unused_of l).
  { intros l [Hsize Hin]%elem_of_as_candidates Hmax. split; [done|]. split; [done|].
    intros r Hr Hfree'. apply (Hmax (as_candidate 0 r)); [|done].
    by apply (list_elem_of_fmap_2 (as_candidate 0)). }
  destruct Hsel as [(l1 & l2 & Hsplit & [_ Hbig] & Hl1)
                   |[(Hnone & Hin & _ & Hmax)|(Hnone & Hfirst & Hin & _ & Hmax)]].
  - apply fmap_app_inv in Hsplit as (k1 & k2' & -> & Hk2 & Hwin).
    symmetry in Hk2. apply fmap_cons_inv in Hk2 as (r & k2 & Hr & -> & ->).
    destruct r as [[pid' pinfo'] s]. injection Hr as <- <- Hsize.
    apply Hmature in Hl1.
    split_and!; [done|done| | |].
    + intros _. exists k1, k2, s. split_and!; [done|done|done].
    + intros Hno. exfalso. rewrite Hwin in Hno.
      apply Forall_app in Hno as [_ Hno]. apply Forall_cons in Hno as [Hno _].
      apply Hno. split; [done|]. unfold size_of. cbn. by rewrite <- Hsize.
    + intros Hno. exfalso. rewrite Hwin in Hno.
      apply Forall_app in Hno as [_ Hno]. apply Forall_cons in Hno as [Hno _].
      apply Hno. split; [done|]. unfold size_of. cbn. by rewrite <- Hsize.
  - apply Hmature in Hnone. destruct (Hgreatest _ Hin Hmax) as [Hsize Hg].
    split_and!; [done|done| |done|].
    + intros Hex. exfalso. apply Exists_exists in Hex as (r & Hr & Hm).
      rewrite Forall_forall in Hnone. by apply (Hnone r Hr).
    + intros _ Hused. exfalso. destruct Hg as [[s Hs] _].
      rewrite Forall_forall in Hused. by apply Hfree, (Hused _ Hs).
  - apply Hmature in Hnone. destruct (Hgreatest _ Hin Hmax) as [Hsize Hg].
    split_and!; [done|done| | |done].
    + intros Hex. exfalso. apply Exists_exists in Hex as (r & Hr & Hm).
      rewrite Forall_forall in Hnone. by apply (Hnone r Hr).
    + intros _ Hex. exfalso. apply Exists_exists in Hex as (r & Hr & Hm).
      rewrite Forall_fmap, Forall_forall in Hfirst. by apply Hm, (Hfirst r Hr).
Qed.

Lemma head_selection_rule_witness :
  head_select default_pipeline_config Examples.three_patterns ∅
    = Some ("pattern_1"%string, Examples.pattern_info_of "P1" 30, 30%Z)
  ∧ 30%Z = cluster_size_or 0 (Examples.pattern_info_of "P1" 30)
  ∧ "pattern_1"%string ∉ (∅ : gset string).
Proof.
  assert (Hsel : head_select default_pipeline_config Examples.three_patterns ∅
                 = Some ("pattern_1"%string, Examples.pattern_info_of "P1" 30, 30%Z))
    by reflexivity.
  split; [exact Hsel|].
  destruct (head_selection_rule default_pipeline_config Examples.three_patterns ∅
              "pattern_1"%string (Examples.pattern_info_of "P1" 30) 30%Z Hsel)
    as (Hsize & Hunused & _).
  split; [exact Hsize|exact Hunused].
Defined.

Lemma size_list_to_set_length (l : list string) :
  (size (list_to_set (C := gset string) l) ≤ length l)%nat.
Proof.
  induction l as [|x l IH]; cbn [list_to_set length]; [by rewrite size_empty|].
  rewrite size_union_alt, size_singleton.
  assert (size (list_to_set (C := gset string) l ∖ {[x]})
          ≤ size (list_to_set (C := gset string) l))%nat
    by (apply subseteq_size; set_solver).
  lia.
Qed.

Lemma injected_pattern_recalled cfg rp main_issue used pid :
  injected_pattern cfg rp main_issue used = Some pid →
  pid ∈ (λ r : Recalled, r.1.1) <$> rp.
Proof.
  unfold injected_pattern.
  assert (Hcand : ∀ dflt (c : Candidate) (l : list Recalled),
            c ∈ as_candidate dflt <$> l → (∀ r, r ∈ l → r ∈ rp) →
            c.1.1 ∈ (λ r : Recalled, r.1.1) <$> rp).
  { intros dflt c l [_ [s Hin]]%elem_of_as_candidates Hsub.
    apply Hsub in Hin. by apply (list_elem_of_fmap_2 (λ r : Recalled, r.1.1)) in Hin. }
  assert (Hslice : ∀ a b (r : Recalled), r ∈ slice a b rp → r ∈ rp).
  { intros a b r Hr. unfold slice in Hr.
    eapply elem_of_sublist in Hr; [|apply sublist_take].
    eapply elem_of_sublist; [exact Hr|apply sublist_drop]. }
  destruct (String.eqb main_issue "novelty").
  { destruct (tail_select cfg rp used) as [c|] eqn:Hsel; [|done].
    intros [= <-]. apply tail_select_rule in Hsel as [(Hin & _)|(_ & Hin & _)].
    - eapply Hcand; [exact Hin|]. intros r. apply rank_window_recalled.
    - eapply Hcand; [exact Hin|]. done. }
  destruct (String.eqb main_issue "stability"); [|done].
  destruct (head_select cfg rp used) as [c|] eqn:Hsel; [|done].
  intros [= <-].
  apply head_select_rule in Hsel
    as [(l1 & l2 & Hsplit & _)|[(_ & Hin & _)|(_ & _ & Hin & _)]].
  - eapply (Hcand 0%Z c (rank_window (HEAD_INJECTION_RANK_RANGE cfg) rp)).
    + rewrite Hsplit. set_solver.
    + intros r. apply rank_window_recalled.
  - eapply Hcand; [exact Hin|]. apply Hslice.
  - eapply Hcand; [exact Hin|]. apply Hslice.
Qed.

(** X14. Over any sequence of diagnosed issues, starting with no pattern
    used, every injected pattern comes from the recall list and the number
    of injections that use a pattern is at most the number of distinct
    recalled pattern ids. *)
Theorem injections_bounded_by_recall_list (cfg : PipelineConfig)
    (recalled_patterns : list Recalled) (issues : list string) :
  let session := injection_session cfg recalled_patterns issues ∅ in
  let ids : gset string := list_to_set ((λ r : Recalled, r.1.1) <$> recalled_patterns) in
  (∀ pid, pid ∈ session.1 → pid ∈ ids)
  ∧ session.2 ⊆ ids
  ∧ (length session.1 ≤ size ids)%nat
  ∧ (length session.1 ≤ length recalled_patterns)%nat.
Proof.
  intros session ids.
  assert (Hsub : ∀ used, ∀ pid, pid ∈ (injection_session cfg recalled_patterns issues used).1
                          → pid ∈ ids).
  { induction issues as [|main_issue issues IH]; intros used pid; cbn.
    - by intros ?%elem_of_nil.
    - intros [Hin|Hin]%elem_of_app; [|by eapply IH].
      destruct (injected_pattern cfg recalled_patterns main_issue used) as [p|] eqn:Hp;
        cbn in Hin; [|by apply elem_of_nil in Hin].
      apply list_elem_of_singleton in Hin as ->.
      apply injected_pattern_recalled in Hp. by apply elem_of_list_to_set. }
  destruct (injection_session_invariant cfg recalled_patterns issues ∅)
    as (Hnd & _ & Hfinal).
  fold session in Hnd, Hfinal.
  assert (Hsize : (length session.1 ≤ size ids)%nat).
  { rewrite <- (size_list_to_set (C := gset string) session.1) by done.
    apply subseteq_size. intros pid Hpid%elem_of_list_to_set. by eapply Hsub. }
  split_and!; [apply Hsub| |done|].
  - rewrite Hfinal. intros pid Hpid. apply (Hsub ∅). set_solver.
  - etrans; [exact Hsize|]. unfold ids.
    etrans; [apply size_list_to_set_length|]. by rewrite length_fmap.
Qed.

End InjectionRules.

(** ** The diagnosis of [MultiAgentCritic] *)

Module CriticFacts.
Import Py Graph Recall Pipeline Orchestrator Spec PyFacts RatioFacts OrchestratorFacts.

(** The minimum of a list, as [min_list] folds it. *)
Lemma min_list_le (x : Qc) (l : list Qc) : min_list x l ≤ x ∧ Forall (λ y, min_list x l ≤ y) l.
Proof.
  revert x. induction l as [|y l IH]; intros x; cbn; [by split|].
  destruct (IH (if bool_decide (y < x) then y else x)) as [Hle Hall].
  case_bool_decide as Hyx.
  - split; [etrans; [exact Hle|by apply Qclt_le_weak]|by constructor].
  - split; [done|]. constructor; [|done].
    etrans; [exact Hle|]. by apply Qcnot_lt_le.
Qed.

Lemma index_of_first (v : Qc) (l : list Qc) (i : nat) :
  index_of v l = Some i ↔ l !! i = Some v ∧ ∀ j y, (j < i)%nat → l !! j = Some y → y ≠ v.
Proof.
  revert i. induction l as [|y l IH]; intros i; cbn.
  - split; [done|]. by intros [? _].
  - case_bool_decide as Hy.
    + subst y. split.
      * intros [= <-]. split; [done|]. intros j y Hj. lia.
      * intros [Hi Hfirst]. destruct i as [|i]; [done|].
        exfalso. by apply (Hfirst 0%nat v ltac:(lia)).
    + split.
      * intros Hsome. destruct i as [|i].
        { by destruct (index_of v l). }
        assert (Hidx : index_of v l = Some i).
        { destruct (index_of v l) as [i'|]; [|done]. cbn in Hsome. by injection Hsome as ->. }
        apply IH in Hidx as [Hi Hfirst]. split; [done|].
        intros [|j] y' Hj Hl; [by injection Hl as ->|]. apply (Hfirst j); [lia|done].
      * intros [Hi Hfirst]. destruct i as [|i]; [cbn in Hi; by injection Hi as ->|].
        assert (Hidx : index_of v l = Some i).
        { apply IH. split; [done|]. intros j y' Hj Hl. apply (Hfirst (S j)); [lia|done]. }
        by rewrite Hidx.
Qed.

(** The diagnosis for the three reviewers of [REVIEWERS], in their order. *)
Lemma _diagnose_issue_three (a b c : Review) :
  role a = "Methodology"%string → role b = "Novelty"%string → role c = "Storyteller"%string →
  ∃ d, _diagnose_issue [a; b; c] [score a; score b; score c] = Some d
       ∧ (d.1 = "stability"%string ↔ score a ≤ score b ∧ score a ≤ score c)
       ∧ (d.1 = "novelty"%string ↔ score b < score a ∧ score b ≤ score c)
       ∧ (d.1 = "interpretability"%string ↔ score c < score a ∧ score c < score b)
       ∧ d.1 ≠ "domain_mismatch"%string.
Proof.
  intros Ha Hb Hc. unfold _diagnose_issue.
  set (m := min_list (score a) [score b; score c]).
  destruct (min_list_le (score a) [score b; score c]) as [Hma Hm]. fold m in Hma, Hm.
  apply Forall_cons in Hm as [Hmb Hm]. apply Forall_cons in Hm as [Hmc _].
  assert (Hin : m ∈ [score a; score b; score c]) by apply min_list_in.
  clearbody m.
  destruct (index_of_in _ _ Hin) as (i & Hi & Hlt). rewrite Hi. cbn [mbind option_bind].
  apply index_of_first in Hi as [Hlook Hfirst].
  destruct i as [|[|[|i]]]; cbn in Hlook; [| | |cbn in Hlt; lia].
  - injection Hlook as Hlook. subst m. cbn. rewrite Ha. cbn.
    eexists. split; [done|]. cbn. split_and!; [done| | |done].
    + split; [done|]. intros [Hlt' _]. by apply Qclt_not_le in Hlt'.
    + split; [done|]. intros [Hlt' _]. by apply Qclt_not_le in Hlt'.
  - injection Hlook as Hlook. subst m. cbn. rewrite Hb. cbn.
    assert (Hne : score a ≠ score b) by (apply (Hfirst 0%nat); [lia|done]).
    assert (Hba : score b < score a).
    { apply Qcle_lt_or_eq in Hma as [?|?]; [done|by subst]. }
    eexists. split; [done|]. cbn. split_and!; [|done| |done].
    + split; [done|]. intros [Hle _]. by apply Qclt_not_le in Hba.
    + split; [done|]. intros [_ Hlt']. by apply Qclt_not_le in Hlt'.
  - injection Hlook as Hlook. subst m. cbn. rewrite Hc. cbn.
    assert (Hne : score a ≠ score c) by (apply (Hfirst 0%nat); [lia|done]).
    assert (Hne' : score b ≠ score c) by (apply (Hfirst 1%nat); [lia|done]).
    assert (Hca : score c < score a).
    { apply Qcle_lt_or_eq in Hma as [?|?]; [done|by subst]. }
    assert (Hcb : score c < score b).
    { apply Qcle_lt_or_eq in Hmb as [?|?]; [done|by subst]. }
    eexists. split; [done|]. cbn. split_and!; [| |done|done].
    + split; [done|]. intros [_ Hle]. by apply Qclt_not_le in Hca.
    + split; [done|]. intros [_ Hle]. by apply Qclt_not_le in Hcb.
Qed.

Section Critic.
Context {W : Type}.
Variable llm_review : Story → Reviewer → W → (Qc * text) * W.

Lemma collect_reviews_roles story rs :
  returns (collect_reviews llm_review story rs) (λ l, role <$> l = reviewer_role <$> rs).
Proof.
  induction rs as [|r rs IH]; cbn [collect_reviews]; [by apply returns_ret|].
  unfold _single_review.
  intros st l. unfold bind, ask, ret. destruct (llm_review story r (world st)) as [sf w].
  cbn. specialize (IH {| world := w; trace := trace st; used_patterns := used_patterns st |}).
  destruct (collect_reviews llm_review story rs _) as [[rest|] st'] eqn:Hrest; [|done].
  cbn. intros [= <-]. cbn. f_equal. by apply IH.
Qed.

Lemma review_three cfg story st :
  ∃ r a b c, (review llm_review cfg story st).1 = Some r
    ∧ reviews r = [a; b; c]
    ∧ role a = "Methodology"%string ∧ role b = "Novelty"%string
    ∧ role c = "Storyteller"%string
    ∧ assemble_review cfg [a; b; c] = Some r.
Proof.
  destruct (review_succeeds llm_review cfg story st) as [r Hr].
  assert (Hshape : returns (review llm_review cfg story)
            (λ r, ∃ a b c, reviews r = [a; b; c]
                   ∧ role a = "Methodology"%string ∧ role b = "Novelty"%string
                   ∧ role c = "Storyteller"%string
                   ∧ assemble_review cfg [a; b; c] = Some r)).
  { unfold review. apply returns_bind. intros _.
    eapply returns_bind_post; [apply collect_reviews_roles|].
    intros l Hroles st' r' Hr'. unfold lift in Hr'. cbn [fst] in Hr'.
    destruct l as [|a [|b [|c [|]]]]; try discriminate.
    injection Hroles as Ha Hb Hc.
    pose proof (assemble_review_result _ _ _ Hr') as (Hrs & _).
    by exists a, b, c. }
  destruct (Hshape st r Hr) as (a & b & c & H).
  by exists r, a, b, c.
Qed.

End Critic.

(** X15. A review always returns the three reviews in the order Methodology,
    Novelty, Storyteller. The main issue is that of the lowest score with
    ties going to the earlier reviewer: stability when Methodology is
    lowest, novelty when Novelty is strictly below Methodology and not above
    Storyteller, interpretability when Storyteller is strictly lowest; it is
    never domain_mismatch. *)
Theorem review_diagnoses_lowest_score {W : Type}
    (llm_review : Story → Reviewer → W → (Qc * text) * W)
    (cfg : PipelineConfig) (story : Story) (st : Session W) :
  ∃ r methodology novelty storyteller,
    (review llm_review cfg story st).1 = Some r
    ∧ (λ rv, (role rv, score rv)) <$> reviews r
      = [("Methodology", methodology); ("Novelty", novelty);
         ("Storyteller", storyteller)]%string
    ∧ (main_issue r = "stability"%string
       ↔ methodology ≤ novelty ∧ methodology ≤ storyteller)
    ∧ (main_issue r = "novelty"%string
       ↔ novelty < methodology ∧ novelty ≤ storyteller)
    ∧ (main_issue r = "interpretability"%string
       ↔ storyteller < methodology ∧ storyteller < novelty)
    ∧ main_issue r ≠ "domain_mismatch"%string.
Proof.
  destruct (review_three llm_review cfg story st) as (r & a & b & c & Hr & Hrs & Ha & Hb & Hc & Has).
  exists r, (score a), (score b), (score c). split; [done|].
  split; [rewrite Hrs; cbn; by rewrite Ha, Hb, Hc|].
  destruct (_diagnose_issue_three a b c Ha Hb Hc) as (d & Hd & Hrules).
  unfold assemble_review in Has. cbn [fmap list_fmap] in Has. rewrite Hd in Has.
  cbn [mbind option_bind] in Has. apply (inj Some) in Has.
  rewrite <- Has. exact Hrules.
Qed.

Lemma sum_from (a : Qc) (l : list Qc) : foldl Qcplus a l = a + Py.sum l.
Proof.
  unfold Py.sum. revert a. induction l as [|x l IH]; intros a; cbn; [ring|].
  rewrite IH, (IH (0 + x)). ring.
Qed.

Lemma sum_lower_bound (p : Qc) (l : list Qc) :
  Forall (λ x, p ≤ x) l → p * Qc_of_Z (Z.of_nat (length l)) ≤ Py.sum l.
Proof.
  induction 1 as [|x l Hx _ IH].
  - cbn. change (Z.of_nat 0) with 0%Z. rewrite Z2Qc_inj_0, Qcmult_0_r. done.
  - unfold Py.sum. cbn [foldl length]. rewrite sum_from, Nat2Z.inj_succ, <- Z.add_1_r.
    rewrite Z2Qc_inj_add, Qcmult_plus_distr_r, Z2Qc_inj_1, Qcmult_1_r, Qcplus_0_l.
    rewrite (Qcplus_comm x). by apply Qcplus_le_compat.
Qed.

Lemma sum_upper_bound_le (p : Qc) (l : list Qc) :
  Forall (λ x, x ≤ p) l → Py.sum l ≤ p * Qc_of_Z (Z.of_nat (length l)).
Proof.
  induction 1 as [|x l Hx _ IH].
  - cbn. change (Z.of_nat 0) with 0%Z. rewrite Z2Qc_inj_0, Qcmult_0_r. done.
  - unfold Py.sum. cbn [foldl length]. rewrite sum_from, Nat2Z.inj_succ, <- Z.add_1_r.
    rewrite Z2Qc_inj_add, Qcmult_plus_distr_r, Z2Qc_inj_1, Qcmult_1_r, Qcplus_0_l.
    rewrite (Qcplus_comm x). by apply Qcplus_le_compat.
Qed.

Lemma Qcplus_lt_le_compat (x y z t : Qc) : x < y → z ≤ t → x + z < y + t.
Proof.
  unfold Qclt, Qcle, Qcplus, Q2Qc. cbn. rewrite !Qred_correct.
  apply Qplus_lt_le_compat.
Qed.

Lemma sum_upper_bound (p : Qc) (l : list Qc) :
  l ≠ [] → Forall (λ x, x < p) l → Py.sum l < p * Qc_of_Z (Z.of_nat (length l)).
Proof.
  intros Hne Hall. induction Hall as [|x l Hx Hall IH]; [done|].
  unfold Py.sum. cbn [foldl length]. rewrite sum_from, Nat2Z.inj_succ, <- Z.add_1_r.
  rewrite Z2Qc_inj_add, Qcmult_plus_distr_r, Z2Qc_inj_1, Qcmult_1_r, Qcplus_0_l.
  rewrite (Qcplus_comm x).
  destruct l as [|y l].
  - cbn. change (Z.of_nat 0) with 0%Z. rewrite Z2Qc_inj_0, Qcmult_0_r, !Qcplus_0_l. done.
  - apply Qcplus_lt_le_compat; [by apply IH|by apply Qclt_le_weak].
Qed.

Lemma mean_bounds (p : Qc) (l : list Qc) :
  l ≠ [] →
  (Forall (λ x, p ≤ x) l → p ≤ Py.sum l / Qc_of_Z (Z.of_nat (length l)))
  ∧ (Forall (λ x, x < p) l → Py.sum l / Qc_of_Z (Z.of_nat (length l)) < p).
Proof.
  intros Hne.
  assert (Hlen : (0 < length l)%nat) by (destruct l; [done|cbn; lia]).
  pose proof (Qc_of_nat_pos _ Hlen) as Hpos.
  pose proof (Qc_of_nat_nonzero _ Hlen) as Hnz.
  assert (Hinv : 0 < / Qc_of_Z (Z.of_nat (length l))) by (by apply Qcinv_pos).
  assert (Hp : p = p * Qc_of_Z (Z.of_nat (length l)) / Qc_of_Z (Z.of_nat (length l))).
  { field. exact Hnz. }
  split; intros Hall.
  - rewrite Hp at 1. unfold Qcdiv. apply Qcmult_le_compat_r; [|by apply Qclt_le_weak].
    by apply sum_lower_bound.
  - rewrite Hp at 1. unfold Qcdiv. apply Qcmult_lt_compat_r; [done|].
    by apply sum_upper_bound.
Qed.

Lemma mean_between (lo hi : Qc) (l : list Qc) :
  l ≠ [] → Forall (λ x, lo ≤ x ≤ hi) l →
  lo ≤ Py.sum l / Qc_of_Z (Z.of_nat (length l)) ≤ hi.
Proof.
  intros Hne Hall.
  assert (Hlen : (0 < length l)%nat) by (destruct l; [done|cbn; lia]).
  pose proof (Qc_of_nat_pos _ Hlen) as Hpos.
  pose proof (Qc_of_nat_nonzero _ Hlen) as Hnz.
  assert (Hinv : 0 ≤ / Qc_of_Z (Z.of_nat (length l))) by (by apply Qclt_le_weak, Qcinv_pos).
  assert (Hp : ∀ p, p = p * Qc_of_Z (Z.of_nat (length l)) / Qc_of_Z (Z.of_nat (length l))).
  { intros p. field. exact Hnz. }
  split.
  - rewrite (Hp lo) at 1. unfold Qcdiv. apply Qcmult_le_compat_r; [|done].
    apply sum_lower_bound. eapply Forall_impl; [exact Hall|]. by intros x [? _].
  - rewrite (Hp hi) at 1. unfold Qcdiv. apply Qcmult_le_compat_r; [|done].
    apply sum_upper_bound_le. eapply Forall_impl; [exact Hall|]. by intros x [_ ?].
Qed.

(** X16. A review holds three reviewer scores; when all three are at least
    PASS_SCORE the review passes, and when all three are below PASS_SCORE it
    fails. *)
Theorem unanimous_reviews_decide {W : Type}
    (llm_review : Story → Reviewer → W → (Qc * text) * W)
    (cfg : PipelineConfig) (story : Story) (st : Session W) :
  ∃ r, (review llm_review cfg story st).1 = Some r
       ∧ length (reviews r) = 3%nat
       ∧ (Forall (λ rv, PASS_SCORE cfg ≤ score rv) (reviews r) → pass r = true)
       ∧ (Forall (λ rv, score rv < PASS_SCORE cfg) (reviews r) → pass r = false).
Proof.
  destruct (review_three llm_review cfg story st)
    as (r & a & b & c & Hr & Hrs & _ & _ & _ & Has).
  exists r. split; [done|]. split; [by rewrite Hrs|].
  apply assemble_review_result in Has as (_ & Havg & Hpass).
  rewrite Hrs.
  destruct (mean_bounds (PASS_SCORE cfg) (score <$> [a; b; c])) as [Hlow Hhigh]; [done|].
  rewrite length_fmap in Hlow, Hhigh. rewrite <- Havg in Hlow, Hhigh.
  split; intros Hall.
  - rewrite Hpass. apply bool_decide_eq_true. apply Hlow. by apply Forall_fmap.
  - rewrite Hpass. apply bool_decide_eq_false. apply Qclt_not_le, Hhigh.
    by apply Forall_fmap.
Qed.

End CriticFacts.

(** ** The report of [RAGVerifier] *)

Module VerifierReport.
Import Py Graph Recall Pipeline Spec PyFacts RatioFacts VerifierFacts RankingFacts.

Lemma head_sort_descQ_greatest {A} (key : A → Qc) (l : list A) (x : A) :
  head (sort_descQ key l) = Some x → x ∈ l ∧ ∀ y, y ∈ l → key y ≤ key x.
Proof.
  intros Hhead. pose proof (sort_descQ_sorted key l) as Hsorted.
  pose proof (sort_descQ_perm key l) as Hperm.
  destruct (sort_descQ key l) as [|z s]; [done|]. injection Hhead as ->.
  split; [rewrite <- Hperm; left|].
  intros y Hy. rewrite <- Hperm in Hy.
  apply StronglySorted_inv in Hsorted as [_ Hall].
  apply elem_of_cons in Hy as [->|Hy]; [done|].
  rewrite Forall_forall in Hall. by apply Hall.
Qed.

Lemma recorded_above_threshold (method : text) (papers : list Paper) (sp : SimilarPaper) :
  sp ∈ recorded method papers →
  Q2Qc (3 # 10) < similarity sp ≤ 1
  ∧ ∃ p, p ∈ take 50 papers ∧ truthy (method_story p) = true ∧ sp = record_of method p.
Proof.
  unfold recorded. intros (p & -> & [[Ht Hs] Hp]%list_elem_of_filter)%list_elem_of_fmap.
  split; [|by exists p]. split; [done|]. apply similarity_range.
Qed.

(** The running maximum of the recorded similarities is the similarity of
    the first entry reported. *)
Lemma max_of_recorded (method : text) (papers : list Paper) :
  let m := max_from_zero (similarity <$> recorded method papers) in
  0 ≤ m ≤ 1
  ∧ (recorded method papers = [] ↔ m = 0)
  ∧ ∀ sp, head (sort_descQ similarity (recorded method papers)) = Some sp →
          similarity sp = m.
Proof.
  intros m. unfold m, max_from_zero. split_and!.
  - apply max_fold_ge_init.
  - apply max_fold_bound; [done|]. apply Forall_fmap, Forall_forall.
    intros sp Hsp%recorded_above_threshold. apply Hsp.
  - split; [by intros ->|]. intros Hzero.
    destruct (recorded method papers) as [|sp l] eqn:Hrec; [done|]. exfalso.
    assert (Hin : sp ∈ recorded method papers) by (rewrite Hrec; left).
    apply recorded_above_threshold in Hin as [[Hlow _] _].
    assert (Hge : similarity sp ≤ foldl max2 0 (similarity <$> sp :: l)).
    { apply max_fold_ge. rewrite fmap_cons. left. }
    rewrite Hzero in Hge. apply (Qclt_not_le _ _ Hlow). by etrans.
  - intros sp [Hin Hmax]%head_sort_descQ_greatest.
    apply Qcle_antisym.
    + apply max_fold_ge. by apply (list_elem_of_fmap_2 similarity).
    + destruct (max_fold_in 0 (similarity <$> recorded method papers)) as [Hz|Hm].
      * rewrite Hz. apply recorded_above_threshold in Hin as [[Hlow _] _].
        apply Qclt_le_weak. by etrans; [|exact Hlow].
      * apply list_elem_of_fmap in Hm as (sp' & -> & Hsp'). by apply Hmax.
Qed.

Lemma verify_scan_sampled (method : text) (papers : list Paper) :
  verify_scan method (filter (λ p, truthy (method_story p) = true) (take 50 papers))
  = verify_scan method papers.
Proof.
  rewrite !verify_scan_recorded. unfold recorded.
  rewrite (take_ge (filter _ _)).
  2:{ etrans; [apply length_filter|]. rewrite length_take. lia. }
  rewrite list_filter_filter.
  assert (Hf : filter (λ p, (truthy (method_story p) = true
                    ∧ Q2Qc (3 # 10) < _compute_similarity method (method_story p))
                   ∧ truthy (method_story p) = true) (take 50 papers)
               = filter (λ p, truthy (method_story p) = true
                   ∧ Q2Qc (3 # 10) < _compute_similarity method (method_story p))
                   (take 50 papers)).
  { apply list_filter_iff. intros p. tauto. }
  by rewrite Hf.
Qed.

(** X17. RAGVerifier.verify reports at most three similar papers in
    descending similarity; the maximum similarity lies between 0 and 1, is 0
    exactly when no paper is reported, and is otherwise the similarity of
    the first reported paper. A recorded paper that is not reported is no
    more similar than any reported one, and the result depends only on the
    papers among the first 50 that have a method story. *)
Theorem verify_reports_top_matches (cfg : PipelineConfig) (papers : list Paper)
    (story : Story) :
  let result := verify cfg papers story in
  (length (similar_papers result) ≤ 3)%nat
  ∧ StronglySorted (desc_by similarity) (similar_papers result)
  ∧ 0 ≤ max_similarity result ≤ 1
  ∧ (similar_papers result = [] ↔ max_similarity result = 0)
  ∧ (∀ sp, head (similar_papers result) = Some sp →
           similarity sp = max_similarity result)
  ∧ (∀ sp, sp ∈ recorded (skeleton_text story) papers →
           sp ∈ similar_papers result
           ∨ (length (similar_papers result) = 3%nat
              ∧ Forall (λ kept, similarity sp ≤ similarity kept) (similar_papers result)))
  ∧ verify cfg (filter (λ p, truthy (method_story p) = true) (take 50 papers)) story
    = result.
Proof.
  intros result.
  destruct (max_of_recorded (skeleton_text story) papers) as (Hrange & Hnil & Hhead).
  cbn zeta in *.
  assert (Hsim : similar_papers result
                 = take 3 (sort_descQ similarity (recorded (skeleton_text story) papers))).
  { unfold result, verify. by rewrite verify_scan_recorded. }
  assert (Hmax : max_similarity result
                 = max_from_zero (similarity <$> recorded (skeleton_text story) papers)).
  { unfold result, verify. by rewrite verify_scan_recorded. }
  rewrite Hsim, Hmax. split_and!.
  - rewrite length_take. lia.
  - apply StronglySorted_take_prefix, sort_descQ_sorted.
  - apply Hrange.
  - apply Hrange.
  - rewrite <- Hnil. split.
    + intros Hempty. apply Permutation_nil_r. rewrite <- (sort_descQ_perm similarity).
      destruct (sort_descQ similarity _) as [|sp l]; [done|discriminate].
    + by intros ->.
  - intros sp Hsp. apply Hhead.
    by destruct (sort_descQ similarity _) as [|sp' l].
  - intros sp Hsp. by apply (top_cut similarity 3).
  - unfold result, verify. by rewrite verify_scan_sampled.
Qed.

(** X18. With a non-negative threshold, a detected collision means that the
    first reported paper exceeds the threshold and carries the maximum
    similarity, and the pivot constraints are the ban on that paper's title
    followed by the two fixed constraints. *)
Theorem collision_names_most_similar_paper (cfg : PipelineConfig) (papers : list Paper)
    (story : Story) :
  0 ≤ COLLISION_THRESHOLD cfg →
  collision_detected (verify cfg papers story) = true →
  ∃ sp rest p,
    similar_papers (verify cfg papers story) = sp :: rest
    ∧ COLLISION_THRESHOLD cfg < similarity sp
    ∧ similarity sp = max_similarity (verify cfg papers story)
    ∧ p ∈ take 50 papers ∧ sp = record_of (skeleton_text story) p
    ∧ generate_pivot_constraints (similar_papers (verify cfg papers story))
      = ["禁止使用与《" +:+ title p +:+ "》相同的核心技术";
         "将应用场景迁移到新领域（如法律、金融、医疗等）";
         "增加额外的约束条件（如无监督、少样本等设定）"]%string.
Proof.
  intros Hthr Hcol.
  rewrite verify_collision, bool_decide_eq_true in Hcol.
  destruct (max_of_recorded (skeleton_text story) papers) as (_ & Hnil & Hhead).
  cbn zeta in *.
  assert (Hsim : similar_papers (verify cfg papers story)
                 = take 3 (sort_descQ similarity (recorded (skeleton_text story) papers))).
  { unfold verify. by rewrite verify_scan_recorded. }
  assert (Hmax : max_similarity (verify cfg papers story)
                 = max_from_zero (similarity <$> recorded (skeleton_text story) papers)).
  { unfold verify. by rewrite verify_scan_recorded. }
  rewrite Hsim, Hmax in *.
  destruct (sort_descQ similarity (recorded (skeleton_text story) papers))
    as [|sp sorted] eqn:Hsorted.
  { exfalso. assert (Hrec : recorded (skeleton_text story) papers = []).
    { apply Permutation_nil_r. by rewrite <- (sort_descQ_perm similarity), Hsorted. }
    apply Hnil in Hrec. rewrite Hrec in Hcol. by apply (Qclt_not_le _ _ Hcol). }
  specialize (Hhead sp eq_refl).
  assert (Hin : sp ∈ recorded (skeleton_text story) papers).
  { rewrite <- (sort_descQ_perm similarity), Hsorted. left. }
  apply recorded_above_threshold in Hin as [_ (p & Hp & _ & Hsp)].
  exists sp, (take 2 sorted), p. cbn [take generate_pivot_constraints].
  split_and!; [done|by rewrite Hhead|done|done|done|by rewrite Hsp].
Qed.

Lemma collision_names_most_similar_paper_witness :
  0 ≤ COLLISION_THRESHOLD default_pipeline_config
  ∧ collision_detected
      (verify default_pipeline_config Examples.contrastive_corpus
         (Examples.story_with_method "contrastive learning")) = true
  ∧ ∃ sp rest,
      similar_papers
        (verify default_pipeline_config Examples.contrastive_corpus
           (Examples.story_with_method "contrastive learning")) = sp :: rest
      ∧ COLLISION_THRESHOLD default_pipeline_config < similarity sp.
Proof.
  assert (Hthreshold : 0 ≤ COLLISION_THRESHOLD default_pipeline_config) by compute_done.
  assert (Hcollision : collision_detected
            (verify default_pipeline_config Examples.contrastive_corpus
               (Examples.story_with_method "contrastive learning")) = true)
    by compute_done.
  split_and!; [exact Hthreshold|exact Hcollision|].
  destruct (collision_names_most_similar_paper default_pipeline_config
              Examples.contrastive_corpus
              (Examples.story_with_method "contrastive learning") Hthreshold Hcollision)
    as (sp & rest & p & Hhead & Habove & _).
  exists sp, rest. split; [exact Hhead|exact Habove].
Defined.

End VerifierReport.

(** ** Calls, histories and exclusions of a run *)

Module RunFacts.
Import Py Graph Recall Pipeline Orchestrator Spec Observations.
Import PyFacts RefinementFacts OrchestratorFacts SelectorRules InjectionRules.

(** *** The accumulated tricks *)

Lemma accumulate_step (acc : list text) (trick : text) :
  let acc' := if bool_decide (trick ∈ acc) then acc else acc ++ [trick] in
  acc `prefix_of` acc'
  ∧ (∀ t, t ∈ acc' ↔ t ∈ acc ∨ t = trick)
  ∧ (NoDup acc → NoDup acc').
Proof.
  cbn. case_bool_decide as Hin.
  - split_and!; [done| |done]. intros t. split; [by left|]. by intros [?| ->].
  - split_and!.
    + by apply prefix_app_r.
    + intros t. rewrite elem_of_app, list_elem_of_singleton. done.
    + intros Hnd. apply NoDup_app. split_and!; [done| |apply NoDup_singleton].
      intros t Ht ->%list_elem_of_singleton. done.
Qed.

(** X19. Accumulating the new tricks of a round keeps the tricks injected so
    far as a prefix, adds exactly the new ones, adds no trick that is
    already present, and so keeps a duplicate-free list duplicate-free. *)
Theorem accumulate_keeps_order_without_duplicates (injected new_tricks : list text) :
  injected `prefix_of` accumulate injected new_tricks
  ∧ (∀ t, t ∈ accumulate injected new_tricks ↔ t ∈ injected ∨ t ∈ new_tricks)
  ∧ (NoDup injected → NoDup (accumulate injected new_tricks))
  ∧ (length (accumulate injected new_tricks) ≤ length injected + length new_tricks)%nat.
Proof.
  unfold accumulate. revert injected.
  induction new_tricks as [|trick new_tricks IH]; intros injected; cbn [foldl].
  - split_and!; [done| |done|cbn; lia]. intros t. rewrite elem_of_nil. tauto.
  - destruct (accumulate_step injected trick) as (Hpre & Hin & Hnd). cbn zeta in *.
    destruct (IH (if bool_decide (trick ∈ injected) then injected else injected ++ [trick]))
      as (Hpre' & Hin' & Hnd' & Hlen').
    split_and!.
    + by etrans.
    + intros t. rewrite Hin', Hin, elem_of_cons. tauto.
    + intros H. by apply Hnd', Hnd.
    + etrans; [exact Hlen'|]. case_bool_decide; [cbn; lia|].
      rewrite length_app. cbn. lia.
Qed.

(** *** Counting calls *)

Section Counting.
Context {W : Type}.
Variable llm_story : GenMode → GenRequest → W → Story * W.
Variable llm_review : Story → Reviewer → W → (Qc * text) * W.

Lemma count_app p t1 t2 : count p (t1 ++ t2) = (count p t1 + count p t2)%nat.
Proof. unfold count. by rewrite filter_app, length_app. Qed.

Lemma count_cons p e tr : count p (e :: tr) = ((if p e then 1 else 0) + count p tr)%nat.
Proof.
  unfold count. rewrite filter_cons. destruct (p e); [by rewrite decide_True|].
  by rewrite decide_False.
Qed.

Lemma count_nil p : count p [] = 0%nat.
Proof. done. Qed.

Ltac count_events :=
  cbn [app]; rewrite ?count_app, ?count_cons, ?count_nil; cbn; lia.

Lemma emits_any_ret {A} (x : A) : emits (ret (W:=W) x) (λ _, True).
Proof. by apply emits_ret. Qed.

Lemma emits_any_bind {A B} (m : M W A) (k : A → M W B) :
  emits m (λ _, True) → (∀ x, emits (k x) (λ _, True)) → emits (bind m k) (λ _, True).
Proof. intros Hm Hk. by eapply emits_bind; [exact Hm|exact Hk| |]. Qed.

Lemma emits_any {A} (m : M W A) Q : emits m Q → emits m (λ _, True).
Proof. intros Hm. by eapply emits_weaken. Qed.

(** One round of the loop makes at most one refinement call and one
    generation request, and never verifies. *)
Lemma refine_loop_counts cfg rp remaining ls :
  emits (refine_loop llm_story llm_review cfg rp remaining ls)
        (λ tr, (count is_generate_call tr ≤ remaining)%nat
               ∧ (count is_refine_call tr ≤ remaining)%nat
               ∧ count is_verify_call tr = 0%nat).
Proof.
  revert ls. induction remaining as [|remaining IH]; intros ls; cbn [refine_loop].
  { by apply emits_ret. }
  pose (Q := λ (g r : nat) (tr : list Event),
               (count is_generate_call tr ≤ g)%nat ∧ (count is_refine_call tr ≤ r)%nat
               ∧ count is_verify_call tr = 0%nat).
  assert (Hweak : ∀ g r g' r' tr, (g ≤ g')%nat → (r ≤ r')%nat → Q g r tr → Q g' r' tr).
  { intros g r g' r' tr Hg Hr (? & ? & ?). unfold Q. split_and!; [lia|lia|done]. }
  assert (Hnil : ∀ g r, Q g r []).
  { intros g r. unfold Q, count. cbn. split_and!; [lia|lia|done]. }
  assert (Hcons : ∀ e g r tr, is_verify_call e = false → Q g r tr →
            Q ((if is_generate_call e then 1 else 0) + g)%nat
              ((if is_refine_call e then 1 else 0) + r)%nat (e :: tr)).
  { intros e g r tr Hv (Hg & Hr & Hver). unfold Q. rewrite !count_cons, Hv.
    split_and!; [lia|lia|lia]. }
  match goal with |- emits ?m _ => change (emits m (Q (S remaining) (S remaining))) end.
  assert (IH' : ∀ ls, emits (refine_loop llm_story llm_review cfg rp remaining ls)
                        (Q remaining remaining)) by exact IH.
  apply (emits_bind _ _ (eq [CallCritic (current_story ls)]) (Q (S remaining) (S remaining))).
  - apply review_trace.
  - intros critic_result. destruct (pass critic_result); [by apply emits_ret|].
    apply (emits_bind _ _ (λ tr, tr = [] ∨ ∃ pid, tr = [PrintPatternSwitch pid])
                          (Q (S remaining) (S remaining))).
    + apply stall_check_trace.
    + intros [pattern injected].
      apply (emits_bind _ _ (eq [CallRefine (main_issue critic_result)])
                            (Q (S remaining) remaining)).
      * apply engine_refine_trace.
      * intros new_tricks. rewrite is_pattern_switch_never.
        eapply (emits_bind _ _ (eq [_]) (Q remaining remaining)).
        -- apply generate_trace.
        -- intros story. apply IH'.
        -- intros t1 t2 <- Ht2. by apply (Hcons (CallGenerate _ _) remaining remaining).
        -- intros t1 <-. by apply (Hcons (CallGenerate _ _) remaining remaining).
      * intros t1 t2 <- Ht2. by apply (Hcons (CallRefine _) (S remaining) remaining).
      * intros t1 <-. by apply (Hcons (CallRefine _) (S remaining) remaining).
    + intros t1 t2 [->|[pid ->]] Ht2; [done|].
      by apply (Hcons (PrintPatternSwitch _) (S remaining) (S remaining)).
    + intros t1 [->|[pid ->]]; [done|].
      by apply (Hcons (PrintPatternSwitch _) (S remaining) (S remaining)).
  - intros t1 t2 <- Ht2. by apply (Hcons (CallCritic _) (S remaining) (S remaining)).
  - intros t1 <-. by apply (Hcons (CallCritic _) (S remaining) (S remaining)).
Qed.

Lemma verify_and_pivot_counts cfg papers selected ls :
  emits (verify_and_pivot llm_story cfg papers selected ls)
        (λ tr, (count is_generate_call tr ≤ 1)%nat
               ∧ count is_refine_call tr = 0%nat
               ∧ (count is_verify_call tr ≤ 2)%nat).
Proof.
  unfold verify_and_pivot.
  apply (emits_bind _ _ (eq [CallVerify (current_story ls)])
           (λ tr, (count is_generate_call tr ≤ 1)%nat
                  ∧ count is_refine_call tr = 0%nat
                  ∧ (count is_verify_call tr ≤ 1)%nat)).
  - apply run_verify_trace.
  - intros v. destruct (collision_detected v); [|apply emits_ret; count_events].
    eapply (emits_bind _ _ (eq [_]) (λ tr, ∃ story, tr = [CallVerify story])).
    + apply generate_trace.
    + intros story.
      apply (emits_bind _ _ (eq [CallVerify story]) (eq []));
        [apply run_verify_trace| |intros ?? <- <-; by eexists|intros ? <-; by eexists].
      intros v'. by apply emits_ret.
    + intros t1 t2 <- [story ->]. count_events.
    + intros t1 <-. count_events.
  - intros t1 t2 <- (Hg & Hr & Hv). count_events.
  - intros t1 <-. count_events.
Qed.

Lemma budget_check_counts cfg ls :
  emits (budget_check (W:=W) cfg ls)
        (λ tr, count is_generate_call tr = 0%nat ∧ count is_refine_call tr = 0%nat
               ∧ count is_verify_call tr = 0%nat).
Proof.
  eapply emits_weaken; [apply budget_check_trace|].
  intros tr [->| ->]; count_events.
Qed.

Lemma run_counts cfg rp papers :
  emits (run llm_story llm_review cfg rp papers)
        (λ tr, (count is_generate_call tr ≤ MAX_REFINE_ITERATIONS cfg + 2)%nat
               ∧ (count is_refine_call tr ≤ MAX_REFINE_ITERATIONS cfg)%nat
               ∧ (count is_verify_call tr ≤ 2)%nat).
Proof.
  unfold run. destruct (select cfg rp) as [|first rest].
  { apply emits_ret. count_events. }
  set (n := MAX_REFINE_ITERATIONS cfg).
  pose (Q := λ (g r v : nat) (tr : list Event),
               (count is_generate_call tr ≤ g)%nat ∧ (count is_refine_call tr ≤ r)%nat
               ∧ (count is_verify_call tr ≤ v)%nat).
  assert (Hadd : ∀ g r v g' r' v' t1 t2,
            Q g r v t1 → Q g' r' v' t2 → Q (g + g')%nat (r + r')%nat (v + v')%nat (t1 ++ t2)).
  { intros g r v g' r' v' t1 t2 (? & ? & ?) (? & ? & ?). unfold Q.
    rewrite !count_app. lia. }
  assert (Hweak : ∀ g r v g' r' v' tr, (g ≤ g')%nat → (r ≤ r')%nat → (v ≤ v')%nat →
            Q g r v tr → Q g' r' v' tr).
  { intros g r v g' r' v' tr ? ? ? (? & ? & ?). unfold Q. lia. }
  match goal with |- emits ?m _ => change (emits m (Q (n + 2) n 2)%nat) end.
  apply (emits_bind _ _ (eq []) (Q (n + 2) n 2)%nat);
    [by apply emits_lift| |by intros ?? <- ?|intros ? <-; unfold Q; count_events].
  intros pattern.
  eapply (emits_bind _ _ (eq [_]) (Q (n + 1) n 2)%nat); [apply generate_trace| | |].
  2:{ intros t1 t2 <- H2. apply (Hweak (1 + (n + 1)) (0 + n) (0 + 2))%nat; [lia|lia|lia|].
      apply (Hadd 1 0 0 _ _ _ [_])%nat; [|done]. unfold Q. count_events. }
  2:{ intros t1 <-. unfold Q. count_events. }
  intros story.
  apply (emits_bind _ _ (Q n n 0%nat) (Q 1 0 2)%nat).
  - eapply emits_weaken; [apply refine_loop_counts|].
    intros tr (? & ? & ?). unfold Q. lia.
  - intros ls.
    apply (emits_bind _ _ (Q 0 0 0)%nat (Q 1 0 2)%nat).
    + eapply emits_weaken; [apply budget_check_counts|].
      intros tr (? & ? & ?). unfold Q. lia.
    + intros _.
      apply (emits_bind _ _ (Q 1 0 2)%nat (eq [])).
      * eapply emits_weaken; [apply verify_and_pivot_counts|].
        intros tr (? & ? & ?). unfold Q. lia.
      * intros final. apply emits_bind_silent; [apply final_report_silent|].
        intros _. by apply emits_ret.
      * intros t1 t2 H1 <-. by rewrite app_nil_r.
      * done.
    + intros t1 t2 H1 H2. apply (Hadd 0 0 0 1 0 2 t1 t2 H1 H2)%nat.
    + intros t1 H1. by apply (Hweak 0 0 0)%nat with (tr := t1); [lia|lia|lia|].
  - intros t1 t2 H1 H2. apply (Hweak (n + 1) (n + 0) (0 + 2))%nat; [lia|lia|lia|].
    by apply Hadd.
  - intros t1 H1. by apply (Hweak n n 0)%nat with (tr := t1); [lia|lia|lia|].
Qed.

Lemma bind_lift_Some {A B} (x : A) (k : A → M W B) : bind (lift (Some x)) k = k x.
Proof. done. Qed.

(** The request [run] starts with. *)
Lemma run_first_event cfg rp papers (r : Recalled) rest :
  rp = r :: rest →
  emits (run llm_story llm_review cfg rp papers)
        (λ tr, ∃ tr', tr = CallGenerate FreshGeneration
                             {| g_pattern_id := r.1.1; g_pattern_info := r.1.2;
                                g_constraints := None; g_injected_tricks := [];
                                previous_story := None; review_feedback := None;
                                new_tricks_only := None |} :: tr').
Proof.
  intros Hrp. unfold run.
  destruct (select_slots cfg rp) as (Hc & _).
  assert (Hcons : dict_get "conservative" (select cfg rp) = Some (r.1.1, r.1.2)).
  { rewrite Hc, Hrp. by destruct r as [[? ?] ?]. }
  destruct (select cfg rp) as [|first others] eqn:Hsel; [done|].
  rewrite Hcons. cbn [has_key]. rewrite Hcons, bind_lift_Some. cbn [fst snd].
  eapply (emits_bind _ _ (eq [_]) (λ _, True)).
  - apply generate_trace.
  - intros story. apply emits_any_bind; [eapply emits_any, refine_loop_counts|].
    intros ls. apply emits_any_bind; [eapply emits_any, budget_check_trace|].
    intros _. apply emits_any_bind; [eapply emits_any, verify_and_pivot_counts|].
    intros final. apply emits_any_bind; [eapply emits_any, final_report_silent|].
    intros _. apply emits_any_ret.
  - intros t1 t2 <- _. by eexists.
  - intros t1 <-. by eexists.
Qed.

Lemma run_nonempty_result cfg papers (r : Recalled) rest :
  returns (run llm_story llm_review cfg (r :: rest) papers)
          (λ d, d ≠ [("success"%string, VBool false)]).
Proof.
  unfold run.
  destruct (select_slots cfg (r :: rest)) as (Hc & _).
  destruct (select cfg (r :: rest)) as [|first others].
  { by destruct r as [[? ?] ?]. }
  apply returns_bind. intros pattern. apply returns_bind. intros story.
  apply returns_bind. intros ls. apply returns_bind. intros _.
  apply returns_bind. intros final. apply returns_bind. intros _. by apply returns_ret.
Qed.

(** *** The histories the loop builds *)

Lemma seq_snoc (start len : nat) : seq start (S len) = seq start len ++ [(start + len)%nat].
Proof. rewrite <- Nat.add_1_r, seq_app. done. Qed.

Lemma refine_loop_histories cfg rp remaining ls :
  iterations ls = length (review_history ls) →
  Forall (λ r, pass r = false) (review_history ls) →
  issue <$> refinement_history ls = main_issue <$> review_history ls →
  iteration <$> refinement_history ls = seq 1 (length (review_history ls)) →
  returns (refine_loop llm_story llm_review cfg rp remaining ls)
    (λ ls', iterations ls' = length (review_history ls')
            ∧ ∃ failed,
                Forall (λ r, pass r = false) failed
                ∧ issue <$> refinement_history ls' = main_issue <$> failed
                ∧ iteration <$> refinement_history ls' = seq 1 (length failed)
                ∧ (review_history ls' = failed
                   ∧ length failed = (length (review_history ls) + remaining)%nat
                   ∨ ∃ r, review_history ls' = failed ++ [r] ∧ pass r = true
                          ∧ (length failed < length (review_history ls) + remaining)%nat)).
Proof.
  revert ls. induction remaining as [|remaining IH]; intros ls Hit Hfail Hissue Hnum;
    cbn [refine_loop].
  { apply returns_ret. split; [done|]. exists (review_history ls).
    split_and!; [done|done|done|]. left. split; [done|lia]. }
  apply returns_bind. intros critic_result.
  destruct (pass critic_result) eqn:Hpass.
  { apply returns_ret. cbn. split; [rewrite length_app; cbn; lia|].
    exists (review_history ls). split_and!; [done|done|done|].
    right. exists critic_result. split_and!; [done|done|lia]. }
  apply returns_bind. intros [pattern injected].
  apply returns_bind. intros new_tricks.
  apply returns_bind. intros story.
  eapply returns_weaken.
  - apply IH; cbn.
    + rewrite length_app. cbn. lia.
    + apply Forall_app. split; [done|]. by constructor.
    + rewrite !fmap_app. cbn. by rewrite Hissue.
    + rewrite !fmap_app, length_app. cbn. rewrite Hnum, Nat.add_1_r, seq_snoc.
      by rewrite Hit.
  - cbn. intros ls' (Hit' & failed & Hf & Hi & Hn & Hshape). split; [done|].
    exists failed. split_and!; [done|done|done|].
    rewrite length_app in Hshape. cbn in Hshape.
    destruct Hshape as [[? ?]|(r & ? & ? & ?)]; [left|right].
    + split; [done|lia].
    + exists r. split_and!; [done|done|lia].
Qed.

Lemma run_histories cfg rp papers :
  returns (run llm_story llm_review cfg rp papers)
    (λ d, rp = [] ∧ d = [("success"%string, VBool false)]
          ∨ rp ≠ []
            ∧ result_iterations d = Some (length (result_reviews d))
            ∧ ∃ failed,
                Forall (λ r, pass r = false) failed
                ∧ issue <$> result_refinements d = main_issue <$> failed
                ∧ iteration <$> result_refinements d = seq 1 (length failed)
                ∧ (result_reviews d = failed
                   ∧ length failed = MAX_REFINE_ITERATIONS cfg
                   ∨ ∃ r, result_reviews d = failed ++ [r] ∧ pass r = true
                          ∧ (length failed < MAX_REFINE_ITERATIONS cfg)%nat)).
Proof.
  destruct rp as [|r rest].
  { apply returns_ret. by left. }
  unfold run.
  destruct (select_slots cfg (r :: rest)) as (Hc & _).
  destruct (select cfg (r :: rest)) as [|first others].
  { by destruct r as [[? ?] ?]. }
  apply returns_bind. intros pattern. apply returns_bind. intros story.
  eapply returns_bind_post.
  { apply refine_loop_histories; cbn; [done|constructor|done|done]. }
  cbn. intros ls (Hit & failed & Hshape).
  apply returns_bind. intros _. apply returns_bind. intros final.
  apply returns_bind. intros _.
  apply returns_ret. right. unfold result_iterations, result_reviews, result_refinements.
  cbn. split; [done|]. split; [by rewrite Hit|]. by exists failed.
Qed.

(** *** The exclusion set *)

Lemma maintains_ret {A} (x : A) I : maintains (ret (W:=W) x) I.
Proof. by intros st. Qed.

Lemma maintains_lift {A} (o : option A) I : maintains (lift (W:=W) o) I.
Proof. by intros st. Qed.

Lemma maintains_emit e I : maintains (emit (W:=W) e) I.
Proof. by intros st. Qed.

Lemma maintains_ask {A} (f : W → A * W) I : maintains (ask f) I.
Proof. intros st. unfold ask. by destruct (f (world st)). Qed.

Lemma maintains_bind {A B} (m : M W A) (k : A → M W B) I :
  maintains m I → (∀ x, maintains (k x) I) → maintains (bind m k) I.
Proof.
  intros Hm Hk st Hst. unfold bind. specialize (Hm st Hst).
  destruct (m st) as [[x|] st1]; [by apply Hk|done].
Qed.

Lemma maintains_generate req I : maintains (generate llm_story req) I.
Proof.
  unfold generate. apply maintains_bind; [apply maintains_emit|].
  intros _. apply maintains_bind; [apply maintains_ask|].
  intros story. apply maintains_ret.
Qed.

Lemma maintains_review cfg story I : maintains (review llm_review cfg story) I.
Proof.
  unfold review. apply maintains_bind; [apply maintains_emit|]. intros _.
  apply maintains_bind; [|intros rs; apply maintains_lift].
  induction REVIEWERS as [|r rs IH]; cbn [collect_reviews]; [apply maintains_ret|].
  apply maintains_bind.
  - unfold _single_review. apply maintains_bind; [apply maintains_ask|].
    intros sf. apply maintains_ret.
  - intros rv. apply maintains_bind; [exact IH|]. intros rest. apply maintains_ret.
Qed.

Lemma maintains_stall_check rp iterations history critic_result cur injected I :
  maintains (stall_check (W:=W) rp iterations history critic_result cur injected) I.
Proof.
  unfold stall_check. case_match; [|apply maintains_ret].
  apply maintains_bind; [by intros st|]. intros used.
  destruct (least_clustered_unused rp used); [|apply maintains_ret].
  apply maintains_bind; [apply maintains_emit|]. intros _. apply maintains_ret.
Qed.

Lemma refine_used cfg rp main_issue used :
  used ⊆ (refine cfg rp main_issue used).2
  ∧ (refine cfg rp main_issue used).2
    ⊆ used ∪ list_to_set ((λ r : Recalled, r.1.1) <$> rp).
Proof.
  pose proof (refine_exclusion cfg rp main_issue used) as Hstep.
  destruct (injected_pattern cfg rp main_issue used) as [pid|] eqn:Hp.
  - destruct Hstep as [_ ->]. apply injected_pattern_recalled in Hp.
    split; [set_solver|]. intros p [->%elem_of_singleton|?]%elem_of_union; set_solver.
  - rewrite Hstep. set_solver.
Qed.

Lemma maintains_engine_refine cfg rp main_issue (base : gset string) :
  maintains (engine_refine (W:=W) cfg rp main_issue)
    (λ used, base ⊆ used
             ∧ used ⊆ base ∪ list_to_set ((λ r : Recalled, r.1.1) <$> rp)).
Proof.
  unfold engine_refine. apply maintains_bind; [apply maintains_emit|].
  intros _ st [Hlow Hup].
  pose proof (refine_used cfg rp main_issue (used_patterns st)) as [Hgrow Hbound].
  destruct (refine cfg rp main_issue (used_patterns st)) as [tricks used']. cbn in *.
  split; set_solver.
Qed.

Lemma maintains_run cfg rp papers (base : gset string) :
  maintains (run llm_story llm_review cfg rp papers)
    (λ used, base ⊆ used
             ∧ used ⊆ base ∪ list_to_set ((λ r : Recalled, r.1.1) <$> rp)).
Proof.
  unfold run. destruct (select cfg rp) as [|first rest]; [apply maintains_ret|].
  apply maintains_bind; [apply maintains_lift|]. intros pattern.
  apply maintains_bind; [apply maintains_generate|]. intros story.
  apply maintains_bind.
  { generalize (MAX_REFINE_ITERATIONS cfg) as remaining.
    generalize ({| iterations := 0; cur_pattern := pattern; injected_tricks := [];
                   review_history := []; refinement_history := [];
                   current_story := story |}) as ls.
    intros ls remaining. revert ls.
    induction remaining as [|remaining IH]; intros ls; cbn [refine_loop];
      [apply maintains_ret|].
    apply maintains_bind; [apply maintains_review|]. intros critic_result.
    destruct (pass critic_result); [apply maintains_ret|].
    apply maintains_bind; [apply maintains_stall_check|]. intros [p injected].
    apply maintains_bind; [apply maintains_engine_refine|]. intros new_tricks.
    apply maintains_bind; [case_match; apply maintains_generate|]. intros story'.
    apply IH. }
  intros ls. apply maintains_bind.
  { unfold budget_check. case_bool_decide; [|apply maintains_ret].
    apply maintains_bind; [apply maintains_lift|]. intros last_review.
    destruct (pass last_review); [apply maintains_ret|apply maintains_emit]. }
  intros _. apply maintains_bind.
  2:{ intros final. apply maintains_bind; [|intros _; apply maintains_ret].
      unfold final_report.
      destruct (story_abstract final.1) as [[t|]|];
        [apply maintains_ret|apply maintains_lift|apply maintains_ret]. }
  unfold verify_and_pivot, run_verify.
  apply maintains_bind.
  { apply maintains_bind; [apply maintains_emit|]. intros _. apply maintains_ret. }
  intros v. destruct (collision_detected v); [|apply maintains_ret].
  apply maintains_bind; [apply maintains_generate|]. intros story'.
  apply maintains_bind; [|intros v'; apply maintains_ret].
  apply maintains_bind; [apply maintains_emit|]. intros _. apply maintains_ret.
Qed.

End Counting.
(** X20. One run makes at most MAX_REFINE_ITERATIONS + 2 story generations,
    at most MAX_REFINE_ITERATIONS refinement calls and at most two
    verifications. *)
Theorem run_call_bounds {W : Type}
    (llm_story : GenMode → GenRequest → W → Story * W)
    (llm_review : Story → Reviewer → W → (Qc * text) * W)
    (cfg : PipelineConfig) (recalled_patterns : list Recalled) (papers : list Paper)
    (st : Session W) :
  let out := run llm_story llm_review cfg recalled_patterns papers st in
  ∃ tr, trace out.2 = trace st ++ tr
        ∧ (count is_generate_call tr ≤ MAX_REFINE_ITERATIONS cfg + 2)%nat
        ∧ (count is_refine_call tr ≤ MAX_REFINE_ITERATIONS cfg)%nat
        ∧ (count is_verify_call tr ≤ 2)%nat.
Proof. apply run_counts. Qed.

(** X21. On an empty recall list a run returns the failure dict without any
    call and without changing the session. On a non-empty list it never
    returns the failure dict, and its first call is a fresh generation from
    the top-ranked pattern with no constraints, no injected tricks and no
    previous story. *)
Theorem run_starts_from_top_pattern {W : Type}
    (llm_story : GenMode → GenRequest → W → Story * W)
    (llm_review : Story → Reviewer → W → (Qc * text) * W)
    (cfg : PipelineConfig) (papers : list Paper) (st : Session W) :
  run llm_story llm_review cfg [] papers st = (Some [("success"%string, VBool false)], st)
  ∧ ∀ (r : Recalled) (rest : list Recalled),
      let out := run llm_story llm_review cfg (r :: rest) papers st in
      out.1 ≠ Some [("success"%string, VBool false)]
      ∧ ∃ tr, trace out.2
              = trace st
                ++ CallGenerate FreshGeneration
                     {| g_pattern_id := r.1.1; g_pattern_info := r.1.2;
                        g_constraints := None; g_injected_tricks := [];
                        previous_story := None; review_feedback := None;
                        new_tricks_only := None |} :: tr.
Proof.
  split; [done|]. intros r rest out. split.
  - intros Hfail.
    by apply (run_nonempty_result llm_story llm_review cfg papers r rest st _ Hfail).
  - destruct (run_first_event llm_story llm_review cfg (r :: rest) papers r rest eq_refl st)
      as (tr & Htr & tr' & ->).
    by exists tr'.
Qed.

(** X22. A run on an empty recall list returns only the failure dict.
    In a result of a run on a non-empty list, iterations equals the
    number of reviews in review_history; refinement_history has one entry
    per failed review, numbered 1, 2, ... and carrying that review's main
    issue; and the review history is either exactly MAX_REFINE_ITERATIONS
    failed reviews, or fewer failed reviews followed by one passing review. *)
Theorem run_histories_are_consistent {W : Type}
    (llm_story : GenMode → GenRequest → W → Story * W)
    (llm_review : Story → Reviewer → W → (Qc * text) * W)
    (cfg : PipelineConfig) (recalled_patterns : list Recalled) (papers : list Paper)
    (st : Session W) (d : dict Value) :
  (run llm_story llm_review cfg recalled_patterns papers st).1 = Some d →
  recalled_patterns = [] ∧ d = [("success"%string, VBool false)]
  ∨ recalled_patterns ≠ []
    ∧ result_iterations d = Some (length (result_reviews d))
    ∧ ∃ failed,
        Forall (λ r, pass r = false) failed
        ∧ issue <$> result_refinements d = main_issue <$> failed
        ∧ iteration <$> result_refinements d = seq 1 (length failed)
        ∧ (result_reviews d = failed ∧ length failed = MAX_REFINE_ITERATIONS cfg
           ∨ ∃ r, result_reviews d = failed ++ [r] ∧ pass r = true
                  ∧ (length failed < MAX_REFINE_ITERATIONS cfg)%nat).
Proof. apply run_histories. Qed.

Lemma run_histories_are_consistent_witness :
  ∃ d, Examples.exhausted_run.1 = Some d
       ∧ result_iterations d = Some (length (result_reviews d))
       ∧ issue <$> result_refinements d = ["novelty"; "novelty"; "novelty"]%string
       ∧ iteration <$> result_refinements d = [1; 2; 3]%nat.
Proof.
  assert (Hissues : (λ d, issue <$> result_refinements d) <$> Examples.exhausted_run.1
                    = Some ["novelty"; "novelty"; "novelty"]%string) by compute_done.
  assert (Hrounds : (λ d, iteration <$> result_refinements d) <$> Examples.exhausted_run.1
                    = Some [1; 2; 3]%nat) by compute_done.
  destruct Examples.exhausted_run.1 as [d|] eqn:Hd; [|done].
  injection Hissues as Hissues. injection Hrounds as Hrounds.
  exists d. split; [reflexivity|].
  destruct (run_histories_are_consistent
              (Examples.scripted_story Examples.complete_draft)
              (Examples.scripted_review Examples.scores_novelty_low)
              default_pipeline_config Examples.three_patterns [] (new_session 0%nat) d Hd)
    as [[Hempty _]|(_ & Hiter & _)]; [done|].
  split; [exact Hiter|]. split; [exact Hissues|exact Hrounds].
Defined.

(** X23. A run only adds to the set of used patterns, and only ids of
    recalled patterns. *)
Theorem run_excludes_only_recalled_patterns {W : Type}
    (llm_story : GenMode → GenRequest → W → Story * W)
    (llm_review : Story → Reviewer → W → (Qc * text) * W)
    (cfg : PipelineConfig) (recalled_patterns : list Recalled) (papers : list Paper)
    (st : Session W) :
  let out := run llm_story llm_review cfg recalled_patterns papers st in
  used_patterns st ⊆ used_patterns out.2
  ∧ used_patterns out.2
    ⊆ used_patterns st ∪ list_to_set ((λ r : Recalled, r.1.1) <$> recalled_patterns).
Proof.
  apply (maintains_run llm_story llm_review cfg recalled_patterns papers (used_patterns st) st).
  split; set_solver.
Qed.

End RunFacts.

(** ** Path 3 *)

Module Path3Facts.
Import Py Graph Recall Spec RecallPaths.
Import PyFacts RatioFacts Path1Facts RankingFacts CriticFacts.

(** What Step 1 records for a paper it keeps. *)
Lemma path3_similarities_entries sim paper_idea G papers user_idea :
  Forall (λ e : SimilarEntry,
            ∃ paper, paper ∈ papers
                     ∧ e = (paper_id paper, sim user_idea (paper_idea paper),
                            rating_quality paper,
                            sim user_idea (paper_idea paper) * rating_quality paper)
                     ∧ truthy (paper_idea paper) = true
                     ∧ Q2Qc (1 # 10) < sim user_idea (paper_idea paper)
                     ∧ has_node G (paper_id paper) = true)
         (path3_similarities sim paper_idea G papers user_idea).
Proof.
  unfold path3_similarities. apply Forall_forall. intros e He.
  apply list_elem_of_omap in He as (paper & Hin & He). exists paper. split; [done|].
  destruct (truthy (paper_idea paper)) eqn:Ht; cbn in He; [|done].
  case_bool_decide as Hsim; cbn in He; [|done].
  destruct (has_node G (paper_id paper)) eqn:Hnode; cbn in He; [|done].
  by injection He as <-.
Qed.

Lemma top_papers_entries K (l : list SimilarEntry) (P : SimilarEntry → Prop) :
  Forall P l → Forall P (top_papers K l).
Proof.
  intros Hl. unfold top_papers. apply Forall_take. by rewrite sort_descQ_perm.
Qed.

Lemma path3_as_contributions (G : DiGraph) (kept : list SimilarEntry) :
  Forall (λ e : SimilarEntry, e.2 = e.1.1.2 * e.1.2) kept →
  foldl (path3_paper G) [] kept
  = foldl (λ d c, dict_add c.1 c.2 d) [] (path3_contributions G kept).
Proof.
  intros Hkept. unfold path3_contributions. rewrite foldl_bind.
  apply foldl_ext_in. intros d entry Hentry. unfold path3_paper.
  rewrite Forall_forall in Hkept. rewrite (Hkept entry Hentry).
  destruct (has_node G entry.1.1.1); [|done].
  rewrite foldl_bind. apply foldl_ext_in. intros d' se _.
  by case_bool_decide.
Qed.

Lemma path3_scores sim paper_idea G papers user_idea p :
  dict_get p (path3 sim paper_idea G papers user_idea)
  = contribution_score
      (path3_contributions G
         (top_papers PATH3_TOP_K_PAPERS
            (path3_similarities sim paper_idea G papers user_idea))) p.
Proof.
  unfold path3. rewrite path3_as_contributions.
  - apply dict_get_contribution_score.
  - apply top_papers_entries. eapply Forall_impl; [apply path3_similarities_entries|].
    by intros e (paper & _ & -> & _).
Qed.

(** X24. In both recall programs the Path 3 score of a pattern is the sum,
    over the kept similar papers and their uses_pattern edges to that
    pattern, of similarity x review quality x edge quality (0.5 when the
    edge has none); the two programs differ in the similarity function and
    in the paper text compared. *)
Theorem path3_scores_by_variant (sys : RecallSystem) (papers : list Paper)
    (user_idea : text) (p : string) :
  dict_get p (_recall_path3_similar_papers sys papers user_idea)
  = contribution_score
      (path3_contributions (G sys)
         (top_papers PATH3_TOP_K_PAPERS
            (path3_similarities _compute_text_similarity core_idea (G sys) papers
               user_idea))) p
  ∧ dict_get p (demo_path3 (G sys) papers user_idea)
    = contribution_score
        (path3_contributions (G sys)
           (top_papers PATH3_TOP_K_PAPERS
              (path3_similarities compute_similarity demo_paper_idea (G sys) papers
                 user_idea))) p.
Proof. split; apply path3_scores. Qed.

Lemma rating_quality_range (paper : Paper) :
  Forall (λ r, 1 ≤ r ≤ Qc_of_Z 10) (ratings paper) → 0 ≤ rating_quality paper ≤ 1.
Proof.
  intros Hall. unfold rating_quality.
  destruct (ratings paper) as [|r rs] eqn:Hr; [by split|].
  destruct (mean_between 1 (Qc_of_Z 10) (r :: rs)) as [Hlo Hhi]; [done|done|].
  fold (mean (r :: rs)) in Hlo, Hhi.
  assert (Hnine : 0 ≤ / Qc_of_Z 9) by done.
  split.
  - unfold Qcdiv. replace 0 with (0 * / Qc_of_Z 9) by ring.
    apply Qcmult_le_compat_r; [|done].
    apply Qcle_minus_iff in Hlo. exact Hlo.
  - replace 1 with ((Qc_of_Z 10 - 1) * / Qc_of_Z 9) by (by apply Qc_is_canon).
    unfold Qcdiv. apply Qcmult_le_compat_r; [|done].
    unfold Qcminus. apply Qcplus_le_compat; [done|done].
Qed.

(** X25. Path 3 keeps at most 20 papers in descending order of similarity x
    quality; each kept paper has a non-empty text, a similarity above 0.1
    and a node in the graph; a candidate that is left out weighs no more
    than any kept one; and the review quality lies between 0 and 1 when the
    ratings lie between 1 and 10. *)
Theorem path3_keeps_best_similar_papers (sim : text → text → Qc)
    (paper_idea : Paper → text) (G : DiGraph) (papers : list Paper) (user_idea : text) :
  let candidates := path3_similarities sim paper_idea G papers user_idea in
  let kept := top_papers PATH3_TOP_K_PAPERS candidates in
  (length kept ≤ 20)%nat
  ∧ StronglySorted (desc_by snd) kept
  ∧ Forall (λ e : SimilarEntry,
              ∃ paper, paper ∈ papers
                       ∧ e = (paper_id paper, sim user_idea (paper_idea paper),
                              rating_quality paper,
                              sim user_idea (paper_idea paper) * rating_quality paper)
                       ∧ truthy (paper_idea paper) = true
                       ∧ Q2Qc (1 # 10) < sim user_idea (paper_idea paper)
                       ∧ has_node G (paper_id paper) = true) kept
  ∧ (∀ e, e ∈ candidates →
          e ∈ kept ∨ (length kept = 20%nat ∧ Forall (λ k : SimilarEntry, e.2 ≤ k.2) kept))
  ∧ (∀ paper, Forall (λ r, 1 ≤ r ≤ Qc_of_Z 10) (ratings paper) →
              0 ≤ rating_quality paper ≤ 1).
Proof.
  intros candidates kept. unfold kept, top_papers. split_and!.
  - rewrite length_take. unfold PATH3_TOP_K_PAPERS. lia.
  - apply StronglySorted_take_prefix, sort_descQ_sorted.
  - apply (top_papers_entries PATH3_TOP_K_PAPERS), path3_similarities_entries.
  - intros e He. by apply (top_cut (λ x : SimilarEntry, x.2) PATH3_TOP_K_PAPERS).
  - apply rating_quality_range.
Qed.

End Path3Facts.

(** ** The edge weights of [build_edges.py] *)

Module EdgeWeightFacts.
Import Py Graph Recall BuildEdges Spec RecallPaths EdgeWeights.
Import PyFacts RatioFacts RankingFacts CriticFacts SimilarityFacts VerifierFacts.

Lemma min2_max2_range (x : Qc) : 0 ≤ min2 (max2 x 0) 1 ≤ 1.
Proof.
  unfold min2, max2. repeat case_bool_decide; split; try done.
  - by apply Qcnot_lt_le.
  - by apply Qcnot_lt_le.
Qed.

Lemma min2_max2_id (x : Qc) : 0 ≤ x ≤ 1 → min2 (max2 x 0) 1 = x.
Proof.
  intros [Hlo Hhi]. unfold min2, max2.
  case_bool_decide as H0.
  - apply Qcle_antisym; [|done]. case_bool_decide as H1; [|by apply Qclt_le_weak].
    exfalso. by apply (Qclt_not_le _ _ H1).
  - case_bool_decide as H1; [|done]. exfalso. by apply (Qclt_not_le _ _ H1).
Qed.

Lemma normalised_range (m : Qc) :
  1 ≤ m ≤ Qc_of_Z 10 → 0 ≤ (m - 1) / Qc_of_Z 9 ≤ 1.
Proof.
  intros [Hlo Hhi].
  assert (Hnine : 0 ≤ / Qc_of_Z 9) by done.
  split.
  - unfold Qcdiv. replace 0 with (0 * / Qc_of_Z 9) by ring.
    apply Qcmult_le_compat_r; [|done]. apply Qcle_minus_iff in Hlo. exact Hlo.
  - replace 1 with ((Qc_of_Z 10 - 1) * / Qc_of_Z 9) by (by apply Qc_is_canon).
    unfold Qcdiv. apply Qcmult_le_compat_r; [|done].
    unfold Qcminus. by apply Qcplus_le_compat.
Qed.

(** X26. With review scores given as strings and float() read as a partial
    parser into finite numbers, the paper quality lies between 0 and 1: it
    is 0.5 when no score parses, (mean - 1) / 9 when the parsed scores lie
    between 1 and 10, and is clamped to 0 or 1 when the mean is at most 1 or
    at least 10. *)
Theorem paper_quality_is_normalised (float_of : text → option Qc)
    (overall_scores : list text) :
  let scores := omap (parse_score float_of) overall_scores in
  let quality := _get_paper_quality float_of overall_scores in
  0 ≤ quality ≤ 1
  ∧ (scores = [] → quality = Q2Qc (1 # 2))
  ∧ (scores ≠ [] → Forall (λ s, 1 ≤ s ≤ Qc_of_Z 10) scores →
     quality = (mean scores - 1) / Qc_of_Z 9)
  ∧ (scores ≠ [] → mean scores ≤ 1 → quality = 0)
  ∧ (scores ≠ [] → Qc_of_Z 10 ≤ mean scores → quality = 1).
Proof.
  intros scores quality. unfold quality, scores, _get_paper_quality.
  clear scores quality.
  destruct overall_scores as [|s0 rest].
  { cbn. split_and!; done. }
  destruct (omap (parse_score float_of) (s0 :: rest)) as [|x xs].
  { split_and!; done. }
  split_and!.
  - apply min2_max2_range.
  - apply min2_max2_range.
  - done.
  - intros _ Hall. apply min2_max2_id, normalised_range.
    unfold mean. by apply mean_between.
  - intros _ Hlow.
    assert (Hneg : (mean (x :: xs) - 1) / Qc_of_Z 9 ≤ 0).
    { unfold Qcdiv. replace 0 with (0 * / Qc_of_Z 9) by ring.
      apply Qcmult_le_compat_r; [|done].
      replace 0 with (1 - 1) by ring. unfold Qcminus. by apply Qcplus_le_compat. }
    assert (Hmax : max2 ((mean (x :: xs) - 1) / Qc_of_Z 9) 0 = 0).
    { unfold max2. case_bool_decide as H0; [done|].
      apply Qcle_antisym; [done|by apply Qcnot_lt_le]. }
    rewrite Hmax. done.
  - intros _ Hhigh.
    assert (Hbig : 1 ≤ (mean (x :: xs) - 1) / Qc_of_Z 9).
    { replace 1 with ((Qc_of_Z 10 - 1) * / Qc_of_Z 9) at 1 by (by apply Qc_is_canon).
      unfold Qcdiv. apply Qcmult_le_compat_r; [|done].
      unfold Qcminus. by apply Qcplus_le_compat. }
    assert (Hmax : max2 ((mean (x :: xs) - 1) / Qc_of_Z 9) 0
                   = (mean (x :: xs) - 1) / Qc_of_Z 9).
    { unfold max2. rewrite bool_decide_eq_false_2; [done|].
      apply Qcle_not_lt. by etrans; [|exact Hbig]. }
    rewrite Hmax. unfold min2.
    case_bool_decide as H1; [done|]. apply Qcle_antisym; [by apply Qcnot_lt_le|done].
Qed.

(** *** Dictionaries of statistics *)

Lemma Forall_dict_update {V} (Q : string * V → Prop) (dflt : V) (f : V → V) k (d : dict V) :
  Forall Q d → (∀ v, Q (k, v) → Q (k, f v)) → Q (k, f dflt) →
  Forall Q (dict_update dflt f k d).
Proof.
  intros Hd Hk Hnew. induction Hd as [|[k' v] d Hkv Hd IH]; cbn.
  - by repeat constructor.
  - destruct (String.eqb_spec k k') as [<-|Hne].
    + constructor; [by apply Hk|done].
    + by constructor.
Qed.

Lemma dict_update_keys {V} (dflt : V) (f : V → V) k (d : dict V) :
  (dict_update dflt f k d).*1 = if bool_decide (k ∈ d.*1) then d.*1 else d.*1 ++ [k].
Proof.
  induction d as [|[k' v] d IH]; cbn; [done|].
  destruct (String.eqb_spec k k') as [<-|Hne]; cbn.
  - rewrite bool_decide_eq_true_2; [done|left].
  - rewrite IH. case_bool_decide as Hin.
    + rewrite bool_decide_eq_true_2; [done|by right].
    + rewrite bool_decide_eq_false_2; [done|].
      intros [?|?]%elem_of_cons; done.
Qed.

Lemma dict_update_NoDup {V} (dflt : V) (f : V → V) k (d : dict V) :
  NoDup d.*1 → NoDup (dict_update dflt f k d).*1.
Proof.
  intros Hnd. rewrite dict_update_keys. case_bool_decide as Hin; [done|].
  apply NoDup_app. split_and!; [done| |apply NoDup_singleton].
  intros x Hx ->%list_elem_of_singleton. done.
Qed.

Lemma NoDup_omap_keys {A B} (key : A → string) (key' : B → string) (g : A → option B)
    (l : list A) :
  (∀ x y, g x = Some y → key' y = key x) →
  NoDup (key <$> l) → NoDup (key' <$> omap g l).
Proof.
  intros Hkey. induction l as [|x l IH]; cbn; [constructor|].
  intros [Hx Hl]%NoDup_cons. destruct (g x) as [y|] eqn:Hg; cbn; [|by apply IH].
  apply NoDup_cons. split; [|by apply IH].
  rewrite (Hkey x y Hg). intros (y' & Hy' & Hin)%list_elem_of_fmap.
  apply list_elem_of_omap in Hin as (x' & Hx' & Hg').
  apply Hx. rewrite Hy', (Hkey x' y' Hg'). by apply list_elem_of_fmap_2.
Qed.

(** *** Fractions against one *)

Lemma ratio_lt_1 (n m : nat) : (n < m)%nat → ratio n m < 1.
Proof.
  intros Hnm. rewrite <- (ratio_self m) by lia. unfold ratio, Qcdiv.
  apply Qcmult_lt_compat_r; [apply Qcinv_pos, Qc_of_nat_pos; lia|].
  apply (proj1 (Z2Qc_inj_lt _ _)). lia.
Qed.

Lemma ratio_gt_1 (n m : nat) : (0 < m < n)%nat → 1 < ratio n m.
Proof.
  intros Hnm. rewrite <- (ratio_self m) by lia. unfold ratio, Qcdiv.
  apply Qcmult_lt_compat_r; [apply Qcinv_pos, Qc_of_nat_pos; lia|].
  apply (proj1 (Z2Qc_inj_lt _ _)). lia.
Qed.

Lemma ratio_mono (n n' m : nat) : (n ≤ n')%nat → ratio n m ≤ ratio n' m.
Proof.
  intros Hn. destruct m as [|m].
  - unfold ratio, Qcdiv. change (Z.of_nat 0) with 0%Z. rewrite Z2Qc_inj_0.
    replace (/ 0) with 0 by (by apply Qc_is_canon). by rewrite !Qcmult_0_r.
  - unfold ratio, Qcdiv. apply Qcmult_le_compat_r.
    + apply (proj1 (Z2Qc_inj_le _ _)). lia.
    + apply Qclt_le_weak, Qcinv_pos, Qc_of_nat_pos. lia.
Qed.

(** The confidence of an edge seen [n] times. *)
Lemma confidence_of_frequency (n : nat) :
  (1 ≤ n)%nat →
  let c := min2 (Qc_of_Z (Z.of_nat n) / Qc_of_Z 20) 1 in
  Q2Qc (1 # 20) ≤ c ≤ 1
  ∧ (c = 1 ↔ (20 ≤ n)%nat)
  ∧ ((n ≤ 20)%nat → c = ratio n 20).
Proof.
  intros Hn c. unfold c, min2. change (Qc_of_Z (Z.of_nat n) / Qc_of_Z 20) with (ratio n 20).
  assert (Hone : Q2Qc (1 # 20) = ratio 1 20) by (by apply Qc_is_canon).
  case_bool_decide as Hbig.
  - assert (Hn20 : (20 < n)%nat).
    { destruct (decide (20 < n)%nat); [done|]. exfalso.
      apply (Qclt_not_le _ _ Hbig), ratio_le_1. lia. }
    split_and!; [done|done| |lia]. split; [lia|done].
  - apply Qcnot_lt_le in Hbig. split_and!.
    + rewrite Hone. by apply ratio_mono.
    + done.
    + split.
      * intros Hc. destruct (decide (20 ≤ n)%nat); [done|]. exfalso.
        assert (Hlt : ratio n 20 < 1) by (apply ratio_lt_1; lia).
        rewrite Hc in Hlt. by apply (Qclt_not_le _ _ Hlt).
      * intros Hge. apply Qcle_antisym; [done|].
        rewrite <- (ratio_self 20) by lia. by apply ratio_mono.
    + done.
Qed.

Section Stats.
Variable paper_quality : Paper → Qc.

(** Every entry of [domain_stats] was appended to: its two lists are
    non-empty, of the same length, and hold qualities of papers. *)
Lemma domain_stats_entries (b : EdgeBuilder) (pattern_id : string) :
  NoDup (domain_stats paper_quality b pattern_id).*1
  ∧ Forall (λ kv : string * DomainStats,
              stat_papers kv.2 ≠ []
              ∧ length (stat_qualities kv.2) = length (stat_papers kv.2)
              ∧ Forall (λ q, ∃ p, p ∈ papers b ∧ q = paper_quality p) (stat_qualities kv.2))
           (domain_stats paper_quality b pattern_id).
Proof.
  unfold domain_stats.
  set (Q := λ kv : string * DomainStats,
              stat_papers kv.2 ≠ []
              ∧ length (stat_qualities kv.2) = length (stat_papers kv.2)
              ∧ Forall (λ q, ∃ p, p ∈ papers b ∧ q = paper_quality p) (stat_qualities kv.2)).
  assert (Hgen : ∀ (l : list Paper) (d : dict DomainStats),
            (∀ p, p ∈ l → p ∈ papers b) → NoDup d.*1 → Forall Q d →
            let d' := foldl (λ stats paper,
                        if bool_decide (pattern_id ∈ paper_pattern_ids paper) then
                          foldl (λ stats domain_name,
                                   match domain_name_to_id b !! domain_name with
                                   | Some did =>
                                       if truthy did
                                       then dict_update no_stats
                                              (record_paper (paper_id paper)
                                                 (paper_quality paper)) did stats
                                       else stats
                                   | None => stats
                                   end) stats (domains paper)
                        else stats) d l in
            NoDup d'.*1 ∧ Forall Q d').
  { induction l as [|paper l IH]; intros d Hsub Hnd HQ; [done|].
    cbn [foldl]. apply IH; [intros p Hp; apply Hsub; by right| |].
    - case_bool_decide; [|done].
      generalize (domains paper) as names. intros names. revert d Hnd HQ.
      induction names as [|dn names IHn]; intros d Hnd HQ; [done|].
      cbn [foldl]. apply IHn.
      + destruct (domain_name_to_id b !! dn) as [did|]; [|done].
        destruct (truthy did); [|done]. by apply dict_update_NoDup.
      + destruct (domain_name_to_id b !! dn) as [did|]; [|done].
        destruct (truthy did); [|done]. apply Forall_dict_update; [done| |].
        * intros v (Hne & Hlen & Hq). unfold Q. cbn in *. split_and!.
          -- by destruct (stat_papers v).
          -- rewrite !length_app, Hlen. done.
          -- apply Forall_app. split; [done|]. constructor; [|done].
             exists paper. split; [apply Hsub; left|done].
        * unfold Q. cbn. split_and!; [done|done|].
          constructor; [|done]. exists paper. split; [apply Hsub; left|done].
    - case_bool_decide; [|done].
      generalize (domains paper) as names. intros names. revert d Hnd HQ.
      induction names as [|dn names IHn]; intros d Hnd HQ; [done|].
      cbn [foldl]. apply IHn.
      + destruct (domain_name_to_id b !! dn) as [did|]; [|done].
        destruct (truthy did); [|done]. by apply dict_update_NoDup.
      + destruct (domain_name_to_id b !! dn) as [did|]; [|done].
        destruct (truthy did); [|done]. apply Forall_dict_update; [done| |].
        * intros v (Hne & Hlen & Hq). unfold Q. cbn in *. split_and!.
          -- by destruct (stat_papers v).
          -- rewrite !length_app, Hlen. done.
          -- apply Forall_app. split; [done|]. constructor; [|done].
             exists paper. split; [apply Hsub; left|done].
        * unfold Q. cbn. split_and!; [done|done|].
          constructor; [|done]. exists paper. split; [apply Hsub; left|done]. }
  apply (Hgen (papers b) []); [done|constructor|constructor].
Qed.

End Stats.

(** X27. A pattern gets at most one works_well_in edge per domain, only to
    known domains in which it has at least one paper; the confidence is
    min(frequency / 20, 1), so between 0.05 and 1 and equal to 1 exactly
    from 20 papers on; the effectiveness is the pattern's average quality in
    the domain minus the domain baseline, and lies between -1 and 1 when
    paper qualities lie between 0 and 1. *)
Theorem works_well_in_edges_are_weighted (paper_quality : Paper → Qc)
    (b : EdgeBuilder) (pattern_id : string) :
  let edges := works_well_in_edges paper_quality b pattern_id in
  NoDup (ww_domain <$> edges)
  ∧ Forall (λ e, ww_pattern e = pattern_id
                 ∧ is_Some (domain_id_to_domain b !! ww_domain e)
                 ∧ (1 ≤ frequency e)%nat
                 ∧ Q2Qc (1 # 20) ≤ ww_confidence e ≤ 1
                 ∧ (ww_confidence e = 1 ↔ (20 ≤ frequency e)%nat)
                 ∧ ((frequency e ≤ 20)%nat → ww_confidence e = ratio (frequency e) 20)
                 ∧ ww_effectiveness e = avg_quality e - baseline e) edges
  ∧ ((∀ p, 0 ≤ paper_quality p ≤ 1) →
     Forall (λ e, 0 ≤ avg_quality e ≤ 1 ∧ 0 ≤ baseline e ≤ 1
                  ∧ -(1) ≤ ww_effectiveness e ≤ 1) edges).
Proof.
  intros edges. unfold edges, works_well_in_edges.
  destruct (domain_stats_entries paper_quality b pattern_id) as [Hnd Hentries].
  assert (Hedge : ∀ kv e, kv ∈ domain_stats paper_quality b pattern_id →
            works_well_in_edge paper_quality b pattern_id kv = Some e →
            ∃ domain, domain_id_to_domain b !! kv.1 = Some domain
              ∧ stat_papers kv.2 ≠ []
              ∧ e = {| ww_pattern := pattern_id; ww_domain := kv.1;
                       frequency := length (stat_papers kv.2);
                       ww_effectiveness :=
                         mean (stat_qualities kv.2)
                         - match filter (λ p, name domain ∈ domains p) (papers b) with
                           | [] => Q2Qc (7 # 10)
                           | _ :: _ =>
                               mean (paper_quality
                                       <$> filter (λ p, name domain ∈ domains p) (papers b))
                           end;
                       ww_confidence :=
                         min2 (Qc_of_Z (Z.of_nat (length (stat_papers kv.2))) / Qc_of_Z 20) 1;
                       avg_quality := mean (stat_qualities kv.2);
                       baseline :=
                         match filter (λ p, name domain ∈ domains p) (papers b) with
                         | [] => Q2Qc (7 # 10)
                         | _ :: _ =>
                             mean (paper_quality
                                     <$> filter (λ p, name domain ∈ domains p) (papers b))
                         end |}).
  { intros [did stats] e _ He. unfold works_well_in_edge in He. cbn [fst snd].
    case_bool_decide as Hp; [done|].
    destruct (domain_id_to_domain b !! did) as [domain|]; [|done].
    exists domain. split; [done|]. split; [done|]. by injection He as <-. }
  split_and!.
  - eapply (NoDup_omap_keys fst ww_domain); [|exact Hnd].
    intros kv e He. unfold works_well_in_edge in He. destruct kv as [did stats].
    case_bool_decide; [done|]. destruct (domain_id_to_domain b !! did); [|done].
    by injection He as <-.
  - apply Forall_forall. intros e (kv & Hkv & He)%list_elem_of_omap.
    destruct (Hedge kv e Hkv He) as (domain & Hdom & Hne & ->). cbn.
    assert (Hfreq : (1 ≤ length (stat_papers kv.2))%nat).
    { destruct (stat_papers kv.2); [done|cbn; lia]. }
    destruct (confidence_of_frequency _ Hfreq) as (Hrange & Hone & Hlin).
    cbn zeta in *. split_and!; [done|by rewrite Hdom|done|apply Hrange|apply Hrange
                               |done|done|done].
  - intros Hq. apply Forall_forall. intros e (kv & Hkv & He)%list_elem_of_omap.
    destruct (Hedge kv e Hkv He) as (domain & Hdom & Hne & ->). cbn.
    rewrite Forall_forall in Hentries. destruct (Hentries kv Hkv) as (_ & Hlen & Hqs).
    assert (Havg : 0 ≤ mean (stat_qualities kv.2) ≤ 1).
    { unfold mean. apply mean_between.
      - intros Hnil. rewrite Hnil in Hlen. by destruct (stat_papers kv.2).
      - eapply Forall_impl; [exact Hqs|]. intros q (p & _ & ->). apply Hq. }
    assert (Hbase : 0 ≤ match filter (λ p, name domain ∈ domains p) (papers b) with
                        | [] => Q2Qc (7 # 10)
                        | _ :: _ =>
                            mean (paper_quality
                                    <$> filter (λ p, name domain ∈ domains p) (papers b))
                        end ≤ 1).
    { destruct (filter (λ p, name domain ∈ domains p) (papers b)) as [|p ps]; [done|].
      unfold mean. apply mean_between; [done|].
      apply Forall_fmap, Forall_forall. intros p' _. apply Hq. }
    destruct Havg as [Ha0 Ha1]. destruct Hbase as [Hb0 Hb1].
    split_and!; [done|done|done|done| |].
    + replace (-(1)) with (0 - 1) by ring. unfold Qcminus.
      apply Qcplus_le_compat; [done|]. by apply Qcopp_le_compat.
    + replace 1 with (1 - 0) by ring. unfold Qcminus.
      apply Qcplus_le_compat; [done|]. by apply Qcopp_le_compat.
Qed.

(** The guard on the size of the union never fires: the similarity is
    the Jaccard index of the two token sets. *)
Lemma edge_similarity_jaccard (text1 text2 : text) :
  EdgeWeights._compute_text_similarity text1 text2
  = if bool_decide (tokenize text1 = ∅) || bool_decide (tokenize text2 = ∅) then 0
    else ratio (size (tokenize text1 ∩ tokenize text2))
               (size (tokenize text1 ∪ tokenize text2)).
Proof.
  unfold EdgeWeights._compute_text_similarity.
  case_bool_decide as H1; [done|]. case_bool_decide as H2; [done|]. cbn.
  rewrite bool_decide_eq_true_2; [done|].
  apply Nat.neq_0_lt_0. intros Hz. apply size_empty_inv in Hz. set_solver.
Qed.

Lemma edge_similarity_range (text1 text2 : text) :
  0 ≤ EdgeWeights._compute_text_similarity text1 text2 ≤ 1.
Proof.
  rewrite edge_similarity_jaccard.
  apply (jaccard_characterised (tokenize text1) (tokenize text2)).
Qed.

Lemma similar_to_paper_items_entries (paper_quality : Paper → Qc) (b : EdgeBuilder)
    (idea : Idea) :
  Forall (λ e, ∃ paper, paper ∈ papers b
                 ∧ e = {| st_idea := idea_id idea; st_paper := paper_id paper;
                          st_similarity :=
                            EdgeWeights._compute_text_similarity (description idea)
                              (core_idea paper);
                          st_quality := paper_quality paper;
                          combined_weight :=
                            EdgeWeights._compute_text_similarity (description idea)
                              (core_idea paper) * paper_quality paper |}
                 ∧ truthy (core_idea paper) = true
                 ∧ Q2Qc (1 # 10)
                   ≤ EdgeWeights._compute_text_similarity (description idea)
                       (core_idea paper))
         (similar_to_paper_items paper_quality b idea).
Proof.
  unfold similar_to_paper_items. apply Forall_forall. intros e He.
  apply list_elem_of_omap in He as (paper & Hin & He). exists paper. split; [done|].
  destruct (truthy (core_idea paper)) eqn:Ht; cbn in He; [|done].
  case_bool_decide as Hsim; [done|].
  injection He as <-. split_and!; [done|done|]. by apply Qcnot_lt_le.
Qed.

(** X28. An idea gets at most 50 similar_to_paper edges, in descending order
    of combined weight and none when its description is empty; each edge
    goes to a paper with a core idea whose token similarity to the
    description is at least 0.1, and weighs similarity x quality; a
    candidate that gets no edge weighs no more than any edge kept. *)
Theorem similar_to_paper_edges_are_the_heaviest (paper_quality : Paper → Qc)
    (b : EdgeBuilder) (idea : Idea) :
  let items := similar_to_paper_items paper_quality b idea in
  let edges := similar_to_paper_edges paper_quality b idea in
  (length edges ≤ 50)%nat
  ∧ StronglySorted (desc_by combined_weight) edges
  ∧ (truthy (description idea) = false → edges = [])
  ∧ Forall (λ e, st_idea e = idea_id idea
                 ∧ Q2Qc (1 # 10) ≤ st_similarity e ≤ 1
                 ∧ combined_weight e = st_similarity e * st_quality e
                 ∧ ∃ paper, paper ∈ papers b ∧ st_paper e = paper_id paper
                            ∧ truthy (core_idea paper) = true
                            ∧ st_quality e = paper_quality paper
                            ∧ st_similarity e
                              = EdgeWeights._compute_text_similarity (description idea)
                                  (core_idea paper)) edges
  ∧ (truthy (description idea) = true →
     ∀ e, e ∈ items →
          e ∈ edges
          ∨ (length edges = 50%nat
             ∧ Forall (λ kept, combined_weight e ≤ combined_weight kept) edges))
  ∧ ((∀ p, 0 ≤ paper_quality p ≤ 1) →
     Forall (λ e, 0 ≤ combined_weight e ≤ st_similarity e) edges).
Proof.
  intros items edges. unfold edges, similar_to_paper_edges.
  pose proof (similar_to_paper_items_entries paper_quality b idea) as Hitems.
  fold items in Hitems.
  destruct (truthy (description idea)) eqn:Hdesc; cbn [negb].
  2:{ split_and!; [cbn; lia|constructor|done|constructor|done|constructor]. }
  assert (Hkept : ∀ P : SimilarToPaper → Prop,
            Forall P items → Forall P (take 50 (sort_descQ combined_weight items))).
  { intros P HP. apply Forall_take. by rewrite sort_descQ_perm. }
  split_and!.
  - rewrite length_take. lia.
  - apply StronglySorted_take_prefix, sort_descQ_sorted.
  - done.
  - apply Hkept. eapply Forall_impl; [exact Hitems|].
    intros e (paper & Hin & -> & Ht & Hsim). cbn.
    split_and!; [done|done|apply edge_similarity_range|done|].
    by exists paper.
  - intros _ e He. by apply (top_cut combined_weight 50).
  - intros Hq. apply Hkept. eapply Forall_impl; [exact Hitems|].
    intros e (paper & Hin & -> & Ht & Hsim). cbn.
    destruct (Hq paper) as [Hq0 Hq1].
    destruct (edge_similarity_range (description idea) (core_idea paper)) as [Hs0 _].
    split.
    + replace 0 with (0 * paper_quality paper) by ring.
      by apply Qcmult_le_compat_r.
    + rewrite <- (Qcmult_1_r (EdgeWeights._compute_text_similarity _ _)) at 2.
      rewrite !(Qcmult_comm (EdgeWeights._compute_text_similarity _ _)).
      by apply Qcmult_le_compat_r.
Qed.

End EdgeWeightFacts.

(** ** The whole recall *)

Module RecallFacts.
Import Py Graph Recall Pipeline Orchestrator Spec RecallPaths RecallPath2.
Import PyFacts RatioFacts VerifierFacts RankingFacts SimilarityFacts TopIdeasFacts.

(** *** Indices *)

Lemma index_by_from {A} (key : A → string) (l : list A) (m : gmap string A) k :
  foldl (λ m x, <[key x := x]> m) m l !! k
  = match last (filter (λ x, key x = k) l) with
    | Some x => Some x
    | None => m !! k
    end.
Proof.
  revert m. induction l as [|x l IH]; intros m; [done|].
  cbn [foldl]. rewrite IH, filter_cons.
  destruct (decide (key x = k)) as [Hk|Hk].
  - rewrite last_cons.
    destruct (last (filter (λ x, key x = k) l)); [done|].
    subst k. apply lookup_insert_eq.
  - destruct (last (filter (λ x, key x = k) l)); [done|].
    by rewrite lookup_insert_ne.
Qed.

Lemma index_by_lookup_Some {A} (key : A → string) (l : list A) k x :
  index_by key l !! k = Some x → key x = k ∧ x ∈ l.
Proof.
  unfold index_by. rewrite index_by_from.
  destruct (last (filter (λ x, key x = k) l)) as [y|] eqn:Hlast; [|done].
  intros [= ->]. apply last_Some_elem_of in Hlast.
  by apply list_elem_of_filter in Hlast.
Qed.

Lemma index_by_is_Some {A} (key : A → string) (l : list A) x :
  x ∈ l → is_Some (index_by key l !! key x).
Proof.
  intros Hx. unfold index_by. rewrite index_by_from.
  destruct (last (filter (λ y, key y = key x) l)) as [y|] eqn:Hlast; [done|].
  apply last_None in Hlast.
  assert (Hin : x ∈ filter (λ y, key y = key x) l) by (by apply list_elem_of_filter).
  rewrite Hlast in Hin. by apply elem_of_nil in Hin.
Qed.

(** *** The demo's recall *)

Lemma path3_none sim paper_idea G papers user_idea :
  (∀ p, p ∈ papers → sim user_idea (paper_idea p) = 0) →
  path3 sim paper_idea G papers user_idea = [].
Proof.
  intros Hzero. unfold path3.
  assert (Hsims : path3_similarities sim paper_idea G papers user_idea = []).
  { unfold path3_similarities. induction papers as [|p papers IH]; [done|].
    cbn. rewrite IH by (intros p' Hp'; apply Hzero; by right).
    destruct (truthy (paper_idea p)); [|done]. cbn.
    rewrite (Hzero p) by left. done. }
  by rewrite Hsims.
Qed.

Lemma fuse_nothing cfg : fuse cfg [] [] [] = [].
Proof.
  unfold fuse, fuse_in, all_patterns. cbn.
  rewrite !union_empty_l_L, elements_empty. by destruct (FINAL_TOP_K cfg).
Qed.

Lemma demo_recall_nothing cfg ideas patterns G papers user_idea :
  (∀ i, i ∈ ideas → char_set user_idea ## char_set (description i)) →
  (∀ p, p ∈ papers → char_set user_idea ## char_set (demo_paper_idea p)) →
  demo_recall cfg ideas patterns G papers user_idea = [].
Proof.
  intros Hideas Hpapers. unfold demo_recall.
  rewrite top_ideas_none.
  2:{ intros i Hi. by apply demo_similarity_zero, Hideas. }
  unfold demo_path3. rewrite path3_none.
  2:{ intros p Hp. by apply demo_similarity_zero, Hpapers. }
  cbn [foldl]. unfold demo_path2. cbn. by rewrite fuse_nothing.
Qed.

(** X29. When the query shares no character with any idea description or
    paper text, the simplified recall, which the main function of the
    pipeline repeats, returns no pattern, and the pipeline run on that
    result returns the failure dict without calling the language model. *)
Theorem unrelated_idea_recalls_nothing {W : Type}
    (llm_story : GenMode → GenRequest → W → Story * W)
    (llm_review : Story → Reviewer → W → (Qc * text) * W)
    (cfg : PipelineConfig) (ideas : list Idea) (patterns : list Pattern) (G : DiGraph)
    (papers : list Paper) (user_idea : text) (st : Session W) :
  (∀ i, i ∈ ideas → char_set user_idea ## char_set (description i)) →
  (∀ p, p ∈ papers → char_set user_idea ## char_set (demo_paper_idea p)) →
  demo_recall demo_config ideas patterns G papers user_idea = []
  ∧ run llm_story llm_review cfg
        (demo_recall demo_config ideas patterns G papers user_idea) papers st
    = (Some [("success"%string, VBool false)], st).
Proof.
  intros Hideas Hpapers.
  rewrite (demo_recall_nothing demo_config ideas patterns G papers user_idea Hideas Hpapers).
  done.
Qed.

Lemma unrelated_idea_recalls_nothing_witness :
  (∀ i, i ∈ [Examples.gnn_idea] →
        char_set RecallExamples.digits_query ## char_set (description i))
  ∧ (∀ p, p ∈ [RecallExamples.kernel_paper] →
          char_set RecallExamples.digits_query ## char_set (demo_paper_idea p))
  ∧ demo_recall demo_config [Examples.gnn_idea] [] Examples.gnn_graph
      [RecallExamples.kernel_paper] RecallExamples.digits_query = []
  ∧ run (Examples.scripted_story Examples.draft)
        (Examples.scripted_review Examples.scores_novelty_low) default_pipeline_config
        (demo_recall demo_config [Examples.gnn_idea] [] Examples.gnn_graph
           [RecallExamples.kernel_paper] RecallExamples.digits_query)
        [RecallExamples.kernel_paper] (new_session 0%nat)
    = (Some [("success"%string, VBool false)], new_session 0%nat).
Proof.
  assert (Hideas : ∀ i, i ∈ [Examples.gnn_idea] →
            char_set RecallExamples.digits_query ## char_set (description i)).
  { intros i Hi. apply list_elem_of_singleton in Hi as ->. compute_done. }
  assert (Hpapers : ∀ p, p ∈ [RecallExamples.kernel_paper] →
            char_set RecallExamples.digits_query ## char_set (demo_paper_idea p)).
  { intros p Hp. apply list_elem_of_singleton in Hp as ->. compute_done. }
  destruct (unrelated_idea_recalls_nothing
              (Examples.scripted_story Examples.draft)
              (Examples.scripted_review Examples.scores_novelty_low)
              default_pipeline_config [Examples.gnn_idea] [] Examples.gnn_graph
              [RecallExamples.kernel_paper] RecallExamples.digits_query
              (new_session 0%nat) Hideas Hpapers) as [Hnothing Hrun].
  split; [exact Hideas|]. split; [exact Hpapers|]. split; [exact Hnothing|exact Hrun].
Defined.

(** *** Path 2 of [recall_system.py] *)

Lemma path2_patterns_raised sys domains (l : list (string * Qc)) :
  foldl (λ acc entry,
           scores ← acc;
           match index_by domain_id domains !! entry.1 with
           | None => Some scores
           | Some _ => path2_domain entry.2 scores <$> predecessors_of (G sys) entry.1
           end) None l = None.
Proof. by induction l. Qed.

Lemma path2_patterns_outside sys domains (l : list (string * Qc)) (e : string * Qc) :
  e ∈ l → is_Some (index_by domain_id domains !! e.1) → has_node (G sys) e.1 = false →
  path2_patterns sys domains l = None.
Proof.
  intros Hin [d Hd] Hnode. unfold path2_patterns.
  generalize (Some [] : option (dict Qc)) as acc.
  induction l as [|x l IH]; intros acc; [by apply elem_of_nil in Hin|].
  cbn [foldl]. apply elem_of_cons in Hin as [<-|Hin]; [|by apply IH].
  destruct acc as [scores|]; cbn; [|apply path2_patterns_raised].
  rewrite Hd. unfold predecessors_of. rewrite Hnode. cbn.
  apply path2_patterns_raised.
Qed.

Lemma path2_patterns_inside sys domains (l : list (string * Qc)) :
  (∀ d, d ∈ domains → has_node (G sys) (domain_id d) = true) →
  is_Some (path2_patterns sys domains l).
Proof.
  intros Hnodes. unfold path2_patterns.
  generalize ([] : dict Qc) as scores.
  induction l as [|x l IH]; intros scores; [done|].
  cbn [foldl mbind option_bind].
  destruct (index_by domain_id domains !! x.1) as [d|] eqn:Hd; [|apply IH].
  apply index_by_lookup_Some in Hd as [Hid Hin].
  unfold predecessors_of. rewrite <- Hid, (Hnodes d Hin). cbn. apply IH.
Qed.

Lemma domain_match_known (user_idea : text) (domains : list Domain) (e : string * Qc) :
  e ∈ domain_match user_idea domains →
  0 < e.2 ≤ 1 ∧ ∃ d, d ∈ domains ∧ e.1 = domain_id d
                   ∧ ¬ token_set user_idea ## token_set (name d).
Proof.
  unfold domain_match. intros (d & Hd & He)%list_elem_of_omap.
  case_bool_decide as Hpos; [|done]. injection He as <-. cbn.
  split; [split; [done|]|].
  - apply ratio_le_1. etrans; [apply subseteq_size|apply Nat.le_max_l]. set_solver.
  - exists d. split_and!; [done|done|]. intros Hdisj.
    apply disjoint_intersection_L in Hdisj. rewrite Hdisj, size_empty, ratio_zero in Hpos.
    by apply (Qclt_not_le _ _ Hpos).
Qed.

(** X30. Path 2 of RecallSystem reads the graph without a has_node guard: it
    raises, and recall with it, when no domain name matches and the most
    similar idea is not a graph node, or when a kept matched domain is not a
    graph node. It returns an empty dict when no domain matches and no idea
    is similar, and it returns whenever every domain record and the fallback
    idea are graph nodes. *)
Theorem path2_reads_the_graph_unguarded (cfg : RecallConfig) (sys : RecallSystem)
    (domains : list Domain) (papers : list Paper) (user_idea : text) :
  let matched := domain_match user_idea domains in
  let path2 := _recall_path2_domain_patterns sys domains user_idea in
  let results := recall cfg sys domains papers user_idea false in
  (matched = [] →
   ∀ idea, most_similar_idea (ideas sys) user_idea = Some idea →
           has_node (G sys) (idea_id idea) = false →
           path2 = None ∧ results = None)
  ∧ (matched = [] → most_similar_idea (ideas sys) user_idea = None → path2 = Some [])
  ∧ (∀ e, e ∈ take PATH2_TOP_K_DOMAINS (sort_descQ snd matched) →
          has_node (G sys) e.1 = false →
          path2 = None ∧ results = None)
  ∧ ((∀ d, d ∈ domains → has_node (G sys) (domain_id d) = true) →
     (matched = [] →
      ∀ idea, most_similar_idea (ideas sys) user_idea = Some idea →
              has_node (G sys) (idea_id idea) = true) →
     is_Some path2 ∧ is_Some results).
Proof.
  intros matched path2 results.
  assert (Hrecall : path2 = None → results = None).
  { intros Hnone. unfold results, recall. fold path2. by rewrite Hnone. }
  assert (Hrecall' : is_Some path2 → is_Some results).
  { intros [scores Hsome]. unfold results, recall. fold path2. by rewrite Hsome. }
  assert (Hpath2 : path2
            = top ← match matched with
                    | [] => fallback_domains sys user_idea
                    | _ :: _ => Some matched
                    end;
              path2_patterns sys domains (take PATH2_TOP_K_DOMAINS (sort_descQ snd top)))
    by done.
  clearbody path2 results.
  split_and!.
  - intros Hm idea Hidea Hnode.
    assert (Hnone : path2 = None); [|by auto].
    rewrite Hpath2, Hm. unfold fallback_domains, successors_of. by rewrite Hidea, Hnode.
  - intros Hm Hidea. rewrite Hpath2, Hm. unfold fallback_domains. by rewrite Hidea.
  - intros e He Hnode.
    assert (Hnone : path2 = None); [|by auto].
    assert (Hin : e ∈ matched).
    { eapply elem_of_sublist in He; [|apply sublist_take].
      by rewrite sort_descQ_perm in He. }
    rewrite Hpath2. destruct matched as [|m ms] eqn:Hmatched; [by apply elem_of_nil in Hin|].
    cbn [mbind option_bind].
    apply (path2_patterns_outside _ _ _ e); [done| |done].
    rewrite <- Hmatched in Hin.
    apply domain_match_known in Hin as [_ (d & Hd & -> & _)].
    by apply index_by_is_Some.
  - intros Hnodes Hidea.
    assert (Hsome : is_Some path2); [|by auto].
    rewrite Hpath2. destruct matched as [|m ms] eqn:Hmatched.
    + unfold fallback_domains.
      destruct (most_similar_idea (ideas sys) user_idea) as [idea|] eqn:Hbest.
      * unfold successors_of. rewrite (Hidea eq_refl idea eq_refl). cbn.
        by apply path2_patterns_inside.
      * by cbn.
    + cbn [mbind option_bind]. by apply path2_patterns_inside.
Qed.

End RecallFacts.
